(** * zynaudioplayer: a shallow embedding of [player.c]

    The audio player library keeps a fixed table of player instances
    ([g_players]), each of which is driven by three parties: the API caller,
    the file-reader thread ([file_thread_fn]) and the JACK process callback
    ([on_jack_process]).  This development embeds the sequential behaviour
    of those functions and states properties of it.

    Conventions of the embedding
    - C integers are [Z]; where the source stores into a narrower unsigned
      type the wrap-around is written out ([u8], [u32]).
    - [float] and [double] quantities are exact rationals ([Q]); rounding
      and the IEEE special values are outside the model.  Conversion of a
      floating value to an integer truncates towards zero ([Qtrunc]).
    - A non-null [struct AUDIO_PLAYER *] is identified with the slot of
      [g_players] that holds it, so every write through the pointer is a
      write to that slot.
    - Behaviour that C leaves undefined is an explicit result ([UB]).
    - Calls of the notification callback are recorded in [cb_log]. *)

From Stdlib Require Import ZArith QArith Qabs Lia String Bool.
From stdpp Require Import base list.

Open Scope Z_scope.

(** ** Results of C code: a value, or undefined behaviour *)

Inductive ub_kind : Type :=
| OutOfBounds (index : Z)   (* array element outside its object *)
| DeadRingbuffer            (* ring buffer pointer that is NULL, freed or never set *)
| BadPointer                (* player pointer whose slot holds no player *)
| DivByZero.                (* integer remainder by zero *)

Inductive res (A : Type) : Type :=
| Ok (a : A)
| UB (why : ub_kind).
Arguments Ok {A} a.
Arguments UB {A} why.

Definition bind {A B : Type} (r : res A) (k : A -> res B) : res B :=
  match r with
  | Ok a => k a
  | UB w => UB w
  end.

Notation "'do' x <- r ; k" := (bind r (fun x => k))
  (at level 10, x name, r at level 100, k at level 200).

(** ** Machine arithmetic *)

Definition u8 (x : Z) : Z := x mod 256.
Definition u32 (x : Z) : Z := x mod 2 ^ 32.

(** Conversion of a floating value to an integer type. *)
Definition Qtrunc (q : Q) : Z := Z.quot (Qnum q) (Zpos (Qden q)).

Definition Qltb (x y : Q) : bool := negb (Qle_bool y x).
Definition Qgeb (x y : Q) : bool := Qle_bool y x.

(** ** Constants *)

Definition MAX_PLAYERS : Z := 17.

(* enum playState *)
Definition STOPPED : Z := 0.
Definition STARTING : Z := 1.
Definition PLAYING : Z := 2.
Definition STOPPING : Z := 3.

(* enum seekState *)
Definition IDLE : Z := 0.
Definition SEEKING : Z := 1.
Definition LOADING : Z := 2.
Definition LOOPING : Z := 3.

(* libsamplerate converter types *)
Definition SRC_SINC_FASTEST : Z := 2.
Definition SRC_LINEAR : Z := 4.

(** The notification tags are declared in [player.h]; only their being
    distinct matters here. *)
Inductive notify : Type :=
| NOTIFY_ALL | NOTIFY_TRANSPORT | NOTIFY_POSITION | NOTIFY_GAIN | NOTIFY_LOOP
| NOTIFY_LOOP_START | NOTIFY_LOOP_END | NOTIFY_TRACK_A | NOTIFY_TRACK_B
| NOTIFY_QUALITY | NOTIFY_DEBUG.

Definition notify_eqb (a b : notify) : bool :=
  match a, b with
  | NOTIFY_ALL, NOTIFY_ALL | NOTIFY_TRANSPORT, NOTIFY_TRANSPORT
  | NOTIFY_POSITION, NOTIFY_POSITION | NOTIFY_GAIN, NOTIFY_GAIN
  | NOTIFY_LOOP, NOTIFY_LOOP | NOTIFY_LOOP_START, NOTIFY_LOOP_START
  | NOTIFY_LOOP_END, NOTIFY_LOOP_END | NOTIFY_TRACK_A, NOTIFY_TRACK_A
  | NOTIFY_TRACK_B, NOTIFY_TRACK_B | NOTIFY_QUALITY, NOTIFY_QUALITY
  | NOTIFY_DEBUG, NOTIFY_DEBUG => true
  | _, _ => false
  end.

(** ** The JACK ring buffer, as its interface documents it

    A byte queue of [rb_size] bytes (a power of two) of which one byte is
    never used.  A queued byte of a float sample is the pair of the sample
    and the byte's index in it. *)
Module RB.

Record t : Type := mk { rb_size : Z; rb_data : list (Q * Z) }.

Definition read_space (rb : t) : Z := Z.of_nat (length (rb_data rb)).
Definition write_space (rb : t) : Z := rb_size rb - 1 - read_space rb.

Definition create (sz : Z) : t := mk (2 ^ Z.max 1 (Z.log2_up sz)) [].
Definition reset (rb : t) : t := mk (rb_size rb) [].

(** The first [cnt] bytes of the sample [s]. *)
Definition bytes_of (s : Q) (cnt : Z) : list (Q * Z) :=
  map (fun k => (s, Z.of_nat k)) (seq 0 (Z.to_nat (Z.min cnt 4))).

(** [write rb s cnt]: queue [cnt] bytes of [s]; returns the bytes written. *)
Definition write (rb : t) (s : Q) (cnt : Z) : t * Z :=
  let n := Z.max 0 (Z.min cnt (write_space rb)) in
  (mk (rb_size rb) (rb_data rb ++ bytes_of s n), n).

(** [read rb cnt]: remove up to [cnt] bytes; returns the bytes read. *)
Definition read (rb : t) (cnt : Z) : t * Z :=
  let n := Z.max 0 (Z.min cnt (read_space rb)) in
  (mk (rb_size rb) (drop (Z.to_nat n) (rb_data rb)), n).

(** [peek rb cnt]: the bytes a read of [cnt] would return; nothing removed. *)
Definition peek (rb : t) (cnt : Z) : Z := Z.max 0 (Z.min cnt (read_space rb)).

End RB.

Definition jack_ringbuffer_t : Type := RB.t.

(** ** Data model *)

(* struct SF_INFO of libsndfile, the members the player reads *)
Record SF_INFO : Type := mkInfo {
  sf_frames : Z;
  sf_samplerate : Z;
  sf_channels : Z;
  sf_format : Z
}.

(* struct AUDIO_PLAYER.  The three last_*buffer* members, the thread id and the
   two port handles are never read by the code embedded here and are left out. *)
Record AUDIO_PLAYER : Type := mkPlayer {
  handle : Z;  (* unsigned int handle *)
  file_open : Z;  (* 0=file closed, 1=file opening, 2=file open *)
  file_read_status : Z;  (* IDLE|SEEKING|LOADING|LOOPING *)
  play_state : Z;  (* STOPPED|STARTING|PLAYING|STOPPING *)
  file_read_pos : Z;  (* current file read position (frames) *)
  loop : Z;  (* 1 to loop at end of song *)
  loop_loaded : Z;  (* 1 if next loop loaded *)
  loop_start : Z;  (* start of loop, native frames *)
  loop_start_src : Z;  (* start of loop after SRC *)
  loop_end : Z;  (* end of loop, native frames *)
  loop_end_src : Z;  (* end of loop after SRC *)
  gain : Q;  (* audio level *)
  track_a : Z;  (* track played to the left output, -1 to mix *)
  track_b : Z;  (* track played to the right output, -1 to mix *)
  input_buffer_size : Z;  (* frames that may be read from file *)
  output_buffer_size : Z;  (* frames that may be SRC *)
  buffer_count : Z;  (* ring buffer size factor *)
  src_quality : Z;  (* SRC quality [0..4] *)
  last_play_state : Z;  (* value at last notification *)
  last_loop : Z;
  last_loop_start : Z;
  last_loop_end : Z;
  last_position : Q;
  last_gain : Q;
  last_track_a : Z;
  last_track_b : Z;
  last_src_quality : Z;
  sf_info : SF_INFO;  (* info of the currently loaded file *)
  ringbuffer_a : option jack_ringbuffer_t;  (* A samples, file reader to jack process *)
  ringbuffer_b : option jack_ringbuffer_t;  (* B samples, file reader to jack process *)
  play_pos_frames : Z;  (* playback position, frames at play samplerate *)
  frames : Z;  (* quantity of frames after samplerate conversion *)
  filename : string;
  last_note_played : Z;  (* MIDI note that last triggered playback *)
  src_ratio : Q;  (* samplerate ratio of file *)
  pitch_shift : Q;  (* factor of pitch shift *)
  pitch_bend : Z;  (* MIDI pitch bend, centre 0x2000 *)
  cb_object : option Z;  (* object hosting the callback *)
  cb_fn : option Z;  (* function receiving notifications *)
  pos_notify_delta : Q  (* position difference that triggers notification *)
}.

(** Field update.  [eta p] rebuilds [p] from its fields; the setter of a field
    is [eta p] with that field's projection abstracted out. *)
Definition eta (p : AUDIO_PLAYER) : AUDIO_PLAYER :=
  mkPlayer
    (handle p) (file_open p) (file_read_status p) (play_state p)
    (file_read_pos p) (loop p) (loop_loaded p) (loop_start p)
    (loop_start_src p) (loop_end p) (loop_end_src p) (gain p) (track_a p)
    (track_b p) (input_buffer_size p) (output_buffer_size p) (buffer_count p)
    (src_quality p) (last_play_state p) (last_loop p) (last_loop_start p)
    (last_loop_end p) (last_position p) (last_gain p) (last_track_a p)
    (last_track_b p) (last_src_quality p) (sf_info p) (ringbuffer_a p)
    (ringbuffer_b p) (play_pos_frames p) (frames p) (filename p)
    (last_note_played p) (src_ratio p) (pitch_shift p) (pitch_bend p)
    (cb_object p) (cb_fn p) (pos_notify_delta p).

Ltac set_field proj p v :=
  let t := eval cbv beta delta [eta] in (eta p) in
  match eval pattern (proj p) in t with
  | ?f _ => let r := eval cbv beta in (f v) in exact r
  end.

Definition with_handle (v : Z) (p : AUDIO_PLAYER) : AUDIO_PLAYER :=
  ltac:(set_field handle p v).
Definition with_file_open (v : Z) (p : AUDIO_PLAYER) : AUDIO_PLAYER :=
  ltac:(set_field file_open p v).
Definition with_file_read_status (v : Z) (p : AUDIO_PLAYER) : AUDIO_PLAYER :=
  ltac:(set_field file_read_status p v).
Definition with_play_state (v : Z) (p : AUDIO_PLAYER) : AUDIO_PLAYER :=
  ltac:(set_field play_state p v).
Definition with_file_read_pos (v : Z) (p : AUDIO_PLAYER) : AUDIO_PLAYER :=
  ltac:(set_field file_read_pos p v).
Definition with_loop (v : Z) (p : AUDIO_PLAYER) : AUDIO_PLAYER :=
  ltac:(set_field loop p v).
Definition with_loop_loaded (v : Z) (p : AUDIO_PLAYER) : AUDIO_PLAYER :=
  ltac:(set_field loop_loaded p v).
Definition with_loop_start (v : Z) (p : AUDIO_PLAYER) : AUDIO_PLAYER :=
  ltac:(set_field loop_start p v).
Definition with_loop_start_src (v : Z) (p : AUDIO_PLAYER) : AUDIO_PLAYER :=
  ltac:(set_field loop_start_src p v).
Definition with_loop_end (v : Z) (p : AUDIO_PLAYER) : AUDIO_PLAYER :=
  ltac:(set_field loop_end p v).
Definition with_loop_end_src (v : Z) (p : AUDIO_PLAYER) : AUDIO_PLAYER :=
  ltac:(set_field loop_end_src p v).
Definition with_gain (v : Q) (p : AUDIO_PLAYER) : AUDIO_PLAYER :=
  ltac:(set_field gain p v).
Definition with_track_a (v : Z) (p : AUDIO_PLAYER) : AUDIO_PLAYER :=
  ltac:(set_field track_a p v).
Definition with_track_b (v : Z) (p : AUDIO_PLAYER) : AUDIO_PLAYER :=
  ltac:(set_field track_b p v).
Definition with_input_buffer_size (v : Z) (p : AUDIO_PLAYER) : AUDIO_PLAYER :=
  ltac:(set_field input_buffer_size p v).
Definition with_output_buffer_size (v : Z) (p : AUDIO_PLAYER) : AUDIO_PLAYER :=
  ltac:(set_field output_buffer_size p v).
Definition with_buffer_count (v : Z) (p : AUDIO_PLAYER) : AUDIO_PLAYER :=
  ltac:(set_field buffer_count p v).
Definition with_src_quality (v : Z) (p : AUDIO_PLAYER) : AUDIO_PLAYER :=
  ltac:(set_field src_quality p v).
Definition with_last_play_state (v : Z) (p : AUDIO_PLAYER) : AUDIO_PLAYER :=
  ltac:(set_field last_play_state p v).
Definition with_last_loop (v : Z) (p : AUDIO_PLAYER) : AUDIO_PLAYER :=
  ltac:(set_field last_loop p v).
Definition with_last_loop_start (v : Z) (p : AUDIO_PLAYER) : AUDIO_PLAYER :=
  ltac:(set_field last_loop_start p v).
Definition with_last_loop_end (v : Z) (p : AUDIO_PLAYER) : AUDIO_PLAYER :=
  ltac:(set_field last_loop_end p v).
Definition with_last_position (v : Q) (p : AUDIO_PLAYER) : AUDIO_PLAYER :=
  ltac:(set_field last_position p v).
Definition with_last_gain (v : Q) (p : AUDIO_PLAYER) : AUDIO_PLAYER :=
  ltac:(set_field last_gain p v).
Definition with_last_track_a (v : Z) (p : AUDIO_PLAYER) : AUDIO_PLAYER :=
  ltac:(set_field last_track_a p v).
Definition with_last_track_b (v : Z) (p : AUDIO_PLAYER) : AUDIO_PLAYER :=
  ltac:(set_field last_track_b p v).
Definition with_last_src_quality (v : Z) (p : AUDIO_PLAYER) : AUDIO_PLAYER :=
  ltac:(set_field last_src_quality p v).
Definition with_sf_info (v : SF_INFO) (p : AUDIO_PLAYER) : AUDIO_PLAYER :=
  ltac:(set_field sf_info p v).
Definition with_ringbuffer_a (v : option jack_ringbuffer_t) (p : AUDIO_PLAYER) : AUDIO_PLAYER :=
  ltac:(set_field ringbuffer_a p v).
Definition with_ringbuffer_b (v : option jack_ringbuffer_t) (p : AUDIO_PLAYER) : AUDIO_PLAYER :=
  ltac:(set_field ringbuffer_b p v).
Definition with_play_pos_frames (v : Z) (p : AUDIO_PLAYER) : AUDIO_PLAYER :=
  ltac:(set_field play_pos_frames p v).
Definition with_frames (v : Z) (p : AUDIO_PLAYER) : AUDIO_PLAYER :=
  ltac:(set_field frames p v).
Definition with_filename (v : string) (p : AUDIO_PLAYER) : AUDIO_PLAYER :=
  ltac:(set_field filename p v).
Definition with_last_note_played (v : Z) (p : AUDIO_PLAYER) : AUDIO_PLAYER :=
  ltac:(set_field last_note_played p v).
Definition with_src_ratio (v : Q) (p : AUDIO_PLAYER) : AUDIO_PLAYER :=
  ltac:(set_field src_ratio p v).
Definition with_pitch_shift (v : Q) (p : AUDIO_PLAYER) : AUDIO_PLAYER :=
  ltac:(set_field pitch_shift p v).
Definition with_pitch_bend (v : Z) (p : AUDIO_PLAYER) : AUDIO_PLAYER :=
  ltac:(set_field pitch_bend p v).
Definition with_cb_object (v : option Z) (p : AUDIO_PLAYER) : AUDIO_PLAYER :=
  ltac:(set_field cb_object p v).
Definition with_cb_fn (v : option Z) (p : AUDIO_PLAYER) : AUDIO_PLAYER :=
  ltac:(set_field cb_fn p v).
Definition with_pos_notify_delta (v : Q) (p : AUDIO_PLAYER) : AUDIO_PLAYER :=
  ltac:(set_field pos_notify_delta p v).

(** One call of a registered callback:
    [cb_fn(cb_object, handle, type, value)]. *)
Record cb_event : Type := mkEvent {
  ev_fn : Z;
  ev_object : option Z;
  ev_handle : Z;
  ev_type : notify;
  ev_value : Q
}.

(** The global variables, and the callbacks invoked so far (latest first). *)
Record state : Type := mkState {
  g_players : list (option AUDIO_PLAYER);
  g_jack_client : bool;  (* the client pointer is non-null *)
  g_samplerate : Z;
  g_debug : Z;
  g_last_debug : Z;
  cb_log : list cb_event
}.

Definition with_players (v : list (option AUDIO_PLAYER)) (st : state) : state :=
  mkState v (g_jack_client st) (g_samplerate st) (g_debug st)
    (g_last_debug st) (cb_log st).
Definition with_g_last_debug (v : Z) (st : state) : state :=
  mkState (g_players st) (g_jack_client st) (g_samplerate st) (g_debug st)
    v (cb_log st).
Definition with_cb_log (v : list cb_event) (st : state) : state :=
  mkState (g_players st) (g_jack_client st) (g_samplerate st) (g_debug st)
    (g_last_debug st) v.

(** [g_players[i]] for an [i] that is not negative. *)
Definition players_read (st : state) (i : Z) : res (option AUDIO_PLAYER) :=
  match g_players st !! Z.to_nat i with
  | Some slot => Ok slot
  | None => UB (OutOfBounds i)
  end.

(** A write through the player pointer held in slot [i]. *)
Definition put_player (st : state) (i : Z) (p : AUDIO_PLAYER) : state :=
  with_players (<[Z.to_nat i := Some p]> (g_players st)) st.

(** The table has [MAX_PLAYERS] entries. *)
Definition table_ok (st : state) : Prop :=
  length (g_players st) = Z.to_nat MAX_PLAYERS.

(** ** Internal functions *)

Definition get_player (st : state) (player_handle : Z)
  : res (option AUDIO_PLAYER) :=
  if (player_handle >? MAX_PLAYERS) || (player_handle <? 0) then Ok None
  else players_read st player_handle.

Definition get_position (st : state) (player_handle : Z) : res Q :=
  do pPlayer <- get_player st player_handle;
  match pPlayer with
  | Some p =>
      if (file_open p =? 2) && negb (g_samplerate st =? 0)
      then Ok (inject_Z (play_pos_frames p) / inject_Z (g_samplerate st))%Q
      else Ok 0%Q
  | None => Ok 0%Q
  end.

Definition get_loop_start_time (st : state) (player_handle : Z) : res Q :=
  do pPlayer <- get_player st player_handle;
  match pPlayer with
  | Some p =>
      if sf_samplerate (sf_info p) =? 0 then Ok 0%Q
      else Ok (inject_Z (loop_start p) / inject_Z (sf_samplerate (sf_info p)))%Q
  | None => Ok 0%Q
  end.

Definition get_loop_end_time (st : state) (player_handle : Z) : res Q :=
  do pPlayer <- get_player st player_handle;
  match pPlayer with
  | Some p =>
      if sf_samplerate (sf_info p) =? 0 then Ok 0%Q
      else Ok (inject_Z (loop_end p) / inject_Z (sf_samplerate (sf_info p)))%Q
  | None => Ok 0%Q
  end.

(** [if(pPlayer->cb_fn) cb_fn(cb_object, handle, type, value)] *)
Definition invoke_cb (p : AUDIO_PLAYER) (type : notify) (value : Q)
    (st : state) : state :=
  match cb_fn p with
  | Some f =>
      with_cb_log (mkEvent f (cb_object p) (handle p) type value :: cb_log st) st
  | None => st
  end.

Definition selected (param type : notify) : bool :=
  notify_eqb param NOTIFY_ALL || notify_eqb param type.

(** Reading the player behind a non-null pointer. *)
Definition deref (st : state) (slot : Z) : res AUDIO_PLAYER :=
  match g_players st !! Z.to_nat slot with
  | Some (Some p) => Ok p
  | _ => UB BadPointer
  end.

(** The pointer that [get_player st h] returned, given the player read. *)
Definition ptr_of (h : Z) (pPlayer : option AUDIO_PLAYER) : option Z :=
  match pPlayer with Some _ => Some h | None => None end.

(** One block of [send_notifications]: when [type] is selected and the value
    [changed], the snapshot is updated ([snap]) and, if a callback is
    registered, it is called with [value]. *)
Definition notify_block (slot : Z) (param type : notify)
    (changed : state -> AUDIO_PLAYER -> res bool)
    (snap : state -> AUDIO_PLAYER -> res AUDIO_PLAYER)
    (value : state -> AUDIO_PLAYER -> res Q)
    (st : state) : res state :=
  if selected param type then
    do p <- deref st slot;
    do c <- changed st p;
    if c then
      do p' <- snap st p;
      let st' := put_player st slot p' in
      match cb_fn p' with
      | Some _ => do v <- value st' p'; Ok (invoke_cb p' type v st')
      | None => Ok st'
      end
    else Ok st
  else Ok st.

Definition Zneqb (x y : Z) : bool := negb (x =? y).

Definition send_notifications (st : state) (pPlayer : option Z) (param : notify)
  : res state :=
  match pPlayer with
  | None => Ok st
  | Some slot =>
    do p0 <- deref st slot;
    if Zneqb (file_open p0) 2 then Ok st else
    do st <- notify_block slot param NOTIFY_TRANSPORT
        (fun _ p => Ok (Zneqb (last_play_state p) (play_state p)))
        (fun _ p => Ok (with_last_play_state (play_state p) p))
        (fun _ p => Ok (inject_Z (play_state p))) st;
    do st <- notify_block slot param NOTIFY_POSITION
        (fun st p => do pos <- get_position st (handle p);
                     Ok (Qgeb (Qabs (pos - last_position p)) (pos_notify_delta p)))
        (fun st p => do pos <- get_position st (handle p);
                     Ok (with_last_position pos p))
        (fun _ p => Ok (last_position p)) st;
    do st <- notify_block slot param NOTIFY_GAIN
        (fun _ p => Ok (Qgeb (Qabs (gain p - last_gain p)) (1 # 100)))
        (fun _ p => Ok (with_last_gain (gain p) p))
        (fun _ p => Ok (gain p)) st;
    do st <- notify_block slot param NOTIFY_LOOP
        (fun _ p => Ok (Zneqb (loop p) (last_loop p)))
        (fun _ p => Ok (with_last_loop (loop p) p))
        (fun _ p => Ok (inject_Z (loop p))) st;
    do st <- notify_block slot param NOTIFY_LOOP_START
        (fun _ p => Ok (Zneqb (loop_start p) (last_loop_start p)))
        (fun _ p => Ok (with_last_loop_start (loop_start p) p))
        (fun st p => get_loop_start_time st (handle p)) st;
    do st <- notify_block slot param NOTIFY_LOOP_END
        (fun _ p => Ok (Zneqb (loop_end p) (last_loop_end p)))
        (fun _ p => Ok (with_last_loop_end (loop_end p) p))
        (fun st p => get_loop_end_time st (handle p)) st;
    do st <- notify_block slot param NOTIFY_TRACK_A
        (fun _ p => Ok (Zneqb (track_a p) (last_track_a p)))
        (fun _ p => Ok (with_last_track_a (track_a p) p))
        (fun _ p => Ok (inject_Z (track_a p))) st;
    do st <- notify_block slot param NOTIFY_TRACK_B
        (fun _ p => Ok (Zneqb (track_b p) (last_track_b p)))
        (fun _ p => Ok (with_last_track_b (track_b p) p))
        (fun _ p => Ok (inject_Z (track_b p))) st;
    do st <- notify_block slot param NOTIFY_QUALITY
        (fun _ p => Ok (Zneqb (src_quality p) (last_src_quality p)))
        (fun _ p => Ok (with_last_src_quality (src_quality p) p))
        (fun _ p => Ok (inject_Z (src_quality p))) st;
    if selected param NOTIFY_DEBUG && Zneqb (g_debug st) (g_last_debug st) then
      do p <- deref st slot;
      let st' := with_g_last_debug (g_debug st) st in
      Ok (invoke_cb p NOTIFY_DEBUG (inject_Z (g_debug st')) st')
    else Ok st
  end.

(** [jack_ringbuffer_reset] through a pointer held by the player. *)
Definition ringbuffer_reset (rb : option jack_ringbuffer_t)
  : res (option jack_ringbuffer_t) :=
  match rb with
  | Some r => Ok (Some (RB.reset r))
  | None => UB DeadRingbuffer
  end.

(** ** Transport, position and loop *)

Definition stop_playback (st : state) (player_handle : Z) : res state :=
  do pPlayer <- get_player st player_handle;
  let st1 :=
    match pPlayer with
    | Some p =>
        if Zneqb (play_state p) STOPPED
        then put_player st player_handle (with_play_state STOPPING p)
        else st
    | None => st
    end in
  send_notifications st1 (ptr_of player_handle pPlayer) NOTIFY_TRANSPORT.

Definition start_playback (st : state) (player_handle : Z) : res state :=
  do pPlayer <- get_player st player_handle;
  let st1 :=
    match pPlayer with
    | Some p =>
        if g_jack_client st && (file_open p =? 2) && Zneqb (play_state p) PLAYING
        then put_player st player_handle (with_play_state STARTING p)
        else st
    | None => st
    end in
  send_notifications st1 (ptr_of player_handle pPlayer) NOTIFY_TRANSPORT.

Definition get_playback_state (st : state) (player_handle : Z) : res Z :=
  do pPlayer <- get_player st player_handle;
  match pPlayer with
  | Some p => if Zneqb (file_open p) 2 then Ok STOPPED else Ok (play_state p)
  | None => Ok STOPPED
  end.

Definition set_position (st : state) (player_handle : Z) (time : Q) : res state :=
  do pPlayer <- get_player st player_handle;
  match pPlayer with
  | None => Ok st
  | Some p =>
    if Zneqb (file_open p) 2 then Ok st else
    let frames0 := Qtrunc (time * inject_Z (g_samplerate st)) in
    let frames1 :=
      if Zneqb (loop p) 0 then
        let f := if frames0 >? loop_end_src p then loop_end_src p else frames0 in
        if f <? loop_start_src p then loop_start_src p else f
      else
        (* sf_count_t against size_t: compared as unsigned 64-bit values *)
        if frames0 mod 2 ^ 64 >=? frames p then frames p - 1 else frames0 in
    let p1 := with_file_read_status SEEKING
                (with_play_pos_frames (u32 frames1) p) in
    do rb <- ringbuffer_reset (ringbuffer_b p1);
    do ra <- ringbuffer_reset (ringbuffer_a p1);
    let p2 := with_ringbuffer_a ra (with_ringbuffer_b rb p1) in
    send_notifications (put_player st player_handle p2) (Some player_handle)
      NOTIFY_POSITION
  end.

Definition enable_loop (st : state) (player_handle : Z) (bLoop : Z) : res state :=
  do pPlayer <- get_player st player_handle;
  match pPlayer with
  | None => Ok st
  | Some p =>
    let st1 := put_player st player_handle (with_loop bLoop p) in
    do st4 <-
      (if Zneqb bLoop 0 then
         do st3 <-
           (if Zneqb (g_samplerate st1) 0 then
              do p1 <- deref st1 player_handle;
              do st2 <-
                (if play_pos_frames p1 <? loop_start_src p1
                 then set_position st1 player_handle
                        (inject_Z (Z.quot (loop_start_src p1) (g_samplerate st1)))
                 else Ok st1);
              do p2 <- deref st2 player_handle;
              if play_pos_frames p2 >? loop_end_src p2
              then set_position st2 player_handle
                     (inject_Z (Z.quot (loop_end_src p2) (g_samplerate st2)))
              else Ok st2
            else Ok st1);
         do p3 <- deref st3 player_handle;
         if file_read_status p3 =? IDLE
         then Ok (put_player st3 player_handle (with_file_read_status LOOPING p3))
         else Ok st3
       else Ok st1);
    send_notifications st4 (Some player_handle) NOTIFY_LOOP
  end.

(** [jack_nframes_t frames = pPlayer->sf_info.samplerate * time]: the product
    is converted to an unsigned 32-bit value (a product outside that range is
    reduced modulo 2^32 here). *)
Definition time_to_frames (p : AUDIO_PLAYER) (time : Q) : Z :=
  u32 (Qtrunc (inject_Z (sf_samplerate (sf_info p)) * time)).

Definition set_loop_start_time (st : state) (player_handle : Z) (time : Q)
  : res state :=
  do pPlayer <- get_player st player_handle;
  match pPlayer with
  | None => Ok st
  | Some p =>
    let nframes := time_to_frames p time in
    if nframes >=? loop_end p then Ok st else
    let p1 := with_loop_start nframes p in
    let p2 := with_loop_start_src
                (Qtrunc (inject_Z (loop_start p1) * src_ratio p1)) p1 in
    let st1 := put_player st player_handle p2 in
    if play_pos_frames p2 <? loop_start_src p2 then
      do t <- get_position st1 player_handle;
      set_position st1 player_handle t
    else Ok st1
  end.

Definition set_loop_end_time (st : state) (player_handle : Z) (time : Q)
  : res state :=
  do pPlayer <- get_player st player_handle;
  match pPlayer with
  | None => Ok st
  | Some p =>
    let nframes := time_to_frames p time in
    if (nframes <=? loop_start p) || (nframes >=? frames p)
    then Ok st else
    let p1 := with_loop_end nframes p in
    let p2 := with_loop_end_src
                (Qtrunc (inject_Z (loop_end p1) * src_ratio p1)) p1 in
    let st1 := put_player st player_handle p2 in
    if play_pos_frames p2 >? loop_end_src p2 then
      do t <- get_position st1 player_handle;
      set_position st1 player_handle t
    else Ok st1
  end.

Definition is_loop (st : state) (player_handle : Z) : res Z :=
  do pPlayer <- get_player st player_handle;
  match pPlayer with
  | Some p => if Zneqb (file_open p) 2 then Ok 0 else Ok (loop p)
  | None => Ok 0
  end.

(** ** Mixing *)

Definition set_gain (st : state) (player_handle : Z) (g : Q) : res state :=
  do pPlayer <- get_player st player_handle;
  match pPlayer with
  | None => Ok st
  | Some p =>
    if Zneqb (file_open p) 2 then Ok st else
    if Qltb g 0 || Qltb 2 g then Ok st else
    send_notifications (put_player st player_handle (with_gain g p))
      (Some player_handle) NOTIFY_GAIN
  end.

Definition get_gain (st : state) (player_handle : Z) : res Q :=
  do pPlayer <- get_player st player_handle;
  match pPlayer with
  | Some p => if Zneqb (file_open p) 2 then Ok 0%Q else Ok (gain p)
  | None => Ok 0%Q
  end.

Definition set_track_a (st : state) (player_handle : Z) (track : Z) : res state :=
  do pPlayer <- get_player st player_handle;
  match pPlayer with
  | None => Ok st
  | Some p =>
    if Zneqb (file_open p) 2 then Ok st else
    let p1 :=
      if (file_open p =? 2) && (track <? sf_channels (sf_info p)) then
        if sf_channels (sf_info p) =? 1 then with_track_a 0 p
        else with_track_a track p
      else p in
    let st1 := put_player st player_handle p1 in
    do t <- get_position st1 player_handle;
    do st2 <- set_position st1 player_handle t;
    send_notifications st2 (Some player_handle) NOTIFY_TRACK_A
  end.

Definition set_track_b (st : state) (player_handle : Z) (track : Z) : res state :=
  do pPlayer <- get_player st player_handle;
  match pPlayer with
  | None => Ok st
  | Some p =>
    if Zneqb (file_open p) 2 then Ok st else
    let p1 :=
      if (file_open p =? 2) && (track <? sf_channels (sf_info p)) then
        if sf_channels (sf_info p) =? 1 then with_track_b 0 p
        else with_track_b track p
      else p in
    let st1 := put_player st player_handle p1 in
    do t <- get_position st1 player_handle;
    do st2 <- set_position st1 player_handle t;
    send_notifications st2 (Some player_handle) NOTIFY_TRACK_B
  end.

Definition get_track_a (st : state) (player_handle : Z) : res Z :=
  do pPlayer <- get_player st player_handle;
  match pPlayer with
  | Some p => if Zneqb (file_open p) 2 then Ok 0 else Ok (track_a p)
  | None => Ok 0
  end.

Definition get_track_b (st : state) (player_handle : Z) : res Z :=
  do pPlayer <- get_player st player_handle;
  match pPlayer with
  | Some p => if Zneqb (file_open p) 2 then Ok 0 else Ok (track_b p)
  | None => Ok 0
  end.

(** ** Buffering *)

Definition set_buffer_size (st : state) (player_handle : Z) (size : Z) : res state :=
  do pPlayer <- get_player st player_handle;
  match pPlayer with
  | Some p =>
      if file_open p =? 0
      then Ok (put_player st player_handle (with_input_buffer_size size p))
      else Ok st
  | None => Ok st
  end.

Definition get_buffer_size (st : state) (player_handle : Z) : res Z :=
  do pPlayer <- get_player st player_handle;
  match pPlayer with
  | Some p => Ok (input_buffer_size p)
  | None => Ok 0
  end.

Definition set_buffer_count (st : state) (player_handle : Z) (count : Z) : res state :=
  do pPlayer <- get_player st player_handle;
  match pPlayer with
  | Some p =>
      if (file_open p =? 0) && (count >? 1)
      then Ok (put_player st player_handle (with_buffer_count count p))
      else Ok st
  | None => Ok st
  end.

Definition get_buffer_count (st : state) (player_handle : Z) : res Z :=
  do pPlayer <- get_player st player_handle;
  match pPlayer with
  | Some p => Ok (buffer_count p)
  | None => Ok 0
  end.

(** ** The file thread: opening and leaving

    What the world outside the library answers while a file is loaded. *)
Record open_env : Type := mkEnv {
  thread_created : bool;    (* pthread_create succeeded *)
  opened : option SF_INFO;  (* sf_open: the file's info, or None for NULL *)
  src_created : bool;       (* src_new returned a converter *)
  closed_ok : bool          (* sf_close returned 0 *)
}.

(** [pFile] is not NULL. *)
Definition file_opened (env : open_env) : bool :=
  match opened env with
  | Some _ => true
  | None => false
  end.

(** [file_thread_fn] from its entry to the block that initialises an opened
    file: the call of [sf_open] and the two tests of its result. *)
Definition thread_sf_open (env : open_env) (p : AUDIO_PLAYER) : AUDIO_PLAYER :=
  let info0 := mkInfo (sf_frames (sf_info p)) (sf_samplerate (sf_info p))
                 (sf_channels (sf_info p)) 0 in
  let p := with_ringbuffer_b None (with_ringbuffer_a None (with_sf_info info0 p)) in
  let p := match opened env with
           | Some info => with_sf_info info p
           | None => p
           end in
  let p := if negb (file_opened env) || (sf_channels (sf_info p) <? 1)
           then with_file_open 0 p else p in
  if sf_channels (sf_info p) <? 0 then with_file_open 0 p else p.

(** The block [if(pPlayer->file_open) { ... }] up to the test of its main
    loop; [samplerate] is [g_samplerate]. *)
Definition thread_init (env : open_env) (samplerate : Z) (p : AUDIO_PLAYER)
  : AUDIO_PLAYER :=
  let p := with_cb_fn None p in
  let p := with_cb_object None p in
  let p := with_last_play_state (u8 (-1)) p in
  let p := with_last_position (-1)%Q p in
  let p := with_play_pos_frames 0 p in
  let p := with_loop_start 0 p in
  let p := with_last_loop_start (-1) p in
  let p := with_loop_end (sf_frames (sf_info p)) p in
  let p := with_last_loop_end (-1) p in
  let p := with_loop_loaded 0 p in
  let p := with_file_read_pos 0 p in
  let p := with_pos_notify_delta (1 # 10) p in
  let p := with_file_read_status SEEKING p in
  let p := with_src_ratio
             (inject_Z samplerate / inject_Z (sf_samplerate (sf_info p)))%Q p in
  let p := if Qltb (src_ratio p) (1 # 10) then with_src_ratio 1%Q p else p in
  let p := with_output_buffer_size
             (u32 (Qtrunc (src_ratio p * inject_Z (input_buffer_size p)))) p in
  let size := u32 (output_buffer_size p * buffer_count p) * 4 in
  let p := with_ringbuffer_a (Some (RB.create size)) p in
  let p := with_ringbuffer_b (Some (RB.create size)) p in
  let p := with_file_open 2 p in
  let p := with_pitch_shift 1%Q p in
  let p := with_pitch_bend 8192 p in
  let p := with_frames (Qtrunc (inject_Z (sf_frames (sf_info p)) * src_ratio p)) p in
  let p := with_loop_end_src (Qtrunc (inject_Z (loop_end p) * src_ratio p)) p in
  let p := with_loop_start_src (Qtrunc (inject_Z (loop_start p) * src_ratio p)) p in
  if src_created env then p else with_file_open 0 p.

(** [file_thread_fn] from its entry to the test of its main loop. *)
Definition file_thread_open (env : open_env) (st : state) (slot : Z) : res state :=
  do p <- deref st slot;
  let p := thread_sf_open env p in
  let p := if Zneqb (file_open p) 0 then thread_init env (g_samplerate st) p
           else p in
  Ok (put_player st slot p).

(** [file_thread_fn] after its main loop; [pFile] tells whether the file had
    been opened. *)
Definition file_thread_exit (pFile closed : bool) (st : state) (slot : Z)
  : res state :=
  do p <- deref st slot;
  let p := with_play_state STOPPED p in
  let p := if pFile && closed then with_filename EmptyString p else p in
  let p := with_play_pos_frames 0 p in
  let p := with_cb_fn None p in
  let p := with_cb_object None p in
  let p := with_ringbuffer_a None p in
  let p := with_ringbuffer_b None p in
  Ok (put_player st slot p).

(** ** Loading and unloading

    The threads are sequentialised: [pthread_join] in [unload] stands for the
    file thread running from its loop test to its end, and the wait loop of
    [load] stands for the file thread running until it has left
    [file_open = 1] (and to its end when the file did not open). *)

Definition unload (st : state) (player_handle : Z) : res state :=
  do pPlayer <- get_player st player_handle;
  match pPlayer with
  | None => Ok st
  | Some p =>
    if file_open p =? 0 then Ok st else
    do st1 <- stop_playback st player_handle;
    do p1 <- deref st1 player_handle;
    let running := file_open p1 =? 2 in
    let st2 := put_player st1 player_handle
                 (with_cb_fn None (with_file_open 0 p1)) in
    (* pthread_join; the result of sf_close does not matter, the name is
       cleared below in any case *)
    do st3 <- (if running then file_thread_exit true true st2 player_handle
               else Ok st2);
    do p3 <- deref st3 player_handle;
    Ok (put_player st3 player_handle (with_filename EmptyString p3))
  end.

(** [load] up to and including [pPlayer->file_open = 1], that is, the state
    the file thread is created in. *)
Definition load_prepare (st : state) (player_handle : Z) (name : string)
  : res state :=
  do st1 <- unload st player_handle;
  do p <- deref st1 player_handle;
  let p := with_cb_object None p in
  let p := with_track_a 0 p in
  let p := with_track_b 0 p in
  let p := with_filename name p in   (* strcpy; the 128 byte bound is not modelled *)
  let p := with_file_open 1 p in
  Ok (put_player st1 player_handle p).

Definition load (env : open_env) (st : state) (player_handle : Z)
    (name : string) (cb_object' : option Z) (cb_fn' : option Z)
  : res (state * Z) :=
  do pPlayer <- get_player st player_handle;
  match pPlayer with
  | None => Ok (st, 0)
  | Some _ =>
    do st1 <- load_prepare st player_handle name;
    if negb (thread_created env) then
      do st2 <- unload st1 player_handle;
      Ok (st2, 0)
    else
      do st2 <- file_thread_open env st1 player_handle;
      do p2 <- deref st2 player_handle;
      do st3 <-
        (if file_open p2 =? 2 then Ok st2
         else file_thread_exit (file_opened env)
                (closed_ok env) st2 player_handle);
      do p3 <- deref st3 player_handle;
      let p4 := if Zneqb (file_open p3) 0
                then with_cb_fn cb_fn' (with_cb_object cb_object' p3)
                else p3 in
      Ok (put_player st3 player_handle p4, if file_open p4 =? 2 then 1 else 0)
  end.

(** ** The registry *)

(** [lib_init]: every slot is NULL. *)
Definition lib_init (client : bool) (samplerate : Z) : state :=
  mkState (replicate (Z.to_nat MAX_PLAYERS) None) client samplerate 0 0 [].

(** [add_player]; [fresh] is the content of the memory [malloc] returned (no
    ring buffer pointer in it is live), [allocated] and [ports] tell whether
    [malloc] and the two port registrations succeeded. *)
Definition add_player (fresh : AUDIO_PLAYER) (allocated ports : bool)
    (st : state) (player_handle : Z) : res (state * Z) :=
  if (player_handle >=? 0) && (player_handle <? MAX_PLAYERS) then
    do slot <- players_read st player_handle;
    match slot with
    | Some _ => Ok (st, 0)
    | None =>
      if negb allocated then Ok (st, 0) else
      let p := with_ringbuffer_b None (with_ringbuffer_a None fresh) in
      let p := with_file_open 0 p in
      let p := with_file_read_status IDLE p in
      let p := with_play_state STOPPED p in
      let p := with_loop 0 p in
      let p := with_play_pos_frames 0 p in
      let p := with_src_quality SRC_SINC_FASTEST p in
      let p := with_filename EmptyString p in
      let p := with_gain 1%Q p in
      let p := with_track_a 0 p in
      let p := with_last_track_a 0 p in
      let p := with_last_track_b 0 p in
      let p := with_track_b 0 p in
      let p := with_handle player_handle p in
      let p := with_input_buffer_size 48000 p in
      let p := with_buffer_count 5 p in
      let p := with_frames 0 p in
      let p := with_loop_start 0 p in
      let p := with_loop_start_src (loop_start p) p in
      let p := with_loop_end (input_buffer_size p) p in
      let p := with_loop_end_src (Qtrunc (inject_Z (loop_end p) * src_ratio p)) p in
      let p := with_loop_start_src (Qtrunc (inject_Z (loop_start p) * src_ratio p)) p in
      let p := with_loop_end_src (loop_end p) p in
      let p := with_last_note_played 0 p in
      if negb ports then Ok (st, 0)
      else Ok (put_player st player_handle p, 1)
    end
  else Ok (st, 0).

Definition remove_player (st : state) (player_handle : Z) : res state :=
  do pPlayer <- get_player st player_handle;
  match pPlayer with
  | None => Ok st
  | Some _ =>
    do st1 <- unload st player_handle;
    Ok (with_players (<[Z.to_nat player_handle := None]> (g_players st1)) st1)
  end.

(** ** The file thread: waiting for space and demultiplexing *)

Definition live (rb : option jack_ringbuffer_t) : res jack_ringbuffer_t :=
  match rb with
  | Some r => Ok r
  | None => UB DeadRingbuffer
  end.

(** The condition of the wait loop: the thread keeps polling while it holds. *)
Definition wait_cond (p : AUDIO_PLAYER) (nFramesRead : Z) : res bool :=
  do ra <- live (ringbuffer_a p);
  do rb <- live (ringbuffer_b p);
  Ok ((RB.write_space ra <? nFramesRead * 4)
      && (RB.write_space rb <? nFramesRead * 4)
      || (file_read_status p =? IDLE)).

Inductive gate : Type :=
| Proceed   (* the loop is left: the block is demultiplexed and written *)
| Poll.     (* the loop goes round again *)

(** One evaluation of the wait loop's condition and, when it holds, one
    execution of its body. *)
Definition wait_step (st : state) (slot : Z) (nFramesRead : Z)
  : res (state * gate) :=
  do p <- deref st slot;
  do c <- wait_cond p nFramesRead;
  if c then
    do st1 <- send_notifications st (Some slot) NOTIFY_ALL;
    do p1 <- deref st1 slot;
    if file_open p1 =? 0 then Ok (st1, Proceed) else Ok (st1, Poll)
  else Ok (st, Proceed).

(** [pBufferOut[i]] *)
Definition buf_read (pBufferOut : list Q) (i : Z) : res Q :=
  if i <? 0 then UB (OutOfBounds i) else
  match pBufferOut !! Z.to_nat i with
  | Some x => Ok x
  | None => UB (OutOfBounds i)
  end.

(** The two mixing loops, [off] being 0 for leg A and 1 for leg B:
    [for(track = 0; track + off < channels; track += 2)
       f += pBufferOut[sample + track + off] / (channels / 2);]
    Fuel [channels] is more than the loop can use. *)
Fixpoint mix_tracks (fuel : nat) (pBufferOut : list Q)
    (sample channels off track : Z) (f : Q) : res Q :=
  match fuel with
  | O => Ok f
  | S k =>
    if track + off <? channels then
      do x <- buf_read pBufferOut (sample + track + off);
      mix_tracks k pBufferOut sample channels off (track + 2)
        (f + x / inject_Z (Z.quot channels 2))%Q
    else Ok f
  end.

(** The body of the demultiplexing loop up to the two samples [fA], [fB]. *)
Definition demux_frame (p : AUDIO_PLAYER) (pBufferOut : list Q) (frame : Z)
  : res (Q * Q) :=
  let channels := sf_channels (sf_info p) in
  let sample := frame * channels in
  if channels >? 1 then
    do fA <-
      (if track_a p <? 0
       then mix_tracks (Z.to_nat channels) pBufferOut sample channels 0 0 0%Q
       else buf_read pBufferOut (sample + track_a p));
    do fB <-
      (if track_b p <? 0
       then mix_tracks (Z.to_nat channels) pBufferOut sample channels 1 0 0%Q
       else buf_read pBufferOut (sample + track_b p));
    Ok (fA, fB)
  else
    do x <- buf_read pBufferOut sample;
    Ok (x / 2, x / 2)%Q.

(** The demultiplexing loop over [k] frames from [frame] on.  The boolean tells
    whether the loop was left through the branch that reports an underrun. *)
Fixpoint demux_loop (k : nat) (frame : Z) (pBufferOut : list Q)
    (p : AUDIO_PLAYER) : res (AUDIO_PLAYER * bool) :=
  match k with
  | O => Ok (p, false)
  | S k' =>
    do ab <- demux_frame p pBufferOut frame;
    do rb <- live (ringbuffer_b p);
    let wb := RB.write rb (snd ab) 4 in
    let nWrote := snd wb in
    do ra <- live (ringbuffer_a p);
    let wa := RB.write ra (fst ab) nWrote in
    let p' := with_ringbuffer_a (Some (fst wa))
                (with_ringbuffer_b (Some (fst wb)) p) in
    if 4 <? snd wa then Ok (p', true)
    else demux_loop k' (frame + 1) pBufferOut p'
  end.

Definition demux_block (p : AUDIO_PLAYER) (pBufferOut : list Q)
    (nFramesRead : Z) : res (AUDIO_PLAYER * bool) :=
  demux_loop (Z.to_nat nFramesRead) 0 pBufferOut p.

(** ** The JACK process callback

    The port buffers are written and never read back, so only the quantities
    of samples moved are kept: [r_count] removed from the queue, [a_count]
    added to the port buffer. *)

(** The inner loop of pitch-shifted playback.  Each round that does not leave
    the loop has taken four bytes from ring buffer A and found more, so the
    fuel [S (read_space a / 4)] cannot run out. *)
Fixpoint drain_inner (fuel : nat) (pitch : Q) (a_count : Z) (f_count : Q)
    (r_count : Z) (ra rb : jack_ringbuffer_t) : Q * Z * jack_ringbuffer_t * jack_ringbuffer_t :=
  match fuel with
  | O => (f_count, r_count, ra, rb)
  | S k =>
    if Qltb f_count (inject_Z a_count) then
      let f_count := (f_count + pitch)%Q in
      let ra := fst (RB.read ra 4) in
      let rb := fst (RB.read rb 4) in
      let r_count := r_count + 1 in
      if (RB.read_space ra =? 0) || (RB.read_space ra =? 0)
      then (f_count, r_count, ra, rb)
      else drain_inner k pitch a_count f_count r_count ra rb
    else (f_count, r_count, ra, rb)
  end.

(** The outer loop, [while(a_count < nFrames)]; it runs at most [nFrames]
    times. *)
Fixpoint drain_outer (fuel : nat) (nFrames : Z) (pitch : Q) (a_count : Z)
    (f_count : Q) (r_count : Z) (ra rb : jack_ringbuffer_t)
  : Z * Z * jack_ringbuffer_t * jack_ringbuffer_t :=
  match fuel with
  | O => (r_count, a_count, ra, rb)
  | S k =>
    if a_count <? nFrames then
      if (RB.peek ra 4 <? 4) || (RB.peek rb 4 <? 4)
      then (r_count, a_count, ra, rb)
      else
        let '(f_count, r_count, ra, rb) :=
          drain_inner (S (Z.to_nat (RB.read_space ra / 4))) pitch a_count
            f_count r_count ra rb in
        drain_outer k nFrames pitch (a_count + 1) f_count r_count ra rb
    else (r_count, a_count, ra, rb)
  end.

(** Moving samples from the ring buffers to the port buffers: sample by
    sample when pitch shifted, in one read otherwise.  The result is
    [(r_count, a_count)] and the two ring buffers. *)
Definition drain_ring (nFrames : Z) (pitch : Q) (ra rb : jack_ringbuffer_t)
  : Z * Z * jack_ringbuffer_t * jack_ringbuffer_t :=
  if negb (Qeq_bool pitch 1) then
    drain_outer (Z.to_nat nFrames) nFrames pitch 0 0%Q 0 ra rb
  else
    let a := RB.read ra (nFrames * 4) in
    let b := RB.read rb (snd a) in
    (Z.quot (snd a) 4, Z.quot (snd a) 4, fst a, fst b).

(** What follows [play_pos_frames += r_count]: at the loop end, or at the end
    of the queued data ([eof]), the position is wrapped and the loop is
    requested again when looping, and playback stops otherwise. *)
Definition wrap_or_stop (p : AUDIO_PLAYER) (eof : bool) : res AUDIO_PLAYER :=
  if Zneqb (loop p) 0 then
    if (play_pos_frames p >=? loop_end_src p) || eof then
      if loop_end_src p =? 0 then UB DivByZero else
      let p := with_play_pos_frames
                 (u32 (Z.rem (play_pos_frames p) (loop_end_src p))) p in
      let p := with_play_pos_frames
                 (u32 (play_pos_frames p + loop_start_src p)) p in
      let p := with_loop_loaded 0 p in
      Ok (with_file_read_status LOOPING p)
    else Ok p
  else
    if (play_pos_frames p >=? frames p) || eof then
      let p := with_play_pos_frames 0 p in
      let p := with_play_state STOPPING p in
      Ok (with_file_read_status SEEKING p)
    else Ok p.

(** The body of the loop over the players, for a player with an open file. *)
Definition process_player (nFrames : Z) (p : AUDIO_PLAYER) : res AUDIO_PLAYER :=
  let p := if (play_state p =? STARTING) && Zneqb (file_read_status p) SEEKING
           then with_play_state PLAYING p else p in
  do p <-
    (if (play_state p =? PLAYING) || (play_state p =? STOPPING) then
       do ra <- live (ringbuffer_a p);
       do rb <- live (ringbuffer_b p);
       let '(r_count, a_count, ra, rb) :=
         drain_ring nFrames (pitch_shift p) ra rb in
       let p := with_ringbuffer_b (Some rb) (with_ringbuffer_a (Some ra) p) in
       let p := with_play_pos_frames (u32 (play_pos_frames p + r_count)) p in
       let eof := (file_read_status p =? IDLE) && (RB.read_space ra =? 0) in
       wrap_or_stop p eof
     else Ok p);
  if play_state p =? STOPPING then Ok (with_play_state STOPPED p) else Ok p.

(** A MIDI event: its three bytes. *)
Record midi_event : Type := mkMidi { b0 : Z; b1 : Z; b2 : Z }.

(** [pow(1.059463094359, 60 - note)] *)
Definition semitone : Q := 1059463094359 # 1000000000000.
Definition note_ratio (note : Z) : Q := Qpower semitone (60 - note).

(** The body of the loop over the MIDI events (the controller branch is
    compiled only with ENABLE_MIDI, which the build does not define). *)
Definition midi_process (st : state) (ev : midi_event) : res state :=
  let chan := Z.land (b0 ev) 15 in
  do slot <- players_read st chan;
  match slot with
  | None => Ok st
  | Some p =>
    let cmd := Z.land (b0 ev) 240 in
    if ((cmd =? 128) || ((cmd =? 144) && (b2 ev =? 0)))
       && (last_note_played p =? b1 ev) then
      (* Note off *)
      do st1 <- stop_playback st (handle p);
      do p1 <- deref st1 chan;
      let p1 := with_pitch_shift 1%Q p1 in
      Ok (put_player st1 chan (with_last_note_played 0 p1))
    else if cmd =? 144 then
      (* Note on *)
      let p := with_pitch_shift (note_ratio (b1 ev)) p in
      let p := with_play_pos_frames (u32 (loop_start_src p)) p in
      let p := with_file_read_status SEEKING p in
      do ra <- ringbuffer_reset (ringbuffer_a p);
      do rb <- ringbuffer_reset (ringbuffer_b p);
      let p := with_ringbuffer_b rb (with_ringbuffer_a ra p) in
      let p := with_last_note_played (b1 ev) p in
      Ok (put_player st chan (with_play_state STARTING p))
    else if cmd =? 224 then
      (* Pitchbend *)
      Ok (put_player st chan (with_pitch_bend (b1 ev + 128 * b2 ev) p))
    else Ok st
  end.

Fixpoint res_fold {A B : Type} (f : A -> B -> res A) (a : A) (l : list B)
  : res A :=
  match l with
  | [] => Ok a
  | b :: l' => do a' <- f a b; res_fold f a' l'
  end.

(** The body of [for(int i = 0; i < MAX_PLAYERS; ++i)]. *)
Definition process_slot (nFrames : Z) (st : state) (i : Z) : res state :=
  do slot <- players_read st i;
  match slot with
  | None => Ok st
  | Some p =>
    if Zneqb (file_open p) 2 then Ok st
    else do p' <- process_player nFrames p; Ok (put_player st i p')
  end.

Definition on_jack_process (st : state) (nFrames : Z) (events : list midi_event)
  : res state :=
  do st1 <- res_fold (process_slot nFrames) st
              (map Z.of_nat (seq 0 (Z.to_nat MAX_PLAYERS)));
  res_fold midi_process st1 events.

(** ** Globals written after initialisation *)

Definition with_g_jack_client (v : bool) (st : state) : state :=
  mkState (g_players st) v (g_samplerate st) (g_debug st)
    (g_last_debug st) (cb_log st).
Definition with_g_samplerate (v : Z) (st : state) : state :=
  mkState (g_players st) (g_jack_client st) v (g_debug st)
    (g_last_debug st) (cb_log st).
Definition with_g_debug (v : Z) (st : state) : state :=
  mkState (g_players st) (g_jack_client st) (g_samplerate st) v
    (g_last_debug st) (cb_log st).

(** Conversion of an integer value to [int] (32 bits, two's complement). *)
Definition to_int (x : Z) : Z := (x + 2 ^ 31) mod 2 ^ 32 - 2 ^ 31.

(** [on_jack_samplerate]: a rate of zero is not taken over. *)
Definition on_jack_samplerate (st : state) (nFrames : Z) : state :=
  if Zneqb nFrames 0 then with_g_samplerate nFrames st else st.

(** [g_debug] is a [uint8_t], [enable] an [int]. *)
Definition enable_debug (st : state) (enable : Z) : state :=
  with_g_debug (u8 enable) st.

Definition is_debug (st : state) : Z := g_debug st.

(** ** Information on the loaded file *)

Definition save (st : state) (player_handle : Z) (name : string) : res Z :=
  do pPlayer <- get_player st player_handle;
  match pPlayer with
  | Some p => if Zneqb (file_open p) 2 then Ok 0 else Ok 0
  | None => Ok 0
  end.

Definition get_filename (st : state) (player_handle : Z) : res string :=
  do pPlayer <- get_player st player_handle;
  match pPlayer with
  | Some p => if Zneqb (file_open p) 2 then Ok EmptyString else Ok (filename p)
  | None => Ok EmptyString
  end.

Definition get_duration (st : state) (player_handle : Z) : res Q :=
  do pPlayer <- get_player st player_handle;
  match pPlayer with
  | Some p =>
      if (file_open p =? 2) && Zneqb (sf_samplerate (sf_info p)) 0
      then Ok (inject_Z (sf_frames (sf_info p))
               / inject_Z (sf_samplerate (sf_info p)))%Q
      else Ok 0%Q
  | None => Ok 0%Q
  end.

(** [g_samplerate] is a [jack_nframes_t] and is returned as an [int]. *)
Definition get_samplerate (st : state) (player_handle : Z) : res Z :=
  do pPlayer <- get_player st player_handle;
  match pPlayer with
  | Some p =>
      if Zneqb (file_open p) 2 then Ok (to_int (g_samplerate st))
      else Ok (sf_samplerate (sf_info p))
  | None => Ok (to_int (g_samplerate st))
  end.

Definition get_channels (st : state) (player_handle : Z) : res Z :=
  do pPlayer <- get_player st player_handle;
  match pPlayer with
  | Some p => if Zneqb (file_open p) 2 then Ok 0 else Ok (sf_channels (sf_info p))
  | None => Ok 0
  end.

(** [sf_info.frames] is a [sf_count_t] (64 bits) and is returned as an [int]. *)
Definition get_frames (st : state) (player_handle : Z) : res Z :=
  do pPlayer <- get_player st player_handle;
  match pPlayer with
  | Some p =>
      if Zneqb (file_open p) 2 then Ok 0 else Ok (to_int (sf_frames (sf_info p)))
  | None => Ok 0
  end.

Definition get_format (st : state) (player_handle : Z) : res Z :=
  do pPlayer <- get_player st player_handle;
  match pPlayer with
  | Some p => if Zneqb (file_open p) 2 then Ok 0 else Ok (sf_format (sf_info p))
  | None => Ok 0
  end.


(** ** Converter quality and notification threshold *)

(** [quality] is an [unsigned int]: it is not negative. *)
Definition set_src_quality (st : state) (player_handle : Z) (quality : Z)
  : res (state * Z) :=
  do pPlayer <- get_player st player_handle;
  match pPlayer with
  | None => Ok (st, 0)
  | Some p =>
    if Zneqb (file_open p) 2 then Ok (st, 0) else
    if quality >? SRC_LINEAR then Ok (st, 0) else
    do st1 <- send_notifications
                (put_player st player_handle (with_src_quality quality p))
                (Some player_handle) NOTIFY_QUALITY;
    Ok (st1, 1)
  end.

Definition get_src_quality (st : state) (player_handle : Z) : res Z :=
  do pPlayer <- get_player st player_handle;
  match pPlayer with
  | Some p => if Zneqb (file_open p) 2 then Ok 2 else Ok (src_quality p)
  | None => Ok 2
  end.


(** ** Counting and closing down *)

(** The slots of the table, in the order the loops visit them. *)
Definition slots : list Z := map Z.of_nat (seq 0 (Z.to_nat MAX_PLAYERS)).

Definition get_player_count (st : state) : res Z :=
  res_fold (fun count i =>
              do slot <- players_read st i;
              Ok (match slot with Some _ => count + 1 | None => count end))
    0 slots.

Definition lib_stop (st : state) : res state :=
  do st1 <- res_fold remove_player st slots;
  Ok (with_g_jack_client false st1).

Definition lib_exit (st : state) : res state :=
  if g_jack_client st then lib_stop st else Ok st.

(** ** Supported codecs

    [formats] is the table of libsndfile's simple formats, as the two
    [sf_command] queries return it: the extension of format [k] for
    [k < count]. *)

Fixpoint is_codec_supported (formats : list string) (codec : string) : Z :=
  match formats with
  | [] => 0
  | extension :: rest =>
      if String.eqb codec extension then 1 else is_codec_supported rest codec
  end.

(** [strstr(hay, needle) != NULL] *)
Fixpoint strstr (hay needle : string) : bool :=
  String.prefix needle hay ||
  match hay with
  | EmptyString => false
  | String _ rest => strstr rest needle
  end.

(** [strcat] into [g_supported_codecs], an array of 1024 characters. *)
Definition strcat (dest src : string) : res string :=
  if Z.of_nat (String.length dest + String.length src) <? 1024
  then Ok (dest ++ src)%string
  else UB (OutOfBounds 1024).

Fixpoint codecs_loop (formats : list string) (g_supported_codecs : string)
  : res string :=
  match formats with
  | [] => Ok g_supported_codecs
  | extension :: rest =>
    if strstr g_supported_codecs extension
    then codecs_loop rest g_supported_codecs
    else
      do s <- (match g_supported_codecs with
               | EmptyString => Ok g_supported_codecs
               | String _ _ => strcat g_supported_codecs ","
               end);
      do s <- strcat s extension;
      codecs_loop rest s
  end.

Definition get_supported_codecs (formats : list string) : res string :=
  codecs_loop formats EmptyString.

(** ** The file thread: seeking and reading

    The head of the main loop of [file_thread_fn], from the test of the read
    status to the update of the status after the read; what follows for a
    file that needs conversion (the call of libsamplerate) is not part of it.
    The answers of libsndfile are parameters: [sf_seek pos] is the result of
    [sf_seek(pFile, pos, SEEK_SET)], [sf_readf_float n] the result of
    [sf_readf_float(pFile, ..., n)] for a request of [n] frames, [n] being the
    [size_t] passed. *)
Record file_env : Type := mkFileEnv {
  sf_seek : Z -> Z;
  sf_readf_float : Z -> Z
}.

(* the local variables of the thread that the head of the loop writes *)
Record thread_locals : Type := mkLocals {
  nUnusedFrames : Z;
  end_of_input : Z
}.

(** [if(file_read_status == SEEKING) {...} else if(... == LOOPING) {...}] *)
Definition thread_seek (env : file_env) (p : AUDIO_PLAYER) (l : thread_locals)
  : res (AUDIO_PLAYER * thread_locals) :=
  if file_read_status p =? SEEKING then
    do ra <- ringbuffer_reset (ringbuffer_a p);
    do rb <- ringbuffer_reset (ringbuffer_b p);
    let p := with_ringbuffer_b rb (with_ringbuffer_a ra p) in
    let p := with_loop_loaded 0 p in
    let nNewPos := Qtrunc (inject_Z (play_pos_frames p) / src_ratio p) in
    let pos := sf_seek env nNewPos in
    let p := if pos >=? 0 then with_file_read_pos pos p else p in
    Ok (with_file_read_status LOADING p, mkLocals 0 0)
  else if file_read_status p =? LOOPING then
    let pos := sf_seek env (loop_start p) in
    let p := if pos >=? 0 then with_file_read_pos pos p else p in
    let p := with_file_read_status LOADING p in
    Ok (with_loop_loaded 1 p, mkLocals 0 0)
  else Ok (p, l).

(** [nMaxFrames] as passed to [sf_readf_float]; the sum and the difference
    with a [size_t] are unsigned 64-bit values. *)
Definition thread_request (p : AUDIO_PLAYER) (l : thread_locals) : Z :=
  let nMaxFrames := input_buffer_size p in
  let nMaxFrames :=
    if Zneqb (loop p) 0
       && ((file_read_pos p + nMaxFrames) mod 2 ^ 64 >? loop_end p mod 2 ^ 64)
    then (loop_end p - file_read_pos p) mod 2 ^ 64
    else nMaxFrames in
  if Qeq_bool (src_ratio p) 1 then nMaxFrames
  else (input_buffer_size p - nUnusedFrames l) mod 2 ^ 64.

(** [if(file_read_status == LOADING) {...}] up to the update of the status.
    The result holds the request made and [nFramesRead], which is not
    assigned when the status is not LOADING. *)
Definition thread_read (env : file_env) (p : AUDIO_PLAYER) (l : thread_locals)
  : AUDIO_PLAYER * thread_locals * option (Z * Z) :=
  if file_read_status p =? LOADING then
    let request := thread_request p l in
    let nFramesRead := to_int (sf_readf_float env request) in
    let p := with_file_read_pos (file_read_pos p + nFramesRead) p in
    let '(p, l) :=
      if Zneqb nFramesRead 0 then (p, l)
      else if Zneqb (loop p) 0 then
        if loop_loaded p =? 0
        then (with_file_read_status LOOPING p, mkLocals (nUnusedFrames l) 1)
        else (with_file_read_status IDLE p, mkLocals (nUnusedFrames l) 0)
      else (with_file_read_status IDLE p, mkLocals (nUnusedFrames l) 1) in
    (p, l, Some (request, nFramesRead))
  else (p, l, None).

Definition thread_fetch (env : file_env) (p : AUDIO_PLAYER) (l : thread_locals)
  : res (AUDIO_PLAYER * thread_locals * option (Z * Z)) :=
  do pl <- thread_seek env p l;
  Ok (thread_read env (fst pl) (snd pl)).

(** ** Handles and well-formed players *)

(** A valid handle: in range, and its slot holds the player [p]. *)
Definition valid_handle (st : state) (h : Z) (p : AUDIO_PLAYER) : Prop :=
  0 <= h < MAX_PLAYERS /\ g_players st !! Z.to_nat h = Some (Some p).


(** The player without its last-notified snapshot. *)
Definition unsnap (p : AUDIO_PLAYER) : AUDIO_PLAYER :=
  with_last_play_state 0 (with_last_loop 0 (with_last_loop_start 0
    (with_last_loop_end 0 (with_last_position 0%Q (with_last_gain 0%Q
      (with_last_track_a 0 (with_last_track_b 0
        (with_last_src_quality 0 p)))))))).

(** The quantity of slots of the table that hold a player. *)
Fixpoint occupied (l : list (option AUDIO_PLAYER)) : Z :=
  match l with
  | [] => 0
  | Some _ :: l' => 1 + occupied l'
  | None :: l' => occupied l'
  end.

(** ** Relations between states *)

(** [st'] is [st] but for the last-notified snapshot of the player in slot
    [h], the debug snapshot and the callbacks recorded. *)
Definition notified (h : Z) (st st' : state) : Prop :=
  exists p p' : AUDIO_PLAYER,
    valid_handle st h p /\ unsnap p' = unsnap p /\
    g_players st' = <[Z.to_nat h := Some p']> (g_players st) /\
    g_jack_client st' = g_jack_client st /\
    g_samplerate st' = g_samplerate st /\
    g_debug st' = g_debug st.

(** The three functions of a notification block return a value on every
    player that differs from [p0] by its snapshot only, and the update of the
    snapshot changes nothing but the snapshot. *)
Definition block_ok (h : Z) (p0 : AUDIO_PLAYER)
    (changed : state -> AUDIO_PLAYER -> res bool)
    (snap : state -> AUDIO_PLAYER -> res AUDIO_PLAYER)
    (value : state -> AUDIO_PLAYER -> res Q) : Prop :=
  forall (st : state) (p : AUDIO_PLAYER),
    valid_handle st h p -> unsnap p = unsnap p0 ->
    (exists c, changed st p = Ok c) /\
    (exists p', snap st p = Ok p' /\ unsnap p' = unsnap p) /\
    (exists v, value st p = Ok v).

(** The notifications selected by [param] do not go through the handle
    stored in the player. *)
Definition local_param (param : notify) : Prop :=
  selected param NOTIFY_POSITION = false /\
  selected param NOTIFY_LOOP_START = false /\
  selected param NOTIFY_LOOP_END = false.

(** [st'] differs from [st] at most in slot [h] of the table, in the debug
    snapshot and in the callbacks recorded. *)
Definition slot_frame (h : Z) (st st' : state) : Prop :=
  length (g_players st') = length (g_players st) /\
  (forall i : nat, i <> Z.to_nat h -> g_players st' !! i = g_players st !! i) /\
  g_jack_client st' = g_jack_client st /\
  g_samplerate st' = g_samplerate st /\
  g_debug st' = g_debug st.

(** The configuration of a player that stopping and unloading leave alone. *)
Definition settings (p : AUDIO_PLAYER) :=
  (handle p, loop p, (loop_start p, loop_end p),
   (loop_start_src p, loop_end_src p), gain p, (track_a p, track_b p),
   (input_buffer_size p, buffer_count p), src_quality p, sf_info p,
   pos_notify_delta p).

(** ** Invariants of the ring buffers and of the table *)

(** The two ring buffers of a player have the same size and hold the same
    quantity of bytes. *)
Definition in_sync (p : AUDIO_PLAYER) : Prop :=
  exists ra rb : jack_ringbuffer_t,
    ringbuffer_a p = Some ra /\ ringbuffer_b p = Some rb /\
    RB.rb_size ra = RB.rb_size rb /\ RB.read_space ra = RB.read_space rb.

(** A player the process callback can serve: when its file is open it has
    both ring buffers and, when it loops, a loop end that is not zero. *)
Definition servable (p : AUDIO_PLAYER) : Prop :=
  file_open p = 2 ->
  is_Some (ringbuffer_a p) /\ is_Some (ringbuffer_b p) /\
  (loop p = 0 \/ loop_end_src p <> 0).

(** A table of 17 slots whose players can all be served. *)
Definition playable (st : state) : Prop :=
  table_ok st /\
  forall (i : nat) (p : AUDIO_PLAYER),
    g_players st !! i = Some (Some p) -> servable p.

(** What one period makes of slot [old] of the table: a player with an open
    file is processed, everything else is left as it is. *)
Definition served (nFrames : Z) (old new : option (option AUDIO_PLAYER)) : Prop :=
  match old with
  | Some (Some p) =>
      if file_open p =? 2
      then exists p', process_player nFrames p = Ok p' /\ new = Some (Some p')
      else new = old
  | _ => new = old
  end.

(** The characters [get_supported_codecs] needs for a table: every extension
    and a separator each. *)
Definition codecs_length (formats : list string) : Z :=
  fold_right (fun extension n => Z.of_nat (String.length extension) + 1 + n)
    0 formats.

(** ** Closed forms used in the properties *)

(** The samplerate ratio the file thread settles on, and the player it
    leaves when the file has opened and the converter exists. *)
Definition settled_ratio (samplerate : Z) (p : AUDIO_PLAYER) : Q :=
  let r := (inject_Z samplerate / inject_Z (sf_samplerate (sf_info p)))%Q in
  if Qltb r (1 # 10) then 1%Q else r.

Definition opened_player (samplerate : Z) (p : AUDIO_PLAYER) : AUDIO_PLAYER :=
  let r := settled_ratio samplerate p in
  let out := u32 (Qtrunc (r * inject_Z (input_buffer_size p))) in
  let size := u32 (out * buffer_count p) * 4 in
  let total := sf_frames (sf_info p) in
  mkPlayer (handle p) 2 SEEKING (play_state p) 0 (loop p) 0
    0 (Qtrunc (inject_Z 0 * r)) total (Qtrunc (inject_Z total * r))
    (gain p) (track_a p) (track_b p) (input_buffer_size p) out (buffer_count p)
    (src_quality p) (u8 (-1)) (last_loop p) (-1) (-1) (-1)%Q (last_gain p)
    (last_track_a p) (last_track_b p) (last_src_quality p) (sf_info p)
    (Some (RB.create size)) (Some (RB.create size)) 0
    (Qtrunc (inject_Z total * r)) (filename p) (last_note_played p) r 1%Q 8192
    None None (1 # 10).


(** ** The words of the specification *)


(** The channels of a frame with an even index, and those with an odd one. *)
Fixpoint evens (l : list Q) : list Q :=
  match l with
  | x :: _ :: l' => x :: evens l'
  | [x] => [x]
  | [] => []
  end.
Definition odds (l : list Q) : list Q := evens (tail l).

Definition Qsum (l : list Q) : Q := fold_right Qplus 0%Q l.
Definition average (l : list Q) : Q :=
  (Qsum l / inject_Z (Z.of_nat (length l)))%Q.

(** One step of the mixing loops, [f += x / (channels / 2)], and the channels
    that the loop of leg A ([off = 0]) or leg B ([off = 1]) adds up. *)
Definition mix_step (channels : Z) (f x : Q) : Q :=
  (f + x / inject_Z (Z.quot channels 2))%Q.

Definition leg (off : nat) (l : list Q) : list Q :=
  match off with
  | O => evens l
  | S _ => odds l
  end.

(** ** Concrete states used in examples *)

(** Zeroed memory. *)
Definition fresh0 : AUDIO_PLAYER :=
  mkPlayer 0 0 0 0 0 0 0 0 0 0 0 0%Q 0 0 0 0 0 0 0 0 0 0 0%Q 0%Q 0 0 0
    (mkInfo 0 0 0 0) None None 0 0 EmptyString 0 0%Q 0%Q 0 None None 0%Q.

(** The state, or the player of slot [h], that a call left. *)
Definition state_of {A : Type} (r : res (state * A)) : state :=
  match r with
  | Ok (st, _) => st
  | UB _ => lib_init false 0
  end.

Definition ok_state (r : res state) : state :=
  match r with
  | Ok st => st
  | UB _ => lib_init false 0
  end.

Definition player_of (st : state) (h : Z) : AUDIO_PLAYER :=
  match deref st h with
  | Ok p => p
  | UB _ => fresh0
  end.

(** The library after [lib_init] and [add_player(0)]. *)
Definition ex_added : state :=
  Eval vm_compute in
    state_of (add_player fresh0 true true (lib_init true 44100) 0).

(** A stereo file of two seconds at the rate of the JACK server ... *)
Definition ex_env : open_env :=
  mkEnv true (Some (mkInfo 88200 44100 2 65538)) true true.

(** ... after [load(0, "a.wav", object 1, callback 7)], and its player. *)
Definition ex_loaded : state :=
  Eval vm_compute in
    state_of (load ex_env ex_added 0 "a.wav" (Some 1) (Some 7)).

Definition ex_player : AUDIO_PLAYER := Eval vm_compute in player_of ex_loaded 0.

(** ... after its file was unloaded again. *)
Definition ex_unloaded : state := Eval vm_compute in ok_state (unload ex_loaded 0).

(** A four channel file is loaded and tracks 2 and 3 are selected. *)
Definition ex_env4 : open_env :=
  mkEnv true (Some (mkInfo 88200 44100 4 65538)) true true.

Definition ex_tracks : state :=
  Eval vm_compute in
    ok_state (set_track_b
      (ok_state (set_track_a
         (state_of (load ex_env4 ex_added 0 "b.wav" (Some 1) (Some 7))) 0 2))
      0 3).

Definition ex_tracks_player : AUDIO_PLAYER :=
  Eval vm_compute in player_of ex_tracks 0.


(** A file recorded at half the rate of the JACK server, loaded. *)
Definition ex_env_half : open_env :=
  mkEnv true (Some (mkInfo 44100 22050 2 65538)) true true.

Definition ex_half : state :=
  Eval vm_compute in
    state_of (load ex_env_half ex_added 0 "c.wav" (Some 1) (Some 7)).

(** A player of a file with three channels that mixes both legs. *)
Definition ex_player3 : AUDIO_PLAYER :=
  with_track_b (-1) (with_track_a (-1)
    (with_sf_info (mkInfo 88200 44100 3 65538) ex_player)).

(** A looping player in the middle of playback: the loop runs from frame
    [first] to frame [last] at the output rate, the position is [pos], the
    read status is [status] and [queued] frames wait in each ring buffer. *)
Definition queue (queued : Z) : jack_ringbuffer_t :=
  RB.mk 1048576 (replicate (Z.to_nat (queued * 4)) (0%Q, 0)).

Definition ex_player_loop (first last pos status queued : Z) : AUDIO_PLAYER :=
  with_ringbuffer_a (Some (queue queued)) (with_ringbuffer_b (Some (queue queued))
    (with_file_read_status status (with_play_pos_frames pos
      (with_loop_end_src last (with_loop_end last
        (with_loop_start_src first (with_loop_start first
          (with_loop 1 (with_play_state PLAYING ex_player))))))))).

(** MIDI events on channel [ch]. *)
Definition note_on (ch note velocity : Z) : midi_event :=
  mkMidi (144 + ch) note velocity.
Definition note_off (ch note : Z) : midi_event := mkMidi (128 + ch) note 0.

(** The loaded player after a note on for note 60. *)
Definition ex_note60 : state :=
  Eval vm_compute in ok_state (midi_process ex_loaded (note_on 0 60 100)).

(** The stereo file loaded after [set_buffer_size(0, 1)]: the ring buffers
    have 32 bytes ... *)
Definition ex_small : state :=
  Eval vm_compute in
    state_of (load ex_env (ok_state (set_buffer_size ex_added 0 1)) 0 "a.wav"
                (Some 1) (Some 7)).

(** ... in the state where a reader has emptied the ring buffer of leg A but
    not yet that of leg B, which still holds seven samples; the file thread is
    loading. *)
Definition ex_player_uneven : AUDIO_PLAYER :=
  with_ringbuffer_a (Some (RB.mk 32 []))
    (with_ringbuffer_b (Some (RB.mk 32 (replicate 28 (0%Q, 0))))
      (with_file_read_status LOADING (player_of ex_small 0))).

Definition ex_uneven : state := put_player ex_small 0 ex_player_uneven.

(** A file of 88200 frames that is read from its start: every seek succeeds
    and a read returns the frames asked for, 88200 at most. *)
Definition ex_file : file_env := mkFileEnv (fun pos => pos) (fun n => Z.min n 88200).

(** * Properties *)

(** ** The registry *)

Section Registry.

Variables (st : state) (h : Z) (p : AUDIO_PLAYER).
Hypothesis Hv : valid_handle st h p.

Lemma valid_get_player : get_player st h = Ok (Some p).
Proof using Hv.
  destruct Hv as [[Hlo Hhi] Hslot]. unfold get_player, players_read, MAX_PLAYERS in *.
  replace (h >? 17) with false by lia.
  replace (h <? 0) with false by lia.
  simpl. now rewrite Hslot.
Qed.

Lemma valid_deref : deref st h = Ok p.
Proof using Hv.
  destruct Hv as [_ Hslot]. unfold deref. now rewrite Hslot.
Qed.

Lemma valid_players_read : players_read st h = Ok (Some p).
Proof using Hv.
  destruct Hv as [_ Hslot]. unfold players_read. now rewrite Hslot.
Qed.

Lemma valid_put (p' : AUDIO_PLAYER) : valid_handle (put_player st h p') h p'.
Proof using Hv.
  destruct Hv as [Hr Hslot]. split; [exact Hr|]. simpl.
  apply list_lookup_insert_eq. eapply lookup_lt_Some, Hslot.
Qed.

Lemma put_same : put_player st h p = st.
Proof using Hv.
  destruct Hv as [_ Hslot]. unfold put_player, with_players.
  rewrite (list_insert_id _ _ _ Hslot). now destruct st.
Qed.

Lemma valid_invoke (q : AUDIO_PLAYER) (t : notify) (v : Q) :
  valid_handle (invoke_cb q t v st) h p.
Proof using Hv. unfold invoke_cb. destruct (cb_fn q); exact Hv. Qed.

End Registry.

Lemma put_put (st : state) (h : Z) (p q : AUDIO_PLAYER) :
  put_player (put_player st h p) h q = put_player st h q.
Proof.
  unfold put_player, with_players. simpl. now rewrite list_insert_insert_eq.
Qed.

(** C1, at the failing handle: [get_player] lets the handle [MAX_PLAYERS]
    through its guard and reads [g_players[17]], one element past the end of
    the 17 element table; every operation starts with that read. *)
Theorem get_player_reads_past_the_table (st : state) (g : Q) :
  table_ok st ->
  get_player st MAX_PLAYERS = UB (OutOfBounds 17)
  /\ get_gain st MAX_PLAYERS = UB (OutOfBounds 17)
  /\ set_gain st MAX_PLAYERS g = UB (OutOfBounds 17)
  /\ unload st MAX_PLAYERS = UB (OutOfBounds 17)
  /\ stop_playback st MAX_PLAYERS = UB (OutOfBounds 17)
  /\ set_loop_start_time st MAX_PLAYERS g = UB (OutOfBounds 17).
Proof.
  intros Hlen.
  assert (Hget : get_player st MAX_PLAYERS = UB (OutOfBounds 17)).
  { unfold get_player, players_read. simpl.
    replace (g_players st !! Z.to_nat MAX_PLAYERS) with (@None (option AUDIO_PLAYER));
      [reflexivity|].
    symmetry. apply lookup_ge_None. rewrite Hlen. lia. }
  unfold get_gain, set_gain, unload, stop_playback, set_loop_start_time.
  rewrite Hget. simpl. repeat split; reflexivity.
Qed.

Lemma get_player_reads_past_the_table_init :
  table_ok (lib_init true 44100)
  /\ get_player (lib_init true 44100) MAX_PLAYERS = UB (OutOfBounds 17).
Proof.
  split; [reflexivity|].
  apply (get_player_reads_past_the_table (lib_init true 44100) 1%Q).
  reflexivity.
Defined.

(** ** Notifications change the snapshot only *)

Lemma unsnap_handle (p q : AUDIO_PLAYER) : unsnap p = unsnap q -> handle p = handle q.
Proof. intros H. exact (f_equal handle H). Qed.

Lemma notified_refl (h : Z) (st : state) (p : AUDIO_PLAYER) :
  valid_handle st h p -> notified h st st.
Proof.
  intros Hv. exists p, p. repeat split; try apply Hv.
  destruct Hv as [_ Hs]. now rewrite (list_insert_id _ _ _ Hs).
Qed.

Lemma notified_valid (h : Z) (st st' : state) (p : AUDIO_PLAYER) :
  notified h st st' -> valid_handle st h p ->
  exists p', valid_handle st' h p' /\ unsnap p' = unsnap p.
Proof.
  intros (q & q' & Hq & Hu & Hp & _) Hv.
  assert (q = p) as -> by (destruct Hq as [_ E1], Hv as [_ E2]; congruence).
  exists q'. split; [|exact Hu].
  split; [apply Hv|]. rewrite Hp. apply list_lookup_insert_eq.
  destruct Hv as [_ E]. eapply lookup_lt_Some, E.
Qed.

Lemma notified_trans (h : Z) (st1 st2 st3 : state) :
  notified h st1 st2 -> notified h st2 st3 -> notified h st1 st3.
Proof.
  intros N1 (q & q' & Hq & Hu & Hp & Hj & Hs & Hd).
  pose proof N1 as (p & p' & Hv & Hu1 & Hp1 & Hj1 & Hs1 & Hd1).
  destruct (notified_valid _ _ _ _ N1 Hv) as (p1 & Hv1 & Hu2).
  assert (q = p1) as -> by (destruct Hq as [_ E1], Hv1 as [_ E2]; congruence).
  exists p, q'. repeat split; try apply Hv; try congruence.
  rewrite Hp, Hp1. apply list_insert_insert_eq.
Qed.

Lemma notified_put (h : Z) (st : state) (p p' : AUDIO_PLAYER) :
  valid_handle st h p -> unsnap p' = unsnap p -> notified h st (put_player st h p').
Proof. intros Hv Hu. exists p, p'. repeat split; try apply Hv; assumption. Qed.

Lemma notified_invoke (h : Z) (st st' : state) (q : AUDIO_PLAYER) (t : notify) (v : Q) :
  notified h st st' -> notified h st (invoke_cb q t v st').
Proof.
  intros (p & p' & H). exists p, p'. unfold invoke_cb. now destruct (cb_fn q).
Qed.

Lemma notify_block_notified (h : Z) (param type : notify) changed snap value
    (st : state) (p : AUDIO_PLAYER) :
  (selected param type = true -> block_ok h p changed snap value) ->
  valid_handle st h p ->
  exists st', notify_block h param type changed snap value st = Ok st'
              /\ notified h st st'.
Proof.
  intros Hb Hv. unfold notify_block.
  destruct (selected param type); [|eauto using notified_refl].
  specialize (Hb eq_refl).
  rewrite (valid_deref _ _ _ Hv). simpl.
  destruct (Hb st p Hv eq_refl) as ((c & Hc) & (p' & Hs & Hu) & _).
  rewrite Hc. simpl. destruct c; [|eauto using notified_refl].
  rewrite Hs. simpl.
  pose proof (valid_put _ _ _ Hv p') as Hv'.
  destruct (Hb _ _ Hv' Hu) as (_ & _ & (v & Hval)).
  destruct (cb_fn p'); [rewrite Hval; simpl|];
    eauto using notified_invoke, notified_put.
Qed.

Lemma get_position_ok (st : state) (h : Z) (p : AUDIO_PLAYER) :
  valid_handle st h p -> exists t, get_position st h = Ok t.
Proof.
  intros Hv. unfold get_position. rewrite (valid_get_player _ _ _ Hv). simpl.
  destruct (_ && _); eauto.
Qed.

Lemma get_loop_start_time_ok (st : state) (h : Z) (p : AUDIO_PLAYER) :
  valid_handle st h p -> exists t, get_loop_start_time st h = Ok t.
Proof.
  intros Hv. unfold get_loop_start_time. rewrite (valid_get_player _ _ _ Hv). simpl.
  destruct (_ =? _); eauto.
Qed.

Lemma get_loop_end_time_ok (st : state) (h : Z) (p : AUDIO_PLAYER) :
  valid_handle st h p -> exists t, get_loop_end_time st h = Ok t.
Proof.
  intros Hv. unfold get_loop_end_time. rewrite (valid_get_player _ _ _ Hv). simpl.
  destruct (_ =? _); eauto.
Qed.

Ltac block_pure :=
  intros _ ? ? ? ?; repeat split; eexists; try split; reflexivity.

(** A block that reads through [handle p]: fine when the handle is the slot,
    and not selected otherwise. *)
Ltac block_handle Hh lem :=
  let Hsel := fresh "Hsel" in
  intros Hsel;
  destruct Hh as [Hh | (? & ? & ?)]; [|congruence];
  let s := fresh "s" in let q := fresh "q" in
  let Hq := fresh "Hq" in let Hu := fresh "Hu" in
  intros s q Hq Hu; rewrite (unsnap_handle _ _ Hu), Hh;
  let t := fresh "t" in let Ht := fresh "Ht" in
  destruct (lem _ _ _ Hq) as (t & Ht); rewrite ?Ht; simpl;
  repeat split; eexists; try split; reflexivity.

(** [send_notifications] returns, and all it changes are the snapshots and the
    callback log. *)
Lemma send_notifications_notified (st : state) (h : Z) (p : AUDIO_PLAYER)
    (param : notify) :
  valid_handle st h p -> handle p = h \/ local_param param ->
  exists st', send_notifications st (Some h) param = Ok st' /\ notified h st st'.
Proof.
  intros Hv Hh. unfold send_notifications.
  rewrite (valid_deref _ _ _ Hv). simpl.
  destruct (Zneqb (file_open p) 2); [eauto using notified_refl|].
  assert (step : forall type changed snap value k (s : state),
    (selected param type = true -> block_ok h p changed snap value) ->
    notified h st s ->
    (forall s', notified h st s' -> exists st', k s' = Ok st' /\ notified h st st') ->
    exists st', bind (notify_block h param type changed snap value s) k = Ok st'
                /\ notified h st st').
  { intros type changed snap value k s Hb Hn Hk.
    destruct (notified_valid _ _ _ _ Hn Hv) as (q & Hq & Hu).
    destruct (notify_block_notified h param type changed snap value s q) as (s' & E & N);
      [|exact Hq|].
    - intros Hsel s0 q0 Hq0 Hu0. apply (Hb Hsel s0 q0 Hq0). congruence.
    - rewrite E. simpl. apply Hk. eapply notified_trans; eassumption. }
  apply step; [block_pure|eauto using notified_refl|]; intros s1 N1.
  apply step; [block_handle Hh get_position_ok|exact N1|]; intros s2 N2.
  apply step; [block_pure|exact N2|]; intros s3 N3.
  apply step; [block_pure|exact N3|]; intros s4 N4.
  apply step; [block_handle Hh get_loop_start_time_ok|exact N4|]; intros s5 N5.
  apply step; [block_handle Hh get_loop_end_time_ok|exact N5|]; intros s6 N6.
  apply step; [block_pure|exact N6|]; intros s7 N7.
  apply step; [block_pure|exact N7|]; intros s8 N8.
  apply step; [block_pure|exact N8|]; intros s9 N9.
  destruct (_ && _); [|eauto].
  destruct (notified_valid _ _ _ _ N9 Hv) as (q & Hq & Hu).
  rewrite (valid_deref _ _ _ Hq). simpl. eexists; split; [reflexivity|].
  apply notified_invoke.
  destruct N9 as (a & a' & H). exists a, a'. exact H.
Qed.

(** Validity of a handle in a concrete state. *)
Ltac valid_tac := split; [unfold MAX_PLAYERS; lia|reflexivity].

(** What an equation between players without their snapshots says of field [f]. *)
Ltac unsnap_field Hu f :=
  let H := fresh "Hfield" in
  pose proof (f_equal f Hu) as H; cbn in H.


Lemma local_transport : local_param NOTIFY_TRANSPORT.
Proof. repeat split. Qed.

(** ** Gain *)






(** ** Stopping and unloading *)

(** [send_notifications(pPlayer, NOTIFY_TRANSPORT)] in closed form. *)
Lemma send_transport (st : state) (h : Z) (p : AUDIO_PLAYER) :
  valid_handle st h p ->
  send_notifications st (Some h) NOTIFY_TRANSPORT =
  Ok (if (file_open p =? 2) && Zneqb (last_play_state p) (play_state p)
      then let p' := with_last_play_state (play_state p) p in
           invoke_cb p' NOTIFY_TRANSPORT (inject_Z (play_state p))
             (put_player st h p')
      else st).
Proof.
  intros Hv. unfold send_notifications, Zneqb.
  rewrite (valid_deref _ _ _ Hv). simpl.
  destruct (file_open p =? 2); simpl; [|reflexivity].
  unfold notify_block. simpl. rewrite (valid_deref _ _ _ Hv). simpl.
  destruct (last_play_state p =? play_state p); simpl; [reflexivity|].
  unfold invoke_cb. simpl. now destruct (cb_fn p).
Qed.

Lemma stop_playback_stopped (st : state) (h : Z) (p : AUDIO_PLAYER) :
  valid_handle st h p -> play_state p = STOPPED ->
  stop_playback st h =
  Ok (if (file_open p =? 2) && Zneqb (last_play_state p) STOPPED
      then let p' := with_last_play_state STOPPED p in
           invoke_cb p' NOTIFY_TRANSPORT 0%Q (put_player st h p')
      else st).
Proof.
  intros Hv Hs. unfold stop_playback.
  rewrite (valid_get_player _ _ _ Hv). cbn [bind ptr_of].
  unfold Zneqb at 1. rewrite Hs. cbn [Z.eqb STOPPED negb].
  rewrite (send_transport _ _ _ Hv), Hs. reflexivity.
Qed.

(** C9, as amended: [unload] on a handle whose file is closed changes nothing
    and calls nothing.  [stop_playback] on a STOPPED transport changes nothing
    and calls nothing once the STOPPED state has been notified (or no file is
    open); when it has not been notified yet, the call records STOPPED as
    notified and reports it once, leaving every other field as it was, and
    a further call changes nothing. *)
Theorem unload_stop_playback_idempotent (st : state) (h : Z) (p : AUDIO_PLAYER) :
  valid_handle st h p ->
  (file_open p = 0 -> unload st h = Ok st) /\
  (play_state p = STOPPED ->
   (file_open p <> 2 \/ last_play_state p = STOPPED -> stop_playback st h = Ok st) /\
   (file_open p = 2 -> last_play_state p <> STOPPED ->
    exists st' p',
      stop_playback st h = Ok st' /\ valid_handle st' h p' /\
      p' = with_last_play_state STOPPED p /\
      cb_log st' =
        match cb_fn p with
        | Some f => mkEvent f (cb_object p) (handle p) NOTIFY_TRANSPORT 0%Q :: cb_log st
        | None => cb_log st
        end /\
      stop_playback st' h = Ok st')).
Proof.
  intros Hv. split.
  - intros Hc. unfold unload. rewrite (valid_get_player _ _ _ Hv). simpl.
    now rewrite Hc.
  - intros Hs. split.
    + intros Hn. rewrite (stop_playback_stopped _ _ _ Hv Hs).
      destruct Hn as [Hn|Hn].
      * destruct (Z.eqb_spec (file_open p) 2); [contradiction|reflexivity].
      * unfold Zneqb. rewrite Hn, Z.eqb_refl, andb_false_r. reflexivity.
    + intros Ho Hn. rewrite (stop_playback_stopped _ _ _ Hv Hs).
      unfold Zneqb. rewrite Ho.
      destruct (Z.eqb_spec (last_play_state p) STOPPED); [contradiction|]. simpl.
      set (p' := with_last_play_state STOPPED p).
      assert (Hv' : valid_handle (invoke_cb p' NOTIFY_TRANSPORT 0%Q (put_player st h p')) h p')
        by (apply valid_invoke, (valid_put _ _ _ Hv)).
      exists (invoke_cb p' NOTIFY_TRANSPORT 0%Q (put_player st h p')), p'.
      split; [reflexivity|]. split; [exact Hv'|]. split; [reflexivity|].
      split; [unfold invoke_cb; simpl; now destruct (cb_fn p)|].
      rewrite (stop_playback_stopped _ _ _ Hv' Hs).
      unfold Zneqb. simpl. rewrite andb_false_r. reflexivity.
Qed.

Lemma unload_stop_playback_idempotent_example :
  valid_handle ex_added 0 (player_of ex_added 0)
  /\ unload ex_added 0 = Ok ex_added
  /\ stop_playback ex_added 0 = Ok ex_added
  /\ valid_handle ex_loaded 0 ex_player
  /\ exists st' p',
       stop_playback ex_loaded 0 = Ok st' /\ valid_handle st' 0 p'
       /\ p' = with_last_play_state STOPPED ex_player
       /\ cb_log st' = [mkEvent 7 (Some 1) 0 NOTIFY_TRANSPORT 0%Q]
       /\ stop_playback st' 0 = Ok st'.
Proof.
  assert (Hv : valid_handle ex_added 0 (player_of ex_added 0)) by valid_tac.
  assert (Hw : valid_handle ex_loaded 0 ex_player) by valid_tac.
  destruct (unload_stop_playback_idempotent ex_added 0 _ Hv) as [Hu Hs].
  destruct (unload_stop_playback_idempotent ex_loaded 0 _ Hw) as [_ Hl].
  split; [exact Hv|]. split; [exact (Hu eq_refl)|].
  split; [apply (Hs eq_refl); left; discriminate|].
  split; [exact Hw|].
  apply (Hl eq_refl); [reflexivity|discriminate].
Defined.

(** C9 as stated fails where the STOPPED state has not been notified yet, as
    right after [load]: [stop_playback] on the STOPPED transport records the
    state as notified and calls the callback. *)
Lemma stop_playback_when_stopped_notifies :
  valid_handle ex_loaded 0 ex_player
  /\ play_state ex_player = STOPPED
  /\ cb_log ex_loaded = []
  /\ exists st', stop_playback ex_loaded 0 = Ok st'
       /\ cb_log st' = [mkEvent 7 (Some 1) 0 NOTIFY_TRANSPORT 0%Q]
       /\ last_play_state ex_player = 255
       /\ last_play_state (player_of st' 0) = STOPPED
       /\ st' <> ex_loaded.
Proof.
  split; [valid_tac|]. repeat (split; [reflexivity|]).
  eexists. split; [vm_compute; reflexivity|].
  repeat (split; [reflexivity|]).
  intros H. apply (f_equal cb_log) in H. discriminate H.
Qed.

Lemma stop_playback_valid (st : state) (h : Z) (p : AUDIO_PLAYER) :
  valid_handle st h p ->
  exists st' p',
    stop_playback st h = Ok st' /\ valid_handle st' h p' /\
    unsnap p' = unsnap (if Zneqb (play_state p) STOPPED
                        then with_play_state STOPPING p else p).
Proof.
  intros Hv. unfold stop_playback.
  rewrite (valid_get_player _ _ _ Hv). cbn [bind ptr_of].
  destruct (Zneqb (play_state p) STOPPED).
  - destruct (send_notifications_notified (put_player st h (with_play_state STOPPING p))
                h _ NOTIFY_TRANSPORT (valid_put _ _ _ Hv _) (or_intror local_transport))
      as (st' & E & N).
    destruct (notified_valid _ _ _ _ N (valid_put _ _ _ Hv _)) as (p' & Hv' & Hu).
    eauto.
  - destruct (send_notifications_notified st h p NOTIFY_TRANSPORT Hv
                (or_intror local_transport)) as (st' & E & N).
    destruct (notified_valid _ _ _ _ N Hv) as (p' & Hv' & Hu).
    eauto.
Qed.

(** ** Loading *)








(** ** Position and loop bounds *)







(** The upper bound that [set_loop_end_time] enforces is the frame count at
    the output rate: on a file recorded at half the output rate a loop end
    past the last native frame is accepted. *)
Lemma loop_end_may_pass_native_frames :
  sf_frames (sf_info (player_of ex_half 0)) = 44100
  /\ frames (player_of ex_half 0) = 88200
  /\ exists st', set_loop_end_time ex_half 0 3 = Ok st'
                 /\ loop_end (player_of st' 0) = 66150.
Proof.
  repeat (split; [reflexivity|]). eexists. split; vm_compute; reflexivity.
Qed.

(** ** Demultiplexing *)

(** C4, at a failing input: a frame (1, 0, 1) of a three channel file with
    both legs mixing.  The even channels are 1 and 1, their average is 1; the
    code divides by [channels / 2 = 1] and sends their sum, 2, to leg A. *)
Theorem demux_three_channels_sums :
  sf_channels (sf_info ex_player3) = 3 /\ track_a ex_player3 = -1
  /\ evens [1; 0; 1]%Q = [1; 1]%Q
  /\ (average (evens [1; 0; 1]) == 1)%Q
  /\ exists fA fB,
       demux_frame ex_player3 [1; 0; 1]%Q 0 = Ok (fA, fB)
       /\ (fA == 2)%Q /\ ~ (fA == average (evens [1; 0; 1]))%Q.
Proof.
  repeat (split; [reflexivity|]).
  eexists _, _. split; [vm_compute; reflexivity|].
  split; [reflexivity|discriminate].
Qed.

Lemma leg_cons (off : nat) (l : list Q) :
  (off <= 1)%nat -> (off < length l)%nat ->
  leg off l = nth off l 0%Q :: leg off (drop 2 l).
Proof.
  intros Hoff Hlen.
  destruct off as [|[|off]]; [| |lia];
    destruct l as [|x [|y [|z l']]]; simpl in *; try lia; reflexivity.
Qed.

Lemma leg_nil (off : nat) (l : list Q) :
  (length l <= off)%nat -> (off <= 1)%nat -> leg off l = [].
Proof.
  intros Hlen Hoff.
  destruct off as [|[|off]]; [| |lia];
    destruct l as [|x [|y l']]; simpl in *; try lia; reflexivity.
Qed.

Section MixLoop.

Variables (pBufferOut chans : list Q) (sample : Z).
Hypothesis Hbuf : forall i : nat, (i < length chans)%nat ->
  buf_read pBufferOut (sample + Z.of_nat i) = Ok (nth i chans 0%Q).

(** The mixing loop is a left fold of [mix_step] over the channels of its leg. *)
Lemma mix_tracks_fold (off : nat) (Hoff : (off <= 1)%nat) :
  forall (fuel tr : nat) (f : Q),
    (length chans <= tr + fuel)%nat ->
    mix_tracks fuel pBufferOut sample (Z.of_nat (length chans))
      (Z.of_nat off) (Z.of_nat tr) f
    = Ok (fold_left (mix_step (Z.of_nat (length chans)))
            (leg off (drop tr chans)) f).
Proof using Hbuf.
  induction fuel as [|fuel IH]; intros tr f Hfuel.
  - simpl. rewrite leg_nil; [reflexivity| |exact Hoff].
    rewrite length_drop. lia.
  - cbn [mix_tracks].
    destruct (Z.ltb_spec (Z.of_nat tr + Z.of_nat off) (Z.of_nat (length chans)))
      as [Hin|Hout].
    + replace (sample + Z.of_nat tr + Z.of_nat off)
        with (sample + Z.of_nat (tr + off)) by lia.
      rewrite Hbuf by lia. cbn [bind].
      replace (Z.of_nat tr + 2) with (Z.of_nat (tr + 2)) by lia.
      rewrite IH by lia.
      rewrite (leg_cons off (drop tr chans) Hoff)
        by (rewrite length_drop; lia).
      cbn [fold_left]. rewrite drop_drop.
      rewrite !nth_lookup, lookup_drop. reflexivity.
    + rewrite leg_nil; [reflexivity| |exact Hoff].
      rewrite length_drop. lia.
Qed.

End MixLoop.

Lemma fold_mix_step (d : Z) (l : list Q) (f : Q) :
  (fold_left (mix_step d) l f == f + Qsum l / inject_Z (Z.quot d 2))%Q.
Proof.
  revert f. induction l as [|x l IH]; intros f; simpl.
  - unfold Qdiv. ring.
  - rewrite IH. unfold mix_step, Qdiv. ring.
Qed.

Lemma length_evens (l : list Q) : length (evens l) = Nat.div2 (S (length l)).
Proof.
  enough (H : length (evens l) = Nat.div2 (S (length l)) /\
              forall x, length (evens (x :: l)) = Nat.div2 (S (S (length l))))
    by apply H.
  induction l as [|y l [IH1 IH2]]; [split; reflexivity|]. split.
  - apply IH2.
  - intros x. cbn [evens length Nat.div2]. now rewrite IH1.
Qed.

Lemma length_odds (l : list Q) : length (odds l) = Nat.div2 (length l).
Proof.
  unfold odds. rewrite length_evens. destruct l; reflexivity.
Qed.

Lemma buf_read_frame (pre chans post : list Q) (i : nat) :
  (i < length chans)%nat ->
  buf_read (pre ++ chans ++ post) (Z.of_nat (length pre) + Z.of_nat i)
  = Ok (nth i chans 0%Q).
Proof.
  intros Hi. unfold buf_read.
  destruct (Z.ltb_spec (Z.of_nat (length pre) + Z.of_nat i) 0); [lia|].
  replace (Z.to_nat (Z.of_nat (length pre) + Z.of_nat i))
    with (length pre + i)%nat by lia.
  rewrite lookup_app_r by lia.
  replace (length pre + i - length pre)%nat with i by lia.
  rewrite lookup_app_l by exact Hi.
  rewrite nth_lookup. destruct (lookup_lt_is_Some_2 chans i Hi) as [x ->].
  reflexivity.
Qed.

Lemma quot2_of_nat (n : nat) : Z.quot (Z.of_nat n) 2 = Z.of_nat (Nat.div2 n).
Proof.
  rewrite Z.quot_div_nonneg by lia.
  rewrite Nat.div2_div, Nat2Z.inj_div. reflexivity.
Qed.

(** X2: mixing legs of a file with two or more channels: leg B is the average of
    the odd channels; leg A is the sum of the even channels divided by the
    number of channel pairs, which is their average when the channel count is
    even. *)
Theorem demux_mixed_legs (p : AUDIO_PLAYER) (pre chans post : list Q) (frame : Z) :
  sf_channels (sf_info p) = Z.of_nat (length chans) ->
  (2 <= length chans)%nat ->
  Z.of_nat (length pre) = frame * Z.of_nat (length chans) ->
  track_a p < 0 -> track_b p < 0 ->
  exists fA fB,
    demux_frame p (pre ++ chans ++ post) frame = Ok (fA, fB)
    /\ (fB == average (odds chans))%Q
    /\ (fA == Qsum (evens chans) / inject_Z (Z.of_nat (Nat.div2 (length chans))))%Q
    /\ (Nat.Even (length chans) -> fA == average (evens chans))%Q.
Proof.
  intros Hch Hn Hpre Ha Hb. unfold demux_frame. rewrite Hch, <- Hpre.
  destruct (Z.gtb_spec (Z.of_nat (length chans)) 1); [|lia].
  destruct (Z.ltb_spec (track_a p) 0); [|lia].
  destruct (Z.ltb_spec (track_b p) 0); [|lia].
  rewrite Nat2Z.id.
  pose proof (mix_tracks_fold (pre ++ chans ++ post) chans (Z.of_nat (length pre))
                (buf_read_frame pre chans post)) as Hmix.
  pose proof (Hmix 0%nat (Nat.le_0_1) (length chans) 0%nat 0%Q) as HA.
  pose proof (Hmix 1%nat (Nat.le_refl 1) (length chans) 0%nat 0%Q) as HB.
  change (Z.of_nat 0) with 0 in HA, HB. change (Z.of_nat 1) with 1 in HB.
  rewrite HA, HB by lia. cbn [bind].
  eexists _, _. split; [reflexivity|]. rewrite !drop_0. cbn [leg].
  rewrite !fold_mix_step, quot2_of_nat.
  split; [|split].
  - unfold average. rewrite length_odds. unfold Qdiv. ring.
  - unfold Qdiv. ring.
  - intros [k Hk]. unfold average. rewrite length_evens, Hk.
    rewrite Nat.div2_succ_double, Nat.div2_double. unfold Qdiv. ring.
Qed.

Lemma demux_mixed_legs_example :
  exists fA fB,
    demux_frame (with_sf_info (mkInfo 88200 44100 4 65538) ex_player3)
      ([] ++ [1; 2; 3; 5]%Q ++ []) 0 = Ok (fA, fB)
    /\ (fB == average (odds [1; 2; 3; 5]))%Q
    /\ (fA == Qsum (evens [1; 2; 3; 5]) / inject_Z (Z.of_nat (Nat.div2 4)))%Q
    /\ (Nat.Even 4 -> fA == average (evens [1; 2; 3; 5]))%Q.
Proof.
  apply (demux_mixed_legs (with_sf_info (mkInfo 88200 44100 4 65538) ex_player3)
           [] [1; 2; 3; 5]%Q [] 0); try reflexivity. simpl. lia.
Defined.

(** A four channel file: leg A is the average of channels 0 and 2, leg B the
    average of channels 1 and 3. *)
Lemma demux_four_channels (p : AUDIO_PLAYER) (c0 c1 c2 c3 : Q) :
  sf_channels (sf_info p) = 4 -> track_a p < 0 -> track_b p < 0 ->
  exists fA fB,
    demux_frame p [c0; c1; c2; c3] 0 = Ok (fA, fB)
    /\ (fA == (c0 + c2) / 2)%Q /\ (fB == (c1 + c3) / 2)%Q.
Proof.
  intros Hch Ha Hb. unfold demux_frame. rewrite Hch.
  destruct (Z.ltb_spec (track_a p) 0); [|lia].
  destruct (Z.ltb_spec (track_b p) 0); [|lia].
  cbn. eexists _, _. split; [reflexivity|].
  change (inject_Z (Z.quot 4 2)) with 2%Q. unfold Qdiv. split; ring.
Qed.

(** X3: an explicit track is copied; a mono source goes to both legs in halves. *)
Theorem demux_explicit_and_mono (p : AUDIO_PLAYER) (pBufferOut : list Q)
    (frame : Z) (a b x : Q) :
  (1 < sf_channels (sf_info p) -> 0 <= track_a p -> 0 <= track_b p ->
   buf_read pBufferOut (frame * sf_channels (sf_info p) + track_a p) = Ok a ->
   buf_read pBufferOut (frame * sf_channels (sf_info p) + track_b p) = Ok b ->
   demux_frame p pBufferOut frame = Ok (a, b)) /\
  (sf_channels (sf_info p) = 1 ->
   buf_read pBufferOut frame = Ok x ->
   demux_frame p pBufferOut frame = Ok (x / 2, x / 2)%Q).
Proof.
  unfold demux_frame. split.
  - intros Hch Ha Hb Ea Eb.
    destruct (Z.gtb_spec (sf_channels (sf_info p)) 1); [|lia].
    destruct (Z.ltb_spec (track_a p) 0); [lia|].
    destruct (Z.ltb_spec (track_b p) 0); [lia|].
    now rewrite Ea, Eb.
  - intros Hch Ex. rewrite Hch, Z.mul_1_r, Ex. reflexivity.
Qed.

Lemma demux_explicit_and_mono_example :
  demux_frame ex_player [3; 5]%Q 0 = Ok (3, 3)%Q
  /\ demux_frame (with_sf_info (mkInfo 88200 44100 1 65538) ex_player) [3]%Q 0
     = Ok (3 / 2, 3 / 2)%Q.
Proof.
  split.
  - apply (proj1 (demux_explicit_and_mono ex_player [3; 5]%Q 0 3 3 0));
      try reflexivity; simpl; lia.
  - apply (proj2 (demux_explicit_and_mono
                    (with_sf_info (mkInfo 88200 44100 1 65538) ex_player)
                    [3]%Q 0 0 0 3)); reflexivity.
Defined.

(** ** The process callback: looping *)

(** C5, at two failing inputs.  First, the loop runs from 1000 to 2000 at
    the output rate and the queued data ends one frame before the loop end:
    the position 1999 is "wrapped" to 2999.  Second, the loop runs from 1500
    to 2000 and is shorter than the period of 1024 frames: the position 2500
    is wrapped to 2000.  Neither result is in the loop. *)
Theorem loop_wrap_leaves_the_loop :
  (exists p',
     process_player 256 (ex_player_loop 1000 2000 1900 IDLE 99) = Ok p'
     /\ loop_start_src p' = 1000 /\ loop_end_src p' = 2000
     /\ play_pos_frames p' = 2999 /\ file_read_status p' = LOOPING)
  /\ (exists p',
     process_player 1024 (ex_player_loop 1500 2000 1900 IDLE 600) = Ok p'
     /\ loop_start_src p' = 1500 /\ loop_end_src p' = 2000
     /\ play_pos_frames p' = 2000 /\ file_read_status p' = LOOPING).
Proof.
  split; eexists; (split; [vm_compute; reflexivity|]); repeat split.
Qed.

Lemma u32_range (x : Z) : 0 <= u32 x < 2 ^ 32.
Proof. unfold u32. apply Z.mod_pos_bound. lia. Qed.

Lemma u32_le (x : Z) : 0 <= x -> u32 x <= x.
Proof. intros Hx. unfold u32. apply Z.mod_le; lia. Qed.

(** With the loop starting at frame 0 and ending at frame T > 0, the wrap puts
    the position into [0, T) and requests the loop again. *)
Lemma wrap_from_zero (p : AUDIO_PLAYER) (eof : bool) :
  loop p <> 0 -> loop_start_src p = 0 -> 0 < loop_end_src p ->
  0 <= play_pos_frames p ->
  loop_end_src p <= play_pos_frames p \/ eof = true ->
  exists p',
    wrap_or_stop p eof = Ok p'
    /\ 0 <= play_pos_frames p' < loop_end_src p
    /\ file_read_status p' = LOOPING /\ loop_loaded p' = 0
    /\ play_state p' = play_state p.
Proof.
  intros Hloop Hs Ht Hpos Hwrap. unfold wrap_or_stop, Zneqb.
  destruct (Z.eqb_spec (loop p) 0); [contradiction|]. cbn [negb].
  assert ((play_pos_frames p >=? loop_end_src p) || eof = true) as ->.
  { destruct Hwrap as [H| ->]; [|apply orb_true_r].
    apply orb_true_iff. left. lia. }
  destruct (Z.eqb_spec (loop_end_src p) 0); [lia|].
  eexists. split; [reflexivity|]. cbn. rewrite Hs, Z.add_0_r.
  pose proof (Z.rem_bound_pos (play_pos_frames p) (loop_end_src p) Hpos Ht) as Hr.
  pose proof (u32_le _ (proj1 Hr)) as H1.
  pose proof (u32_range (Z.rem (play_pos_frames p) (loop_end_src p))) as H2.
  pose proof (u32_le _ (proj1 H2)) as H3.
  pose proof (u32_range (u32 (Z.rem (play_pos_frames p) (loop_end_src p)))) as H4.
  repeat split; lia.
Qed.

(** With that loop, wrapped or not, the position after [wrap_or_stop] lies in
    [0, T). *)
Lemma wrap_or_stop_from_zero (p : AUDIO_PLAYER) (eof : bool) :
  loop p <> 0 -> loop_start_src p = 0 -> 0 < loop_end_src p ->
  0 <= play_pos_frames p ->
  exists p',
    wrap_or_stop p eof = Ok p'
    /\ 0 <= play_pos_frames p' < loop_end_src p
    /\ play_state p' = play_state p.
Proof.
  intros Hloop Hs Ht Hpos.
  destruct (Z.le_gt_cases (loop_end_src p) (play_pos_frames p)) as [Hge|Hlt];
    [|destruct eof].
  - destruct (wrap_from_zero p eof Hloop Hs Ht Hpos (or_introl Hge))
      as (p' & E & Hr & _ & _ & Hst). eauto.
  - destruct (wrap_from_zero p true Hloop Hs Ht Hpos (or_intror eq_refl))
      as (p' & E & Hr & _ & _ & Hst). eauto.
  - exists p. unfold wrap_or_stop, Zneqb.
    destruct (Z.eqb_spec (loop p) 0); [contradiction|]. cbn [negb].
    destruct (Z.geb_spec (play_pos_frames p) (loop_end_src p)); [lia|].
    cbn [orb]. repeat split; lia.
Qed.

(** X4: with the loop from frame 0 to frame T > 0, for a whole period of a
    player that is playing: whatever the ring buffers hold, the position after
    the period lies in [0, T). *)
Theorem loop_from_zero_stays_in_loop (nFrames : Z) (p : AUDIO_PLAYER) :
  is_Some (ringbuffer_a p) -> is_Some (ringbuffer_b p) ->
  loop p <> 0 -> loop_start_src p = 0 -> 0 < loop_end_src p ->
  play_state p = PLAYING ->
  exists p',
    process_player nFrames p = Ok p'
    /\ 0 <= play_pos_frames p' < loop_end_src p
    /\ play_state p' = PLAYING.
Proof.
  intros [ra Ha] [rb Hb] Hloop Hs Ht Hplay. unfold process_player.
  rewrite Hplay. cbn [Z.eqb STARTING PLAYING andb orb Pos.eqb].
  rewrite Hplay. cbn [Z.eqb STARTING PLAYING andb orb Pos.eqb].
  rewrite Ha, Hb. cbn [live bind].
  destruct (drain_ring nFrames (pitch_shift p) ra rb) as [[[r a] ra'] rb'].
  match goal with
  | |- context [wrap_or_stop ?q0 _] => set (q := q0)
  end.
  match goal with
  | |- context [wrap_or_stop q ?e] => set (eof := e)
  end.
  destruct (wrap_or_stop_from_zero q eof Hloop Hs Ht (proj1 (u32_range _)))
    as (p' & E & Hr & Hst).
  rewrite E. cbn [bind]. rewrite Hst. change (play_state q) with (play_state p).
  rewrite Hplay. cbn [Z.eqb PLAYING STOPPING Pos.eqb].
  exists p'. split; [reflexivity|]. split; [exact Hr|].
  rewrite Hst. exact Hplay.
Qed.

Lemma loop_from_zero_stays_in_loop_example :
  exists p',
    process_player 256 (ex_player_loop 0 2000 1900 IDLE 99) = Ok p'
    /\ 0 <= play_pos_frames p' < 2000
    /\ play_state p' = PLAYING.
Proof.
  apply (loop_from_zero_stays_in_loop 256 (ex_player_loop 0 2000 1900 IDLE 99));
    try reflexivity; try discriminate; eexists; reflexivity.
Defined.

(** ** The process callback: MIDI notes *)

(** C6, at failing inputs: a note on for a player that has no file open.  The
    handler does not test [file_open] and resets ring buffers that were never
    created (after [add_player]) or are freed (after [unload]). *)
Theorem note_on_without_file_resets_dead_ringbuffer :
  valid_handle ex_added 0 (player_of ex_added 0)
  /\ file_open (player_of ex_added 0) = 0
  /\ midi_process ex_added (note_on 0 60 100) = UB DeadRingbuffer
  /\ on_jack_process ex_added 256 [note_on 0 60 100] = UB DeadRingbuffer
  /\ valid_handle ex_unloaded 0 (player_of ex_unloaded 0)
  /\ on_jack_process ex_unloaded 256 [note_on 0 60 100] = UB DeadRingbuffer.
Proof.
  split; [valid_tac|]. repeat (split; [reflexivity|]).
  split; [valid_tac|]. vm_compute. reflexivity.
Qed.




(** C8, at failing inputs: a note on with velocity 0 for note 61 while the
    last note played is another one (0 on the stopped player, 60 after a note
    on for 60).  The event falls through to the note on branch: the pitch
    ratio and the last note change and playback is started. *)
Theorem note_on_velocity_zero_other_note_starts :
  last_note_played ex_player = 0 /\ play_state ex_player = STOPPED
  /\ pitch_shift ex_player = 1%Q
  /\ (exists st',
        midi_process ex_loaded (note_on 0 61 0) = Ok st'
        /\ play_state (player_of st' 0) = STARTING
        /\ last_note_played (player_of st' 0) = 61
        /\ pitch_shift (player_of st' 0) = note_ratio 61
        /\ ~ (note_ratio 61 == 1)%Q)
  /\ last_note_played (player_of ex_note60 0) = 60
  /\ (exists st',
        midi_process ex_note60 (note_on 0 61 0) = Ok st'
        /\ last_note_played (player_of st' 0) = 61
        /\ pitch_shift (player_of st' 0) = note_ratio 61).
Proof.
  repeat (split; [reflexivity|]).
  split.
  - eexists. split; [vm_compute; reflexivity|].
    repeat (split; [reflexivity|]). intros H. vm_compute in H. discriminate H.
  - split; [reflexivity|]. eexists. split; [vm_compute; reflexivity|].
    split; reflexivity.
Qed.

(** X6: a note off, or a note on with velocity 0, for the last note played stops
    playback, sets the pitch ratio to 1 and clears the last note. *)
Theorem note_off_matching (st : state) (ev : midi_event) (p : AUDIO_PLAYER) :
  valid_handle st (Z.land (b0 ev) 15) p -> handle p = Z.land (b0 ev) 15 ->
  Z.land (b0 ev) 240 = 128 \/ (Z.land (b0 ev) 240 = 144 /\ b2 ev = 0) ->
  last_note_played p = b1 ev ->
  exists st' p',
    midi_process st ev = Ok st' /\ valid_handle st' (Z.land (b0 ev) 15) p'
    /\ pitch_shift p' = 1%Q /\ last_note_played p' = 0
    /\ play_state p' = (if play_state p =? STOPPED then STOPPED else STOPPING).
Proof.
  intros Hv Hh Hcmd Hnote. unfold midi_process. cbv zeta.
  rewrite (valid_players_read _ _ _ Hv). cbn [bind].
  assert (((Z.land (b0 ev) 240 =? 128)
           || (Z.land (b0 ev) 240 =? 144) && (b2 ev =? 0))
          && (last_note_played p =? b1 ev) = true) as ->.
  { rewrite Hnote, Z.eqb_refl, andb_true_r.
    destruct Hcmd as [-> | [-> ->]]; reflexivity. }
  rewrite Hh.
  destruct (stop_playback_valid _ _ _ Hv) as (st1 & p1 & E & Hv1 & Hu).
  rewrite E. cbn [bind]. rewrite (valid_deref _ _ _ Hv1). cbn [bind].
  eexists _, _. split; [reflexivity|]. split; [apply (valid_put _ _ _ Hv1)|].
  cbn. repeat split.
  unsnap_field Hu play_state. rewrite Hfield. unfold Zneqb.
  destruct (Z.eqb_spec (play_state p) STOPPED); [assumption|reflexivity].
Qed.

Lemma note_off_matching_example :
  exists st' p',
    midi_process ex_note60 (note_off 0 60) = Ok st' /\ valid_handle st' 0 p'
    /\ pitch_shift p' = 1%Q /\ last_note_played p' = 0
    /\ play_state p' = STOPPING.
Proof.
  apply (note_off_matching ex_note60 (note_off 0 60) (player_of ex_note60 0));
    try reflexivity; [|left; reflexivity].
  change (valid_handle ex_note60 0 (player_of ex_note60 0)). valid_tac.
Defined.

(** X7: a note off for another note than the last one played changes nothing. *)
Theorem note_off_other_note (st : state) (ev : midi_event) (p : AUDIO_PLAYER) :
  valid_handle st (Z.land (b0 ev) 15) p ->
  Z.land (b0 ev) 240 = 128 -> last_note_played p <> b1 ev ->
  midi_process st ev = Ok st.
Proof.
  intros Hv Hcmd Hnote. unfold midi_process. cbv zeta.
  rewrite (valid_players_read _ _ _ Hv). cbn [bind]. rewrite Hcmd.
  destruct (Z.eqb_spec (last_note_played p) (b1 ev)); [contradiction|].
  reflexivity.
Qed.

Lemma note_off_other_note_example :
  midi_process ex_note60 (note_off 0 61) = Ok ex_note60.
Proof.
  apply (note_off_other_note ex_note60 (note_off 0 61) (player_of ex_note60 0));
    [|reflexivity|discriminate].
  change (valid_handle ex_note60 0 (player_of ex_note60 0)). valid_tac.
Defined.

(** ** The file thread: the wait for space *)

(** C7, at a failing input: ring buffer A has room for the block of one
    frame, ring buffer B has not (3 bytes are free), the file is open and the
    thread is loading.  The wait loop's condition asks for both buffers to lack
    room, so the thread does not wait: it writes 3 bytes of the sample to B and
    then 3 bytes to A, and the underrun branch is not taken. *)
Theorem wait_passes_with_one_full_ringbuffer :
  file_open ex_player_uneven = 2
  /\ file_read_status ex_player_uneven = LOADING
  /\ (exists ra rb,
        ringbuffer_a ex_player_uneven = Some ra
        /\ ringbuffer_b ex_player_uneven = Some rb
        /\ RB.write_space ra = 31 /\ RB.write_space rb = 3)
  /\ wait_cond ex_player_uneven 1 = Ok false
  /\ wait_step ex_uneven 0 1 = Ok (ex_uneven, Proceed)
  /\ exists p' ra' rb',
       demux_block ex_player_uneven [1; 1]%Q 1 = Ok (p', false)
       /\ ringbuffer_a p' = Some ra' /\ ringbuffer_b p' = Some rb'
       /\ RB.read_space ra' = 3 /\ RB.read_space rb' = 31.
Proof.
  repeat (split; [reflexivity|]).
  split; [eexists _, _; repeat split|].
  repeat (split; [reflexivity|]).
  eexists _, _, _. split; [vm_compute; reflexivity|]. repeat split.
Qed.

Lemma write_le (rb : jack_ringbuffer_t) (s : Q) (cnt : Z) :
  snd (RB.write rb s cnt) <= Z.max 0 cnt.
Proof. unfold RB.write. cbn [snd]. lia. Qed.

(** X8: the branch that reports an underrun is never taken: the second write is
    asked for at most the 4 bytes the first one wrote, and the test is whether
    it wrote more than 4. *)
Theorem underrun_branch_unreachable (k : nat) :
  forall (frame : Z) (pBufferOut : list Q) (p p' : AUDIO_PLAYER) (taken : bool),
    demux_loop k frame pBufferOut p = Ok (p', taken) -> taken = false.
Proof.
  induction k as [|k IH]; intros frame buf p p' taken.
  - simpl. congruence.
  - cbn [demux_loop].
    destruct (demux_frame p buf frame) as [[fA fB]|]; cbn [bind]; [|discriminate].
    destruct (ringbuffer_b p) as [rb|]; cbn [live bind]; [|discriminate].
    destruct (ringbuffer_a p) as [ra|]; cbn [live bind]; [|discriminate].
    cbn [fst snd].
    pose proof (write_le rb fB 4) as Hb.
    pose proof (write_le ra fA (snd (RB.write rb fB 4))) as Ha.
    destruct (Z.ltb_spec 4 (snd (RB.write ra fA (snd (RB.write rb fB 4)))));
      [lia|].
    apply IH.
Qed.

Lemma underrun_branch_unreachable_example :
  exists p', demux_block ex_player_uneven [1; 1]%Q 1 = Ok (p', false).
Proof.
  destruct (demux_block ex_player_uneven [1; 1]%Q 1) as [[p' taken]|w] eqn:E.
  - exists p'. f_equal. f_equal.
    exact (underrun_branch_unreachable _ _ _ _ _ _ E).
  - vm_compute in E. discriminate E.
Defined.

(** X9: what the wait loop does guarantee: the thread goes on to write only when
    the read status is not IDLE and at least one of the ring buffers has room
    for the block, or when the file has been closed; till then it polls,
    changing nothing but notification snapshots. *)
Theorem wait_step_gate (st : state) (slot nFramesRead : Z) (p : AUDIO_PLAYER)
    (ra rb : jack_ringbuffer_t) :
  valid_handle st slot p -> handle p = slot ->
  ringbuffer_a p = Some ra -> ringbuffer_b p = Some rb ->
  exists st' g,
    wait_step st slot nFramesRead = Ok (st', g) /\ notified slot st st'
    /\ (g = Proceed ->
        file_open p = 0 \/
        (st' = st /\ file_read_status p <> IDLE /\
         (nFramesRead * 4 <= RB.write_space ra \/
          nFramesRead * 4 <= RB.write_space rb))).
Proof.
  intros Hv Hh Ha Hb. unfold wait_step, wait_cond.
  rewrite (valid_deref _ _ _ Hv). cbn [bind]. rewrite Ha, Hb. cbn [live bind].
  destruct (_ || _) eqn:Hc.
  - destruct (send_notifications_notified st slot p NOTIFY_ALL Hv (or_introl Hh))
      as (st1 & E & N).
    destruct (notified_valid _ _ _ _ N Hv) as (p1 & Hv1 & Hu).
    rewrite E. cbn [bind]. rewrite (valid_deref _ _ _ Hv1). cbn [bind].
    unsnap_field Hu file_open.
    destruct (Z.eqb_spec (file_open p1) 0) as [H0|H0];
      eexists _, _; (split; [reflexivity|]); (split; [exact N|]).
    + intros _. left. congruence.
    + discriminate.
  - exists st, Proceed. split; [reflexivity|].
    split; [exact (notified_refl _ _ _ Hv)|].
    intros _. right. apply orb_false_iff in Hc. destruct Hc as [Hsp Hidle].
    split; [reflexivity|]. split; [now apply Z.eqb_neq in Hidle|].
    apply andb_false_iff in Hsp. destruct Hsp as [H|H]; apply Z.ltb_ge in H; tauto.
Qed.

Lemma wait_step_gate_example :
  exists st' g,
    wait_step ex_uneven 0 1 = Ok (st', g) /\ notified 0 ex_uneven st'
    /\ (g = Proceed ->
        file_open ex_player_uneven = 0 \/
        (st' = ex_uneven /\ file_read_status ex_player_uneven <> IDLE /\
         (1 * 4 <= RB.write_space (RB.mk 32 []) \/
          1 * 4 <= RB.write_space (RB.mk 32 (replicate 28 (0%Q, 0)))))).
Proof.
  apply (wait_step_gate ex_uneven 0 1 ex_player_uneven); try reflexivity.
  valid_tac.
Defined.

(** ** Handles that name no player *)

(** X1: for a handle below 0, above [MAX_PLAYERS], or whose slot is empty,
    [get_player] answers NULL and every operation is a no-op or returns its
    neutral value. *)
Theorem invalid_handle_neutral (st : state) (h : Z) (q : Q) (v : Z)
    (env : open_env) (name : string) (cbo cbf : option Z) :
  h < 0 \/ MAX_PLAYERS < h \/ g_players st !! Z.to_nat h = Some None ->
  get_player st h = Ok None
  /\ load env st h name cbo cbf = Ok (st, 0)
  /\ unload st h = Ok st
  /\ remove_player st h = Ok st
  /\ set_gain st h q = Ok st /\ get_gain st h = Ok 0%Q
  /\ set_position st h q = Ok st /\ get_position st h = Ok 0%Q
  /\ set_loop_start_time st h q = Ok st /\ get_loop_start_time st h = Ok 0%Q
  /\ set_loop_end_time st h q = Ok st /\ get_loop_end_time st h = Ok 0%Q
  /\ enable_loop st h v = Ok st /\ is_loop st h = Ok 0
  /\ set_track_a st h v = Ok st /\ get_track_a st h = Ok 0
  /\ set_track_b st h v = Ok st /\ get_track_b st h = Ok 0
  /\ set_buffer_size st h v = Ok st /\ get_buffer_size st h = Ok 0
  /\ set_buffer_count st h v = Ok st /\ get_buffer_count st h = Ok 0
  /\ start_playback st h = Ok st /\ stop_playback st h = Ok st
  /\ get_playback_state st h = Ok STOPPED.
Proof.
  intros Hh.
  assert (Hget : get_player st h = Ok None).
  { unfold get_player, players_read.
    destruct (Z.gtb_spec h MAX_PLAYERS); [reflexivity|].
    destruct (Z.ltb_spec h 0); [reflexivity|]. cbn [orb].
    destruct Hh as [H1|[H1| ->]]; [lia|lia|reflexivity]. }
  unfold load, unload, remove_player, set_gain, get_gain, set_position,
    get_position, set_loop_start_time, get_loop_start_time, set_loop_end_time,
    get_loop_end_time, enable_loop, is_loop, set_track_a, get_track_a,
    set_track_b, get_track_b, set_buffer_size, get_buffer_size,
    set_buffer_count, get_buffer_count, start_playback, stop_playback,
    get_playback_state.
  rewrite Hget. cbn [bind ptr_of send_notifications]. repeat split.
Qed.

Lemma invalid_handle_neutral_example :
  get_player ex_loaded (-1) = Ok None
  /\ set_gain ex_loaded 99 (1 # 2) = Ok ex_loaded
  /\ get_gain ex_loaded 5 = Ok 0%Q.
Proof.
  pose proof (invalid_handle_neutral ex_loaded (-1) 0 0 ex_env EmptyString None None
                (or_introl eq_refl)) as H1.
  pose proof (invalid_handle_neutral ex_loaded 99 (1 # 2) 0 ex_env EmptyString None None
                (or_intror (or_introl eq_refl))) as H2.
  pose proof (invalid_handle_neutral ex_loaded 5 0 0 ex_env EmptyString None None
                (or_intror (or_intror eq_refl))) as H3.
  split; [apply H1|]. split; [apply H2|apply H3].
Defined.

(** ** Idempotence of [stop_playback] *)

Lemma with_play_state_same (q : AUDIO_PLAYER) :
  with_play_state (play_state q) q = q.
Proof. now destruct q. Qed.

Lemma stop_playback_closed_form (st : state) (h : Z) (p : AUDIO_PLAYER) :
  valid_handle st h p ->
  stop_playback st h =
  Ok (let p1 := if Zneqb (play_state p) STOPPED
                then with_play_state STOPPING p else p in
      if (file_open p1 =? 2) && Zneqb (last_play_state p1) (play_state p1)
      then let p2 := with_last_play_state (play_state p1) p1 in
           invoke_cb p2 NOTIFY_TRANSPORT (inject_Z (play_state p1))
             (put_player st h p2)
      else put_player st h p1).
Proof.
  intros Hv. unfold stop_playback.
  rewrite (valid_get_player _ _ _ Hv). cbn [bind ptr_of]. cbv zeta.
  destruct (Zneqb (play_state p) STOPPED).
  - rewrite (send_transport _ _ _ (valid_put _ _ _ Hv _)).
    cbv zeta. rewrite put_put. reflexivity.
  - rewrite (send_transport _ _ _ Hv), (put_same _ _ _ Hv). reflexivity.
Qed.

(** X10: whatever the transport state, a second [stop_playback] right after
    the first changes nothing and calls no callback. *)
Theorem stop_playback_twice (st : state) (h : Z) (p : AUDIO_PLAYER) :
  valid_handle st h p ->
  exists st', stop_playback st h = Ok st' /\ stop_playback st' h = Ok st'.
Proof.
  intros Hv. rewrite (stop_playback_closed_form _ _ _ Hv). cbv zeta.
  eexists. split; [reflexivity|].
  set (p1 := if Zneqb (play_state p) STOPPED then with_play_state STOPPING p else p).
  assert (Hp1 : (if Zneqb (play_state p1) STOPPED
                 then with_play_state STOPPING p1 else p1) = p1).
  { subst p1. unfold Zneqb.
    destruct (Z.eqb_spec (play_state p) STOPPED) as [E|E]; cbn [negb].
    - rewrite E. reflexivity.
    - reflexivity. }
  destruct ((file_open p1 =? 2) && Zneqb (last_play_state p1) (play_state p1)) eqn:Hc.
  - set (p2 := with_last_play_state (play_state p1) p1).
    assert (Hv2 : valid_handle
                    (invoke_cb p2 NOTIFY_TRANSPORT (inject_Z (play_state p1))
                       (put_player st h p2)) h p2)
      by apply valid_invoke, (valid_put _ _ _ Hv).
    rewrite (stop_playback_closed_form _ _ _ Hv2). cbv zeta.
    assert (Hp2 : (if Zneqb (play_state p2) STOPPED
                   then with_play_state STOPPING p2 else p2) = p2).
    { change (play_state p2) with (play_state p1).
      destruct (Zneqb (play_state p1) STOPPED) eqn:E; [|reflexivity].
      pose proof (f_equal play_state Hp1) as Hs. cbn in Hs.
      rewrite Hs. exact (with_play_state_same p2). }
    rewrite Hp2. change (last_play_state p2) with (play_state p1).
    change (play_state p2) with (play_state p1).
    unfold Zneqb at 1. rewrite Z.eqb_refl, andb_false_r.
    now rewrite (put_same _ _ _ Hv2).
  - pose proof (valid_put _ _ _ Hv p1) as Hv1.
    rewrite (stop_playback_closed_form _ _ _ Hv1). cbv zeta.
    rewrite Hp1, Hc. now rewrite (put_same _ _ _ Hv1).
Qed.

Lemma stop_playback_twice_example :
  valid_handle ex_note60 0 (player_of ex_note60 0)
  /\ exists st', stop_playback ex_note60 0 = Ok st' /\ stop_playback st' 0 = Ok st'.
Proof.
  assert (Hv : valid_handle ex_note60 0 (player_of ex_note60 0)) by valid_tac.
  split; [exact Hv|]. exact (stop_playback_twice ex_note60 0 _ Hv).
Defined.

(** ** The invariant of a player *)






(** ** Counting the players *)

Lemma count_from (l : list (option AUDIO_PLAYER)) (st : state) (m k : nat) (acc : Z) :
  g_players st = l -> (k + m)%nat = length l ->
  res_fold (fun count i =>
              do slot <- players_read st i;
              Ok (match slot with Some _ => count + 1 | None => count end))
    acc (map Z.of_nat (seq k m)) = Ok (acc + occupied (drop k l)).
Proof.
  intros Hl. revert k acc. induction m as [|m IH]; intros k acc Hlen.
  - simpl. rewrite drop_ge by lia. simpl. f_equal. lia.
  - cbn [seq map res_fold]. unfold players_read at 1. rewrite Nat2Z.id, Hl.
    destruct (l !! k) as [slot|] eqn:E.
    + cbn [bind]. rewrite IH by lia.
      rewrite (drop_S _ _ _ E). f_equal. destruct slot; simpl; lia.
    + apply lookup_ge_None in E. lia.
Qed.

Lemma get_player_count_occupied (st : state) :
  table_ok st -> get_player_count st = Ok (occupied (g_players st)).
Proof.
  intros Hlen. unfold get_player_count, slots.
  rewrite (count_from (g_players st) st _ 0 0 eq_refl) by (rewrite Hlen; reflexivity).
  now rewrite drop_0.
Qed.

Lemma occupied_range (l : list (option AUDIO_PLAYER)) :
  0 <= occupied l <= Z.of_nat (length l).
Proof. induction l as [|[p|] l IH]; simpl length; simpl occupied; lia. Qed.

Lemma occupied_insert (l : list (option AUDIO_PLAYER)) (i : nat)
    (old new : option AUDIO_PLAYER) :
  l !! i = Some old ->
  occupied (<[i := new]> l) =
  occupied l - occupied [old] + occupied [new].
Proof.
  revert i. induction l as [|x l IH]; intros [|i] H; try discriminate.
  - injection H as ->. destruct old, new; simpl; lia.
  - simpl in H. specialize (IH i H). destruct x; simpl in *; lia.
Qed.

Lemma occupied_replicate (n : nat) : occupied (replicate n None) = 0.
Proof. induction n; simpl; auto. Qed.

Lemma add_player_free (fresh : AUDIO_PLAYER) (st : state) (h : Z) :
  0 <= h < MAX_PLAYERS -> g_players st !! Z.to_nat h = Some None ->
  exists p,
    add_player fresh true true st h = Ok (put_player st h p, 1)
    /\ handle p = h /\ file_open p = 0.
Proof.
  intros [Hlo Hhi] E. unfold add_player, players_read.
  destruct (Z.geb_spec h 0); [|lia].
  destruct (Z.ltb_spec h MAX_PLAYERS); [|lia].
  rewrite E. cbn [andb bind negb]. cbv zeta.
  eexists. split; [reflexivity|]. split; reflexivity.
Qed.

(** X13: [add_player] never fails to return on a table of 17 slots.  When it
    returns 1 the handle was in range and its slot empty, and the count of
    players has grown by exactly one; when it returns 0 nothing has changed.
    The count never exceeds 17. *)
Theorem add_player_count (fresh : AUDIO_PLAYER) (allocated ports : bool)
    (st : state) (h : Z) :
  table_ok st ->
  exists st' r n,
    add_player fresh allocated ports st h = Ok (st', r)
    /\ get_player_count st = Ok n /\ 0 <= n <= MAX_PLAYERS
    /\ ((r = 1 /\ 0 <= h < MAX_PLAYERS
         /\ g_players st !! Z.to_nat h = Some None
         /\ allocated = true /\ ports = true
         /\ table_ok st' /\ get_player_count st' = Ok (n + 1)
         /\ exists p, valid_handle st' h p /\ handle p = h /\ file_open p = 0)
        \/ (r = 0 /\ st' = st)).
Proof.
  intros Hlen.
  rewrite (get_player_count_occupied _ Hlen).
  pose proof (occupied_range (g_players st)) as Hr.
  assert (Hn : 0 <= occupied (g_players st) <= MAX_PLAYERS).
  { rewrite Hlen in Hr. unfold MAX_PLAYERS in *. lia. }
  destruct (Z.geb_spec h 0) as [Hlo|Hlo];
    [|unfold add_player; destruct (Z.geb_spec h 0); [lia|]; cbn [andb]; eauto 10].
  destruct (Z.ltb_spec h MAX_PLAYERS) as [Hhi|Hhi];
    [|unfold add_player; destruct (Z.ltb_spec h MAX_PLAYERS); [lia|];
      rewrite andb_false_r; eauto 10].
  destruct (g_players st !! Z.to_nat h) as [slot|] eqn:E.
  2:{ apply lookup_ge_None in E. rewrite Hlen in E. lia. }
  assert (Hfail : forall a b, a = false \/ b = false \/ is_Some slot ->
            add_player fresh a b st h = Ok (st, 0)).
  { intros a b Hab. unfold add_player, players_read.
    destruct (Z.geb_spec h 0); [|lia]. destruct (Z.ltb_spec h MAX_PLAYERS); [|lia].
    rewrite E. cbn [andb bind]. destruct slot as [q|]; [reflexivity|].
    destruct Hab as [->|[->|[q Hq]]]; [reflexivity| |discriminate].
    now destruct a. }
  destruct slot as [q|]; [rewrite Hfail by eauto; eauto 10|].
  destruct allocated; [|rewrite Hfail by eauto; eauto 10].
  destruct ports; [|rewrite Hfail by eauto; eauto 10].
  destruct (add_player_free fresh st h (conj Hlo Hhi) E) as (p & Ep & Hh & Ho).
  rewrite Ep.
  exists (put_player st h p), 1, (occupied (g_players st)).
  split; [reflexivity|]. split; [reflexivity|]. split; [exact Hn|]. left.
  assert (Hlen' : table_ok (put_player st h p)).
  { unfold table_ok, put_player. simpl. now rewrite length_insert. }
  repeat split; try assumption; try lia.
  - rewrite (get_player_count_occupied _ Hlen'). simpl.
    rewrite (occupied_insert _ _ _ _ E). simpl. f_equal. lia.
  - exists p. repeat split; try lia; try assumption.
    simpl. apply list_lookup_insert_eq. eapply lookup_lt_Some, E.
Qed.

Lemma add_player_count_example :
  table_ok ex_added
  /\ exists st', add_player fresh0 true true ex_added 1 = Ok (st', 1)
       /\ get_player_count ex_added = Ok 1 /\ get_player_count st' = Ok 2
       /\ add_player fresh0 true true st' 1 = Ok (st', 0).
Proof.
  split; [reflexivity|].
  destruct (add_player_count fresh0 true true ex_added 1 eq_refl)
    as (st' & r & n & E & Hn & _ & [(-> & _ & _ & _ & _ & Hlen & Hc & _)|[Hr _]]).
  - exists st'. split; [exact E|]. split; [reflexivity|].
    assert (n = 1) as -> by (vm_compute in Hn; congruence).
    split; [exact Hc|].
    vm_compute in E. injection E as <-. reflexivity.
  - vm_compute in E. congruence.
Defined.

(** ** What an operation on one player leaves alone *)

Lemma frame_refl (h : Z) (st : state) : slot_frame h st st.
Proof. repeat split. Qed.

Lemma frame_trans (h : Z) (st1 st2 st3 : state) :
  slot_frame h st1 st2 -> slot_frame h st2 st3 -> slot_frame h st1 st3.
Proof.
  intros (L1 & F1 & C1 & S1 & D1) (L2 & F2 & C2 & S2 & D2).
  repeat split; try congruence.
  intros i Hi. now rewrite F2, F1.
Qed.

Lemma frame_put (h : Z) (st : state) (q : AUDIO_PLAYER) :
  slot_frame h st (put_player st h q).
Proof.
  repeat split; simpl.
  - apply length_insert.
  - intros i Hi. apply list_lookup_insert_ne. congruence.
Qed.

Lemma frame_invoke (h : Z) (st st' : state) (q : AUDIO_PLAYER) (t : notify) (v : Q) :
  slot_frame h st st' -> slot_frame h st (invoke_cb q t v st').
Proof. unfold invoke_cb. now destruct (cb_fn q). Qed.

Lemma notified_frame (h : Z) (st st' : state) :
  notified h st st' -> slot_frame h st st'.
Proof.
  intros (p & p' & Hv & _ & Hp & Hc & Hs & Hd).
  repeat split; try assumption; rewrite Hp.
  - apply length_insert.
  - intros i Hi. apply list_lookup_insert_ne. congruence.
Qed.

Lemma stop_playback_frame (st : state) (h : Z) (p : AUDIO_PLAYER) :
  valid_handle st h p ->
  exists st' p',
    stop_playback st h = Ok st' /\ valid_handle st' h p' /\ slot_frame h st st' /\
    unsnap p' = unsnap (if Zneqb (play_state p) STOPPED
                        then with_play_state STOPPING p else p).
Proof.
  intros Hv. rewrite (stop_playback_closed_form _ _ _ Hv). cbv zeta.
  set (p1 := if Zneqb (play_state p) STOPPED then with_play_state STOPPING p else p).
  destruct (_ && _).
  - eexists _, _. split; [reflexivity|].
    split; [apply valid_invoke, (valid_put _ _ _ Hv)|].
    split; [apply frame_invoke, frame_put|reflexivity].
  - eexists _, _. split; [reflexivity|].
    split; [apply (valid_put _ _ _ Hv)|].
    split; [apply frame_put|reflexivity].
Qed.

Lemma unload_frame (st : state) (h : Z) (p : AUDIO_PLAYER) :
  valid_handle st h p ->
  exists st' p',
    unload st h = Ok st' /\ valid_handle st' h p' /\ slot_frame h st st' /\
    file_open p' = 0 /\ handle p' = handle p.
Proof.
  intros Hv. unfold unload. rewrite (valid_get_player _ _ _ Hv). cbn [bind].
  destruct (Z.eqb_spec (file_open p) 0) as [Hc|Hc].
  { exists st, p. repeat split; try apply Hv; assumption. }
  destruct (stop_playback_frame _ _ _ Hv) as (st1 & p1 & E1 & Hv1 & F1 & Hu1).
  rewrite E1. cbn [bind]. rewrite (valid_deref _ _ _ Hv1). cbn [bind].
  assert (Hh : handle p1 = handle p).
  { unsnap_field Hu1 handle. now destruct (Zneqb (play_state p) STOPPED). }
  set (q := with_cb_fn None (with_file_open 0 p1)).
  pose proof (valid_put _ _ _ Hv1 q) as Hvq.
  assert (Fq : slot_frame h st (put_player st1 h q))
    by (eapply frame_trans; [exact F1|apply frame_put]).
  destruct (file_open p1 =? 2).
  - unfold file_thread_exit. rewrite (valid_deref _ _ _ Hvq). cbn [bind andb].
    match goal with
    | |- context [put_player (put_player st1 h q) h ?x] => set (p3 := x)
    end.
    pose proof (valid_put _ _ _ Hvq p3) as Hv3.
    rewrite (valid_deref _ _ _ Hv3). cbn [bind].
    eexists _, _. split; [reflexivity|]. split; [apply (valid_put _ _ _ Hv3)|].
    split; [|split; [reflexivity|exact Hh]].
    eapply frame_trans; [exact Fq|].
    eapply frame_trans; apply frame_put.
  - cbn [bind]. rewrite (valid_deref _ _ _ Hvq). cbn [bind].
    eexists _, _. split; [reflexivity|]. split; [apply (valid_put _ _ _ Hvq)|].
    split; [|split; [reflexivity|exact Hh]].
    eapply frame_trans; [exact Fq|apply frame_put].
Qed.

Lemma remove_player_table (st : state) (h : Z) (p : AUDIO_PLAYER) :
  valid_handle st h p ->
  exists st',
    remove_player st h = Ok st'
    /\ g_players st' = <[Z.to_nat h := None]> (g_players st)
    /\ g_jack_client st' = g_jack_client st
    /\ g_samplerate st' = g_samplerate st /\ g_debug st' = g_debug st.
Proof.
  intros Hv. unfold remove_player. rewrite (valid_get_player _ _ _ Hv). cbn [bind].
  destruct (unload_frame _ _ _ Hv) as (st1 & p1 & E & Hv1 & (L & F & C & S & D) & _).
  rewrite E. cbn [bind]. eexists. split; [reflexivity|].
  repeat split; try assumption. simpl.
  apply list_eq. intros i.
  destruct (decide (i = Z.to_nat h)) as [->|Hi].
  - rewrite !list_lookup_insert_eq; [reflexivity| |].
    + destruct Hv as [_ Hs]. eapply lookup_lt_Some, Hs.
    + destruct Hv1 as [_ Hs]. eapply lookup_lt_Some, Hs.
  - rewrite !list_lookup_insert_ne by congruence. now apply F.
Qed.

(** X14: [remove_player] on a valid handle returns, empties the slot and
    nothing else of the table, lowers the count of players by one, and leaves
    the handle free for [add_player]. *)
Theorem remove_player_frees_slot (st : state) (h : Z) (p : AUDIO_PLAYER) :
  table_ok st -> valid_handle st h p ->
  exists st' n,
    remove_player st h = Ok st' /\ table_ok st'
    /\ g_players st' = <[Z.to_nat h := None]> (g_players st)
    /\ get_player st' h = Ok None
    /\ get_player_count st = Ok n /\ get_player_count st' = Ok (n - 1)
    /\ forall fresh, exists st'', add_player fresh true true st' h = Ok (st'', 1).
Proof.
  intros Hlen Hv.
  destruct (remove_player_table _ _ _ Hv) as (st' & E & Hp & _).
  pose proof Hv as [[Hlo Hhi] Hs].
  assert (Hlt : (Z.to_nat h < length (g_players st))%nat)
    by (eapply lookup_lt_Some, Hs).
  assert (Hnone : g_players st' !! Z.to_nat h = Some None).
  { rewrite Hp. now apply list_lookup_insert_eq. }
  assert (Hlen' : table_ok st').
  { unfold table_ok. now rewrite Hp, length_insert. }
  exists st', (occupied (g_players st)).
  split; [exact E|]. split; [exact Hlen'|]. split; [exact Hp|].
  split; [|split; [now apply get_player_count_occupied|split]].
  - unfold get_player, players_read, MAX_PLAYERS in *.
    replace (h >? 17) with false by lia. replace (h <? 0) with false by lia.
    simpl. now rewrite Hnone.
  - rewrite (get_player_count_occupied _ Hlen'), Hp.
    rewrite (occupied_insert _ _ _ _ Hs). simpl. f_equal. lia.
  - intros fresh.
    destruct (add_player_free fresh st' h (conj Hlo Hhi) Hnone) as (q & E' & _).
    eauto.
Qed.

Lemma remove_player_frees_slot_example :
  table_ok ex_loaded /\ valid_handle ex_loaded 0 ex_player
  /\ exists st', remove_player ex_loaded 0 = Ok st' /\ get_player st' 0 = Ok None
       /\ get_player_count ex_loaded = Ok 1 /\ get_player_count st' = Ok 0.
Proof.
  assert (Hv : valid_handle ex_loaded 0 ex_player) by valid_tac.
  split; [reflexivity|]. split; [exact Hv|].
  destruct (remove_player_frees_slot ex_loaded 0 ex_player eq_refl Hv)
    as (st' & n & E & _ & _ & Hg & Hn & Hn' & _).
  exists st'. split; [exact E|]. split; [exact Hg|].
  assert (n = 1) as -> by (vm_compute in Hn; congruence).
  split; [reflexivity|exact Hn'].
Defined.

(** ** Closing down *)

Lemma remove_player_any (st : state) (i : Z) :
  table_ok st -> 0 <= i < MAX_PLAYERS ->
  exists st',
    remove_player st i = Ok st'
    /\ g_players st' = <[Z.to_nat i := None]> (g_players st)
    /\ g_samplerate st' = g_samplerate st /\ g_debug st' = g_debug st.
Proof.
  intros Hlen Hi.
  destruct (g_players st !! Z.to_nat i) as [[p|]|] eqn:E.
  - destruct (remove_player_table st i p (conj Hi E)) as (st' & E' & Hp & _ & Hs & Hd).
    exists st'. repeat split; assumption.
  - exists st. unfold remove_player, get_player, players_read, MAX_PLAYERS in *.
    replace (i >? 17) with false by lia. replace (i <? 0) with false by lia.
    simpl. rewrite E. simpl. repeat split. symmetry. now apply list_insert_id.
  - apply lookup_ge_None in E. rewrite Hlen in E. unfold MAX_PLAYERS in *. lia.
Qed.

Lemma remove_all (l : list Z) (st : state) :
  table_ok st -> (forall i, In i l -> 0 <= i < MAX_PLAYERS) ->
  exists st',
    res_fold remove_player st l = Ok st' /\ table_ok st'
    /\ (forall i, In i l -> g_players st' !! Z.to_nat i = Some None)
    /\ (forall k : nat, g_players st !! k = Some None -> g_players st' !! k = Some None)
    /\ g_samplerate st' = g_samplerate st /\ g_debug st' = g_debug st.
Proof.
  revert st. induction l as [|i l IH]; intros st Hlen Hin.
  - exists st. split; [reflexivity|]. split; [exact Hlen|].
    split; [intros i []|]. repeat split; trivial.
  - destruct (remove_player_any st i Hlen (Hin i (or_introl eq_refl)))
      as (st1 & E1 & Hp1 & Hs1 & Hd1).
    assert (Hlen1 : table_ok st1) by (unfold table_ok; now rewrite Hp1, length_insert).
    destruct (IH st1 Hlen1 (fun j Hj => Hin j (or_intror Hj)))
      as (st' & E' & Hlen' & Hl & Hk & Hs & Hd).
    exists st'. cbn [res_fold]. rewrite E1. cbn [bind].
    split; [exact E'|]. split; [exact Hlen'|].
    assert (Hi1 : g_players st1 !! Z.to_nat i = Some None).
    { rewrite Hp1. apply list_lookup_insert_eq. rewrite Hlen.
      specialize (Hin i (or_introl eq_refl)). unfold MAX_PLAYERS in *. lia. }
    repeat split; try congruence.
    + intros j [<-|Hj]; [now apply Hk|now apply Hl].
    + intros k Hk0. apply Hk. rewrite Hp1.
      destruct (decide (k = Z.to_nat i)) as [->|Hne]; [now rewrite <- Hp1|].
      now rewrite list_lookup_insert_ne by congruence.
Qed.

(** X15: [lib_stop] returns on every table of 17 slots, whatever its players
    are doing; afterwards every slot is empty, the count of players is 0 and
    the JACK client pointer is NULL, so that [lib_exit] finds nothing left to
    do. *)
Theorem lib_stop_empties_table (st : state) :
  table_ok st ->
  exists st',
    lib_stop st = Ok st'
    /\ g_players st' = replicate (Z.to_nat MAX_PLAYERS) None
    /\ g_jack_client st' = false
    /\ get_player_count st' = Ok 0
    /\ (g_jack_client st = true -> lib_exit st = Ok st')
    /\ lib_exit st' = Ok st'.
Proof.
  intros Hlen.
  destruct (remove_all slots st Hlen) as (st1 & E & Hlen1 & Hl & _).
  { intros i Hi. unfold slots in Hi. apply in_map_iff in Hi as (k & <- & Hk).
    apply in_seq in Hk. unfold MAX_PLAYERS in *. lia. }
  assert (Hp : g_players st1 = replicate (Z.to_nat MAX_PLAYERS) None).
  { apply list_eq. intros k.
    destruct (decide (k < Z.to_nat MAX_PLAYERS)%nat) as [Hk|Hk].
    - rewrite lookup_replicate_2 by exact Hk.
      rewrite <- (Nat2Z.id k). apply Hl. unfold slots.
      apply in_map, in_seq. lia.
    - rewrite (proj2 (lookup_ge_None _ _)) by (rewrite Hlen1; lia).
      symmetry. apply lookup_ge_None. rewrite length_replicate. lia. }
  exists (with_g_jack_client false st1). unfold lib_exit, lib_stop.
  rewrite E. cbn [bind]. split; [reflexivity|]. split; [exact Hp|].
  split; [reflexivity|]. split; [|split; [now intros ->|reflexivity]].
  rewrite get_player_count_occupied by exact Hlen1.
  simpl. rewrite Hp. now rewrite occupied_replicate.
Qed.

Lemma lib_stop_empties_table_example :
  table_ok ex_loaded
  /\ exists st', lib_stop ex_loaded = Ok st'
       /\ get_player st' 0 = Ok None /\ get_player_count st' = Ok 0.
Proof.
  split; [reflexivity|].
  destruct (lib_stop_empties_table ex_loaded eq_refl) as (st' & E & Hp & _ & Hc & _).
  exists st'. split; [exact E|]. split; [|exact Hc].
  unfold get_player, players_read. rewrite Hp. reflexivity.
Defined.

(** ** Converter quality *)

Lemma local_quality : local_param NOTIFY_QUALITY.
Proof. repeat split. Qed.

(** X16: on a valid handle whose file is open, a converter quality of at most
    SRC_LINEAR (4) is accepted with result 1 and read back; a greater one is
    rejected with result 0 and the stored quality is kept.  Without an open
    file every quality is rejected and [get_src_quality] answers 2. *)
Theorem set_src_quality_get_src_quality (st : state) (h : Z) (p : AUDIO_PLAYER)
    (quality : Z) :
  valid_handle st h p -> 0 <= quality ->
  (file_open p = 2 -> quality <= SRC_LINEAR ->
     exists st', set_src_quality st h quality = Ok (st', 1)
                 /\ get_src_quality st' h = Ok quality) /\
  (file_open p = 2 -> SRC_LINEAR < quality ->
     set_src_quality st h quality = Ok (st, 0)
     /\ get_src_quality st h = Ok (src_quality p)) /\
  (file_open p <> 2 ->
     set_src_quality st h quality = Ok (st, 0) /\ get_src_quality st h = Ok 2).
Proof.
  intros Hv Hq.
  unfold set_src_quality, get_src_quality. rewrite (valid_get_player _ _ _ Hv).
  cbn [bind]. unfold Zneqb. repeat split.
  - intros Hopen Hle. rewrite Hopen. cbn [Z.eqb Pos.eqb negb].
    destruct (Z.gtb_spec quality SRC_LINEAR); [lia|].
    destruct (send_notifications_notified
                (put_player st h (with_src_quality quality p)) h
                (with_src_quality quality p) NOTIFY_QUALITY) as (st' & E & N);
      [apply (valid_put _ _ _ Hv)|right; exact local_quality|].
    rewrite E. cbn [bind]. exists st'. split; [reflexivity|].
    destruct (notified_valid _ _ _ _ N (valid_put _ _ _ Hv _)) as (p' & Hv' & Hu).
    rewrite (valid_get_player _ _ _ Hv'). cbn [bind].
    unsnap_field Hu src_quality. unsnap_field Hu file_open.
    rewrite Hfield0, Hopen, Hfield. reflexivity.
  - rewrite H. cbn [Z.eqb Pos.eqb negb].
    destruct (Z.gtb_spec quality SRC_LINEAR); [reflexivity|lia].
  - now rewrite H.
  - destruct (Z.eqb_spec (file_open p) 2); [contradiction|reflexivity].
  - destruct (Z.eqb_spec (file_open p) 2); [contradiction|reflexivity].
Qed.

Lemma set_src_quality_get_src_quality_example :
  valid_handle ex_loaded 0 ex_player
  /\ (exists st', set_src_quality ex_loaded 0 4 = Ok (st', 1)
                  /\ get_src_quality st' 0 = Ok 4)
  /\ set_src_quality ex_loaded 0 5 = Ok (ex_loaded, 0)
  /\ get_src_quality ex_loaded 0 = Ok 2.
Proof.
  assert (Hv : valid_handle ex_loaded 0 ex_player) by valid_tac.
  split; [exact Hv|].
  destruct (set_src_quality_get_src_quality ex_loaded 0 ex_player 4 Hv)
    as (Hin & _); [lia|].
  destruct (set_src_quality_get_src_quality ex_loaded 0 ex_player 5 Hv)
    as (_ & Hout & _); [lia|].
  split; [apply Hin; [reflexivity|unfold SRC_LINEAR; lia]|].
  apply Hout; [reflexivity|unfold SRC_LINEAR; lia].
Defined.

(** ** Information on the loaded file *)

Lemma unload_settings (st : state) (h : Z) (p : AUDIO_PLAYER) :
  valid_handle st h p ->
  exists st' p',
    unload st h = Ok st' /\ valid_handle st' h p' /\ slot_frame h st st' /\
    file_open p' = 0 /\ settings p' = settings p.
Proof.
  intros Hv. unfold unload. rewrite (valid_get_player _ _ _ Hv). cbn [bind].
  destruct (Z.eqb_spec (file_open p) 0) as [Hc|Hc].
  { exists st, p. repeat split; try apply Hv; assumption. }
  destruct (stop_playback_frame _ _ _ Hv) as (st1 & p1 & E1 & Hv1 & F1 & Hu1).
  rewrite E1. cbn [bind]. rewrite (valid_deref _ _ _ Hv1). cbn [bind].
  assert (Hs : settings p1 = settings p).
  { apply (f_equal settings) in Hu1.
    now destruct (Zneqb (play_state p) STOPPED). }
  set (q := with_cb_fn None (with_file_open 0 p1)).
  pose proof (valid_put _ _ _ Hv1 q) as Hvq.
  assert (Fq : slot_frame h st (put_player st1 h q))
    by (eapply frame_trans; [exact F1|apply frame_put]).
  destruct (file_open p1 =? 2).
  - unfold file_thread_exit. rewrite (valid_deref _ _ _ Hvq). cbn [bind andb].
    match goal with
    | |- context [put_player (put_player st1 h q) h ?x] => set (p3 := x)
    end.
    pose proof (valid_put _ _ _ Hvq p3) as Hv3.
    rewrite (valid_deref _ _ _ Hv3). cbn [bind].
    eexists _, _. split; [reflexivity|]. split; [apply (valid_put _ _ _ Hv3)|].
    split; [|split; [reflexivity|exact Hs]].
    eapply frame_trans; [exact Fq|].
    eapply frame_trans; apply frame_put.
  - cbn [bind]. rewrite (valid_deref _ _ _ Hvq). cbn [bind].
    eexists _, _. split; [reflexivity|]. split; [apply (valid_put _ _ _ Hvq)|].
    split; [|split; [reflexivity|exact Hs]].
    eapply frame_trans; [exact Fq|apply frame_put].
Qed.

Lemma thread_init_closed_form (env : open_env) (sr : Z) (p : AUDIO_PLAYER) :
  thread_init env sr p =
  if src_created env then opened_player sr p
  else with_file_open 0 (opened_player sr p).
Proof.
  unfold opened_player, settled_ratio, thread_init.
  destruct (src_created env); destruct (Qltb _ _); reflexivity.
Qed.








(** X18: [unload] on a valid handle returns, and afterwards the queries on
    the file answer their defaults: no name, no duration, no channels, frames
    or format, the rate of the JACK server as samplerate (also after the
    server has changed it; a rate of 0 is not taken over), quality 2, gain 0,
    no loop, transport STOPPED; [save] returns 0.  The buffer size and count
    and the loop bounds are still reported as they were. *)
Theorem unload_closes_file (st : state) (h : Z) (p : AUDIO_PLAYER)
    (name : string) :
  valid_handle st h p ->
  exists st',
    unload st h = Ok st'
    /\ get_filename st' h = Ok EmptyString
    /\ get_duration st' h = Ok 0%Q
    /\ get_channels st' h = Ok 0 /\ get_frames st' h = Ok 0
    /\ get_format st' h = Ok 0
    /\ get_samplerate st' h = Ok (to_int (g_samplerate st))
    /\ (forall n, n <> 0 ->
          get_samplerate (on_jack_samplerate st' n) h = Ok (to_int n))
    /\ on_jack_samplerate st' 0 = st'
    /\ get_src_quality st' h = Ok 2 /\ get_gain st' h = Ok 0%Q
    /\ is_loop st' h = Ok 0 /\ get_playback_state st' h = Ok STOPPED
    /\ save st' h name = Ok 0
    /\ get_buffer_size st' h = Ok (input_buffer_size p)
    /\ get_buffer_count st' h = Ok (buffer_count p)
    /\ get_loop_start_time st' h = get_loop_start_time st h
    /\ get_loop_end_time st' h = get_loop_end_time st h.
Proof.
  intros Hv.
  destruct (unload_settings _ _ _ Hv) as (st' & p' & E & Hv' & (_ & _ & _ & S & _) & Hc & Hset).
  injection Hset as _ _ Hls Hle _ _ _ _ _ Hbs Hbc _ Hi _.
  exists st'. split; [exact E|].
  assert (Hg : forall s, g_players s = g_players st' ->
                 get_player s h = Ok (Some p')).
  { intros s Hs. apply valid_get_player. destruct Hv' as [Hr Hl].
    split; [exact Hr|]. now rewrite Hs. }
  unfold get_filename, get_duration, get_channels, get_frames, get_format,
    get_samplerate, get_src_quality, get_gain, is_loop, get_playback_state,
    save, get_buffer_size, get_buffer_count, get_loop_start_time,
    get_loop_end_time.
  rewrite (valid_get_player _ _ _ Hv'), (valid_get_player _ _ _ Hv). cbn [bind].
  unfold Zneqb. rewrite Hc, Hls, Hle, Hi, Hbs, Hbc, S. cbn [Z.eqb negb andb].
  repeat split.
  - intros n Hn. unfold on_jack_samplerate, Zneqb.
    destruct (Z.eqb_spec n 0); [contradiction|]. cbn [negb].
    rewrite Hg by reflexivity. cbn [bind]. now rewrite Hc.
Qed.

Lemma unload_closes_file_example :
  valid_handle ex_loaded 0 ex_player
  /\ get_channels ex_loaded 0 = Ok 2
  /\ exists st', unload ex_loaded 0 = Ok st'
       /\ get_channels st' 0 = Ok 0 /\ get_samplerate st' 0 = Ok 44100
       /\ get_filename st' 0 = Ok EmptyString.
Proof.
  assert (Hv : valid_handle ex_loaded 0 ex_player) by valid_tac.
  split; [exact Hv|]. split; [reflexivity|].
  destruct (unload_closes_file ex_loaded 0 ex_player EmptyString Hv)
    as (st' & E & Hn & _ & Hc & _ & _ & Hs & _).
  exists st'. repeat split; assumption.
Defined.

(** ** The debug flag *)

Lemma notify_block_last_debug (slot : Z) (param type : notify) changed snap value
    (st st' : state) :
  notify_block slot param type changed snap value st = Ok st' ->
  g_last_debug st' = g_last_debug st.
Proof.
  unfold notify_block.
  destruct (selected param type); [|now intros [= <-]].
  destruct (deref st slot) as [p|]; [|discriminate]. cbn [bind].
  destruct (changed st p) as [[]|]; [|now intros [= <-]|discriminate]. cbn [bind].
  destruct (snap st p) as [p'|]; [|discriminate]. cbn [bind].
  destruct (cb_fn p') eqn:Ef; [|now intros [= <-]].
  destruct (value _ p'); [|discriminate]. cbn [bind].
  intros [= <-]. unfold invoke_cb. now rewrite Ef.
Qed.

(** The nine blocks of [send_notifications] that precede the debug block:
    they leave the debug snapshot alone. *)
Lemma send_notifications_debug (st : state) (h : Z) (p : AUDIO_PLAYER)
    (param : notify) :
  valid_handle st h p -> handle p = h \/ local_param param -> file_open p = 2 ->
  exists s q,
    notified h st s /\ valid_handle s h q /\ unsnap q = unsnap p
    /\ g_last_debug s = g_last_debug st
    /\ send_notifications st (Some h) param =
       Ok (if selected param NOTIFY_DEBUG && Zneqb (g_debug st) (g_last_debug st)
           then invoke_cb q NOTIFY_DEBUG (inject_Z (g_debug st))
                  (with_g_last_debug (g_debug st) s)
           else s).
Proof.
  intros Hv Hh Hopen. unfold send_notifications.
  rewrite (valid_deref _ _ _ Hv). cbn [bind].
  unfold Zneqb at 1. rewrite Hopen. cbn [Z.eqb Pos.eqb negb].
  set (R := fun s => notified h st s /\ g_last_debug s = g_last_debug st).
  set (G := fun r : res state => exists s q,
    notified h st s /\ valid_handle s h q /\ unsnap q = unsnap p
    /\ g_last_debug s = g_last_debug st
    /\ r = Ok (if selected param NOTIFY_DEBUG && Zneqb (g_debug st) (g_last_debug st)
               then invoke_cb q NOTIFY_DEBUG (inject_Z (g_debug st))
                      (with_g_last_debug (g_debug st) s)
               else s)).
  match goal with
  | |- exists s q, _ /\ _ /\ _ /\ _ /\ ?r = _ => change (G r)
  end.
  assert (step : forall type changed snap value k (s : state),
    (selected param type = true -> block_ok h p changed snap value) ->
    R s -> (forall s', R s' -> G (k s')) ->
    G (bind (notify_block h param type changed snap value s) k)).
  { intros type changed snap value k s Hb [Hn Hd] Hk.
    destruct (notified_valid _ _ _ _ Hn Hv) as (q & Hq & Hu).
    destruct (notify_block_notified h param type changed snap value s q) as (s' & E & N);
      [|exact Hq|].
    - intros Hsel s0 q0 Hq0 Hu0. apply (Hb Hsel s0 q0 Hq0). congruence.
    - rewrite E. cbn [bind]. apply Hk. split.
      + eapply notified_trans; eassumption.
      + rewrite (notify_block_last_debug _ _ _ _ _ _ _ _ E). exact Hd. }
  apply step; [block_pure|split; eauto using notified_refl|]; intros s1 N1.
  apply step; [block_handle Hh get_position_ok|exact N1|]; intros s2 N2.
  apply step; [block_pure|exact N2|]; intros s3 N3.
  apply step; [block_pure|exact N3|]; intros s4 N4.
  apply step; [block_handle Hh get_loop_start_time_ok|exact N4|]; intros s5 N5.
  apply step; [block_handle Hh get_loop_end_time_ok|exact N5|]; intros s6 N6.
  apply step; [block_pure|exact N6|]; intros s7 N7.
  apply step; [block_pure|exact N7|]; intros s8 N8.
  apply step; [block_pure|exact N8|]; intros s9 [N9 D9].
  destruct (notified_valid _ _ _ _ N9 Hv) as (q & Hq & Hu).
  exists s9, q. split; [exact N9|]. split; [exact Hq|]. split; [exact Hu|].
  split; [exact D9|].
  destruct N9 as (a & a' & _ & _ & _ & _ & _ & Hdbg).
  rewrite (valid_deref _ _ _ Hq). cbn [bind]. cbv zeta.
  change (g_debug (with_g_last_debug (g_debug s9) s9)) with (g_debug s9).
  rewrite !Hdbg, D9.
  now destruct (_ && _).
Qed.

(** X19: [enable_debug] stores its argument modulo 256, so that 256 switches
    debugging off.  The next notification pass of a player with an open file
    brings the debug snapshot up to date and, when the flag differs from the
    snapshot and a callback is registered, reports the flag to that player's
    callback; the snapshot is one per library, so afterwards a pass for
    NOTIFY_DEBUG on any player changes nothing and calls nothing. *)
Theorem debug_notified_once (st : state) (h : Z) (p : AUDIO_PLAYER) (enable : Z) :
  valid_handle st h p -> handle p = h -> file_open p = 2 ->
  is_debug (enable_debug st enable) = u8 enable /\
  exists st1,
    send_notifications (enable_debug st enable) (Some h) NOTIFY_ALL = Ok st1
    /\ is_debug st1 = u8 enable /\ g_last_debug st1 = u8 enable
    /\ (forall f, cb_fn p = Some f -> u8 enable <> g_last_debug st ->
          head (cb_log st1) =
          Some (mkEvent f (cb_object p) h NOTIFY_DEBUG (inject_Z (u8 enable))))
    /\ (forall h2 p2, valid_handle st1 h2 p2 ->
          send_notifications st1 (Some h2) NOTIFY_DEBUG = Ok st1).
Proof.
  intros Hv Hh Hopen. split; [reflexivity|].
  assert (Hv0 : valid_handle (enable_debug st enable) h p) by exact Hv.
  destruct (send_notifications_debug _ h p NOTIFY_ALL Hv0 (or_introl Hh) Hopen)
    as (s & q & N & Hq & Hu & D & E).
  destruct N as (_ & _ & _ & _ & _ & _ & _ & Hdbg).
  change (g_debug (enable_debug st enable)) with (u8 enable) in *.
  change (g_last_debug (enable_debug st enable)) with (g_last_debug st) in *.
  eexists. split; [exact E|]. cbn [selected notify_eqb orb andb].
  unsnap_field Hu cb_fn. unsnap_field Hu cb_object. unsnap_field Hu handle.
  assert (Hquiet : forall s1 : state, g_debug s1 = g_last_debug s1 ->
            forall h2 p2, valid_handle s1 h2 p2 ->
              send_notifications s1 (Some h2) NOTIFY_DEBUG = Ok s1).
  { intros s1 Heq h2 p2 Hv2. unfold send_notifications.
    rewrite (valid_deref _ _ _ Hv2). cbn [bind].
    destruct (Zneqb (file_open p2) 2); [reflexivity|].
    unfold notify_block. cbn [selected notify_eqb orb andb bind].
    unfold Zneqb. now rewrite Heq, Z.eqb_refl. }
  unfold is_debug, Zneqb.
  destruct (Z.eqb_spec (u8 enable) (g_last_debug st)) as [Heq|Hne]; cbn [negb].
  - repeat split; try congruence.
    apply Hquiet. congruence.
  - unfold invoke_cb. rewrite Hfield.
    destruct (cb_fn p) as [f|] eqn:Ef; cbn.
    + repeat split; try assumption.
      * intros f0 [= <-] _. now rewrite Hfield0, Hfield1, Hh.
      * apply (Hquiet (with_cb_log _ (with_g_last_debug (u8 enable) s))).
        exact Hdbg.
    + repeat split; try assumption; [discriminate|].
      apply (Hquiet (with_g_last_debug (u8 enable) s)). exact Hdbg.
Qed.

Lemma debug_notified_once_example :
  valid_handle ex_loaded 0 ex_player
  /\ is_debug (enable_debug ex_loaded 256) = 0
  /\ exists st1,
       send_notifications (enable_debug ex_loaded 1) (Some 0) NOTIFY_ALL = Ok st1
       /\ head (cb_log st1) = Some (mkEvent 7 (Some 1) 0 NOTIFY_DEBUG 1%Q)
       /\ send_notifications st1 (Some 0) NOTIFY_DEBUG = Ok st1.
Proof.
  assert (Hv : valid_handle ex_loaded 0 ex_player) by valid_tac.
  split; [exact Hv|].
  split; [exact (proj1 (debug_notified_once ex_loaded 0 ex_player 256 Hv eq_refl eq_refl))|].
  destruct (debug_notified_once ex_loaded 0 ex_player 1 Hv eq_refl eq_refl)
    as (_ & st1 & E & _ & _ & Hlog & Hq).
  exists st1. split; [exact E|]. split; [apply Hlog; [reflexivity|discriminate]|].
  assert (E1 : exists q, valid_handle st1 0 q).
  { vm_compute in E. injection E as <-. eexists. valid_tac. }
  destruct E1 as (q & Hq1). exact (Hq 0 q Hq1).
Defined.

(** ** The process callback: the transport *)

Lemma wrap_or_stop_ok (p : AUDIO_PLAYER) (eof : bool) :
  loop p = 0 \/ loop_end_src p <> 0 ->
  exists p',
    wrap_or_stop p eof = Ok p'
    /\ (loop p <> 0 -> play_state p' = play_state p)
    /\ (loop p = 0 ->
        p' = p \/ (play_state p' = STOPPING /\ play_pos_frames p' = 0
                   /\ file_read_status p' = SEEKING))
    /\ handle p' = handle p /\ file_open p' = file_open p /\ loop p' = loop p
    /\ loop_end_src p' = loop_end_src p
    /\ ringbuffer_a p' = ringbuffer_a p /\ ringbuffer_b p' = ringbuffer_b p.
Proof.
  intros H. unfold wrap_or_stop, Zneqb.
  destruct (Z.eqb_spec (loop p) 0) as [Hl|Hl]; cbn [negb].
  - destruct (_ || _); eexists; (split; [reflexivity|]); cbn; tauto.
  - destruct H as [H|H]; [contradiction|].
    destruct (_ || _); [|eexists; (split; [reflexivity|]); cbn; tauto].
    destruct (Z.eqb_spec (loop_end_src p) 0); [contradiction|].
    eexists; (split; [reflexivity|]); cbn; tauto.
Qed.

(** One period for one player with an open file. *)
Lemma process_player_ok (nFrames : Z) (p : AUDIO_PLAYER) :
  is_Some (ringbuffer_a p) -> is_Some (ringbuffer_b p) ->
  loop p = 0 \/ loop_end_src p <> 0 ->
  exists p',
    process_player nFrames p = Ok p'
    /\ play_state p' <> STOPPING
    /\ (play_state p = STOPPING -> play_state p' = STOPPED)
    /\ (play_state p = PLAYING \/
        (play_state p = STARTING /\ file_read_status p <> SEEKING) ->
        (loop p <> 0 -> play_state p' = PLAYING) /\
        (loop p = 0 ->
         play_state p' = PLAYING \/
         (play_state p' = STOPPED /\ play_pos_frames p' = 0
          /\ file_read_status p' = SEEKING)))
    /\ handle p' = handle p /\ file_open p' = file_open p /\ loop p' = loop p
    /\ loop_end_src p' = loop_end_src p
    /\ is_Some (ringbuffer_a p') /\ is_Some (ringbuffer_b p').
Proof.
  intros [ra Ha] [rb Hb] Hl. unfold process_player. cbv zeta.
  set (p0 := if (play_state p =? STARTING) && Zneqb (file_read_status p) SEEKING
             then with_play_state PLAYING p else p).
  assert (H0 : handle p0 = handle p /\ file_open p0 = file_open p /\ loop p0 = loop p
               /\ loop_end_src p0 = loop_end_src p
               /\ ringbuffer_a p0 = Some ra /\ ringbuffer_b p0 = Some rb
               /\ (play_state p = STOPPING -> play_state p0 = STOPPING)
               /\ (play_state p = PLAYING \/
                   (play_state p = STARTING /\ file_read_status p <> SEEKING) ->
                   play_state p0 = PLAYING)).
  { subst p0. unfold Zneqb.
    destruct (Z.eqb_spec (play_state p) STARTING) as [E|E]; cbn [andb].
    - destruct (Z.eqb_spec (file_read_status p) SEEKING) as [F|F]; cbn;
        repeat split; try assumption;
        intros; unfold STARTING, STOPPING, PLAYING in *; intuition congruence.
    - repeat split; auto. intros [?|[? _]]; [assumption|contradiction]. }
  destruct H0 as (Hh & Ho & Hlo & Hle & Ha0 & Hb0 & Hst & Hpl).
  clearbody p0.
  match goal with
  | |- exists p', bind ?m _ = _ /\ _ =>
    assert (Hmid : exists p1, m = Ok p1
      /\ (play_state p0 = STOPPING -> play_state p1 = STOPPING)
      /\ (play_state p0 = PLAYING ->
          (loop p <> 0 -> play_state p1 = PLAYING) /\
          (loop p = 0 ->
           play_state p1 = PLAYING \/
           (play_state p1 = STOPPING /\ play_pos_frames p1 = 0
            /\ file_read_status p1 = SEEKING)))
      /\ handle p1 = handle p /\ file_open p1 = file_open p /\ loop p1 = loop p
      /\ loop_end_src p1 = loop_end_src p
      /\ is_Some (ringbuffer_a p1) /\ is_Some (ringbuffer_b p1))
  end.
  { destruct (_ || _).
    - rewrite Ha0, Hb0. cbn [live bind].
      destruct (drain_ring nFrames (pitch_shift p0) ra rb) as [[[r a] ra0] rb0].
      match goal with
      | |- context [wrap_or_stop ?x ?e] =>
          destruct (wrap_or_stop_ok x e)
            as (p1 & E & Hon & Hoff & H1 & H2 & H3 & H4 & H5 & H6)
      end.
      { cbn. rewrite Hlo, Hle. exact Hl. }
      exists p1. split; [exact E|]. cbn in Hon, Hoff, H1, H2, H3, H4, H5, H6.
      rewrite H1, H2, H3, H4, H5, H6, Hlo in *.
      repeat split; try congruence; try (eexists; reflexivity).
      + intros Hs. destruct (Z.eq_dec (loop p) 0) as [Hz|Hz].
        * destruct (Hoff Hz) as [->|(? & _)]; [exact Hs|assumption].
        * now rewrite (Hon Hz).
      + intros Hz. now rewrite (Hon Hz).
      + intros Hz. destruct (Hoff Hz) as [->|?]; [left; assumption|right; assumption].
    - exists p0. rewrite Ha0, Hb0.
      repeat split; try assumption; try (eexists; reflexivity); tauto. }
  destruct Hmid as (p1 & E & Hst1 & Hpl1 & H1 & H2 & H3 & H4 & H5 & H6).
  rewrite E. cbn [bind].
  destruct (Z.eqb_spec (play_state p1) STOPPING) as [Es|Es].
  - eexists. split; [reflexivity|]. cbn.
    split; [discriminate|]. split; [reflexivity|].
    split; [|repeat split; assumption].
    intros Hp. destruct (Hpl1 (Hpl Hp)) as [Hon Hoff]. split; intros Hz.
    + rewrite (Hon Hz) in Es. discriminate Es.
    + destruct (Hoff Hz) as [Hq|(_ & Hq1 & Hq2)];
        [unfold PLAYING, STOPPING in *; congruence|].
      right. repeat split; assumption.
  - exists p1. split; [reflexivity|]. split; [exact Es|].
    split; [intros Hs; exfalso; apply Es, Hst1, Hst, Hs|].
    split; [|repeat split; assumption].
    intros Hp. destruct (Hpl1 (Hpl Hp)) as [Hon Hoff]. split; intros Hz.
    + now apply Hon.
    + destruct (Hoff Hz) as [Hq|(Hq & _)]; [left; exact Hq|contradiction].
Qed.

Lemma process_player_idle (nFrames : Z) (p : AUDIO_PLAYER) :
  play_state p = STOPPED \/
  (play_state p = STARTING /\ file_read_status p = SEEKING) ->
  process_player nFrames p = Ok p.
Proof.
  intros [H|[H1 H2]]; unfold process_player, Zneqb.
  - rewrite H. change (STOPPED =? STARTING) with false. cbn [andb].
    rewrite H. change ((STOPPED =? PLAYING) || (STOPPED =? STOPPING)) with false.
    cbn [bind]. rewrite H. reflexivity.
  - rewrite H1, H2. change (STARTING =? STARTING) with true.
    change (SEEKING =? SEEKING) with true. cbn [negb andb].
    rewrite H1. change ((STARTING =? PLAYING) || (STARTING =? STOPPING)) with false.
    cbn [bind]. rewrite H1. reflexivity.
Qed.

Lemma servable_put (st : state) (i : Z) (q : AUDIO_PLAYER) :
  playable st -> servable q -> playable (put_player st i q).
Proof.
  intros [Hlen Hall] Hq. split.
  - unfold table_ok. simpl. now rewrite length_insert.
  - intros k p. simpl. intros Hk.
    destruct (decide (k = Z.to_nat i)) as [->|Hne].
    + apply list_lookup_insert_Some in Hk as [(_ & [= <-] & _)|(Hne & _)];
        [exact Hq|contradiction].
    + rewrite list_lookup_insert_ne in Hk by congruence. eapply Hall, Hk.
Qed.

Lemma process_slot_served (nFrames : Z) (st : state) (i : Z) :
  playable st -> 0 <= i < MAX_PLAYERS ->
  exists st1,
    process_slot nFrames st i = Ok st1 /\ playable st1
    /\ cb_log st1 = cb_log st /\ g_jack_client st1 = g_jack_client st
    /\ g_samplerate st1 = g_samplerate st
    /\ (forall k : nat, k <> Z.to_nat i -> g_players st1 !! k = g_players st !! k)
    /\ served nFrames (g_players st !! Z.to_nat i) (g_players st1 !! Z.to_nat i).
Proof.
  intros Hp Hi. pose proof Hp as [Hlen Hall].
  unfold process_slot, players_read, served.
  destruct (g_players st !! Z.to_nat i) as [[p|]|] eqn:E.
  - cbn [bind]. unfold Zneqb.
    destruct (Z.eqb_spec (file_open p) 2) as [Ho|Ho]; cbn [negb].
    + destruct (Hall _ _ E Ho) as (Ha & Hb & Hl).
      destruct (process_player_ok nFrames p Ha Hb Hl)
        as (p' & Ep & _ & _ & _ & _ & Ho' & Hl' & Hle' & Ha' & Hb').
      rewrite Ep. cbn [bind]. eexists. split; [reflexivity|].
      split; [|repeat split].
      * apply servable_put; [exact Hp|]. intros _.
        rewrite Hl', Hle'. tauto.
      * intros k Hk. simpl. apply list_lookup_insert_ne. congruence.
      * exists p'. split; [reflexivity|]. simpl.
        apply list_lookup_insert_eq. eapply lookup_lt_Some, E.
    + exists st. rewrite E. split; [reflexivity|]. split; [exact Hp|].
      repeat split.
  - exists st. rewrite E. split; [reflexivity|]. split; [exact Hp|].
    repeat split.
  - apply lookup_ge_None in E. rewrite Hlen in E. unfold MAX_PLAYERS in *. lia.
Qed.

Lemma audio_fold (nFrames : Z) (l : list Z) :
  NoDup l -> (forall i, In i l -> 0 <= i < MAX_PLAYERS) ->
  forall st, playable st ->
  exists st',
    res_fold (process_slot nFrames) st l = Ok st' /\ playable st'
    /\ cb_log st' = cb_log st /\ g_jack_client st' = g_jack_client st
    /\ g_samplerate st' = g_samplerate st
    /\ forall k : nat,
         (In (Z.of_nat k) l ->
          served nFrames (g_players st !! k) (g_players st' !! k)) /\
         (~ In (Z.of_nat k) l -> g_players st' !! k = g_players st !! k).
Proof.
  induction l as [|i l IH]; intros Hnd Hin st Hp.
  - exists st. split; [reflexivity|]. split; [exact Hp|].
    repeat split; try assumption. intros [].
  - apply NoDup_cons in Hnd as [Hi Hnd]. rewrite list_elem_of_In in Hi.
    assert (Hr : 0 <= i < MAX_PLAYERS) by (apply Hin; now left).
    destruct (process_slot_served nFrames st i Hp Hr)
      as (st1 & E1 & Hp1 & Hc1 & Hj1 & Hs1 & Hf1 & Hserved).
    destruct (IH Hnd (fun j Hj => Hin j (or_intror Hj)) st1 Hp1)
      as (st' & E' & Hp' & Hc' & Hj' & Hs' & Hk').
    exists st'. cbn [res_fold]. rewrite E1. cbn [bind].
    split; [exact E'|]. split; [exact Hp'|].
    repeat split; try congruence.
    + intros [Hk|Hk].
      * subst i. rewrite Nat2Z.id in *.
        destruct (Hk' k) as [_ Hsame]. rewrite Hsame by exact Hi. exact Hserved.
      * destruct (Hk' k) as [Hs _]. specialize (Hs Hk).
        rewrite Hf1 in Hs; [exact Hs|].
        intros ->. apply Hi. rewrite Z2Nat.id in Hk by lia. exact Hk.
    + intros Hk. destruct (Hk' k) as [_ Hsame].
      rewrite Hsame by (intros ?; apply Hk; now right).
      apply Hf1. intros ->. apply Hk. left. rewrite Z2Nat.id by lia. reflexivity.
Qed.

(** The process callback without MIDI events: every slot is served once. *)
Lemma audio_loop_served (st : state) (nFrames : Z) :
  playable st ->
  exists st',
    on_jack_process st nFrames [] = Ok st' /\ playable st'
    /\ cb_log st' = cb_log st /\ g_jack_client st' = g_jack_client st
    /\ g_samplerate st' = g_samplerate st
    /\ forall k : nat, served nFrames (g_players st !! k) (g_players st' !! k).
Proof.
  intros Hp. unfold on_jack_process.
  destruct (audio_fold nFrames slots) with (st := st)
    as (st' & E & Hp' & Hc & Hj & Hs & Hk).
  - change (NoDup (Z.of_nat <$> seq 0 (Z.to_nat MAX_PLAYERS))).
    apply NoDup_fmap_2; [intros a b; lia|apply NoDup_seq].
  - intros i Hi. unfold slots in Hi. apply in_map_iff in Hi as (k & <- & Hk).
    apply in_seq in Hk. unfold MAX_PLAYERS in *. lia.
  - exact Hp.
  - unfold slots in E. rewrite E. cbn [bind res_fold].
    exists st'. split; [reflexivity|]. split; [exact Hp'|].
    repeat split; try assumption.
    intros k. destruct (decide (k < Z.to_nat MAX_PLAYERS)%nat) as [Hlt|Hge].
    + apply (Hk k). unfold slots. apply in_map, in_seq. lia.
    + destruct (Hk k) as [_ Hsame]. rewrite Hsame.
      * destruct Hp as [Hlen _].
        rewrite (proj2 (lookup_ge_None _ _)) by (rewrite Hlen; lia). reflexivity.
      * unfold slots. intros Hi. apply in_map_iff in Hi as (j & Hj0 & Hj1).
        apply in_seq in Hj1. lia.
Qed.






(** X22: on a table whose players can be served, the process callback
    without MIDI events returns and leaves such a table; it calls no
    notification callback; empty slots stay empty; every player keeps its
    handle and its file; a player whose file is closed, or that is STOPPED,
    or that is STARTING while a seek is pending, is left exactly as it was
    (nothing is taken from its ring buffers); and no player with an open file
    is left in the state STOPPING. *)
Theorem callback_serves_players (st : state) (nFrames : Z) :
  playable st ->
  exists st',
    on_jack_process st nFrames [] = Ok st' /\ playable st'
    /\ cb_log st' = cb_log st
    /\ (forall k : nat, g_players st !! k = Some None ->
          g_players st' !! k = Some None)
    /\ forall (k : nat) (p : AUDIO_PLAYER),
         g_players st !! k = Some (Some p) ->
         exists p',
           g_players st' !! k = Some (Some p')
           /\ handle p' = handle p /\ file_open p' = file_open p
           /\ (file_open p = 2 -> play_state p' <> STOPPING)
           /\ (file_open p <> 2 \/ play_state p = STOPPED \/
               (play_state p = STARTING /\ file_read_status p = SEEKING) ->
               p' = p).
Proof.
  intros Hp.
  destruct (audio_loop_served st nFrames Hp) as (st' & E & Hp' & Hc & _ & _ & Hk).
  exists st'. split; [exact E|]. split; [exact Hp'|]. split; [exact Hc|]. split.
  - intros k Hn. specialize (Hk k). unfold served in Hk. now rewrite Hn in Hk.
  - intros k p Hs. specialize (Hk k). unfold served in Hk. rewrite Hs in Hk.
    destruct (Z.eqb_spec (file_open p) 2) as [Ho|Ho].
    + destruct Hk as (p' & Ep & Hs').
      destruct Hp as [_ Hall]. destruct (Hall _ _ Hs Ho) as (Ha & Hb & Hl).
      destruct (process_player_ok nFrames p Ha Hb Hl)
        as (q & Eq & Hns & _ & _ & Hh & Hfo & _).
      assert (q = p') as -> by congruence.
      exists p'. split; [exact Hs'|]. split; [exact Hh|]. split; [exact Hfo|].
      split; [intros _; exact Hns|].
      intros [Hc0|Hidle]; [contradiction|].
      rewrite (process_player_idle nFrames p Hidle) in Ep. congruence.
    + exists p. split; [exact Hk|]. split; [reflexivity|]. split; [reflexivity|].
      split; [contradiction|reflexivity].
Qed.

(** Showing that a concrete table can be served. *)
Ltac playable_tac :=
  split; [reflexivity|];
  let i := fresh "i" in let q := fresh "q" in let Hq := fresh "Hq" in
  intros i q Hq;
  do 17 (destruct i as [|i];
         [simpl in Hq;
          first [discriminate Hq
                |injection Hq as <-; intros _;
                 split; [eexists; reflexivity|];
                 split; [eexists; reflexivity|];
                 first [left; reflexivity|right; discriminate]]|]);
  discriminate Hq.

Lemma callback_serves_players_example :
  playable ex_note60
  /\ exists st', on_jack_process ex_note60 256 [] = Ok st'
       /\ g_players st' !! 0%nat = Some (Some (player_of ex_note60 0))
       /\ g_players st' !! 1%nat = Some None.
Proof.
  assert (Hp : playable ex_note60) by playable_tac.
  split; [exact Hp|].
  destruct (callback_serves_players ex_note60 256 Hp) as (st' & E & _ & _ & Hn & Hs).
  exists st'. split; [exact E|]. split; [|apply Hn; reflexivity].
  destruct (Hs 0%nat (player_of ex_note60 0) eq_refl) as (p' & Hs' & _ & _ & _ & Hid).
  rewrite Hs', Hid; [reflexivity|].
  right. right. split; reflexivity.
Defined.





(** ** The two ring buffers stay in step *)

Lemma read_sync (ra rb : jack_ringbuffer_t) (c : Z) :
  RB.rb_size ra = RB.rb_size rb -> RB.read_space ra = RB.read_space rb ->
  RB.rb_size (fst (RB.read ra c)) = RB.rb_size (fst (RB.read rb c))
  /\ RB.read_space (fst (RB.read ra c)) = RB.read_space (fst (RB.read rb c)).
Proof.
  intros Hs Hr. unfold RB.read, RB.read_space in *. cbn.
  split; [exact Hs|]. rewrite !length_drop. lia.
Qed.

Lemma drain_inner_sync (fuel : nat) (pitch : Q) (a_count : Z) :
  forall (f_count : Q) (r_count : Z) (ra rb : jack_ringbuffer_t),
    RB.rb_size ra = RB.rb_size rb -> RB.read_space ra = RB.read_space rb ->
    let '(_, _, ra', rb') := drain_inner fuel pitch a_count f_count r_count ra rb in
    RB.rb_size ra' = RB.rb_size rb' /\ RB.read_space ra' = RB.read_space rb'.
Proof.
  induction fuel as [|k IH]; intros f r ra rb Hs Hr; cbn [drain_inner].
  - split; assumption.
  - destruct (Qltb f (inject_Z a_count)); [|split; assumption].
    destruct (read_sync ra rb 4 Hs Hr) as [Hs' Hr'].
    destruct (_ || _); [split; assumption|].
    now apply IH.
Qed.

Lemma drain_outer_sync (fuel : nat) (nFrames : Z) (pitch : Q) :
  forall (a_count : Z) (f_count : Q) (r_count : Z) (ra rb : jack_ringbuffer_t),
    RB.rb_size ra = RB.rb_size rb -> RB.read_space ra = RB.read_space rb ->
    let '(_, _, ra', rb') :=
      drain_outer fuel nFrames pitch a_count f_count r_count ra rb in
    RB.rb_size ra' = RB.rb_size rb' /\ RB.read_space ra' = RB.read_space rb'.
Proof.
  induction fuel as [|k IH]; intros a f r ra rb Hs Hr; cbn [drain_outer].
  - split; assumption.
  - destruct (a <? nFrames); [|split; assumption].
    destruct (_ || _); [split; assumption|].
    pose proof (drain_inner_sync (S (Z.to_nat (RB.read_space ra / 4))) pitch a
                  f r ra rb Hs Hr) as Hin.
    destruct (drain_inner _ pitch a f r ra rb) as [[[f' r'] ra'] rb'].
    destruct Hin as [Hs' Hr']. now apply IH.
Qed.

Lemma drain_ring_sync (nFrames : Z) (pitch : Q) (ra rb : jack_ringbuffer_t) :
  RB.rb_size ra = RB.rb_size rb -> RB.read_space ra = RB.read_space rb ->
  let '(_, _, ra', rb') := drain_ring nFrames pitch ra rb in
  RB.rb_size ra' = RB.rb_size rb' /\ RB.read_space ra' = RB.read_space rb'.
Proof.
  intros Hs Hr. unfold drain_ring.
  destruct (negb (Qeq_bool pitch 1)).
  - now apply drain_outer_sync.
  - unfold RB.read, RB.read_space in *. cbn.
    split; [exact Hs|]. rewrite !length_drop. lia.
Qed.

(** X23: the file thread creates the two ring buffers with one size and
    empty, and a period of the process callback takes the same quantity of
    bytes from both, with and without pitch shift: a player whose ring buffers
    hold equally many bytes is processed to one whose ring buffers hold
    equally many bytes. *)
Theorem process_keeps_rings_in_sync (nFrames : Z) (p : AUDIO_PLAYER) :
  in_sync p -> loop p = 0 \/ loop_end_src p <> 0 ->
  (exists p', process_player nFrames p = Ok p' /\ in_sync p') /\
  (forall (env : open_env) (samplerate : Z) (q : AUDIO_PLAYER),
     in_sync (thread_init env samplerate q)).
Proof.
  intros (ra & rb & Ha & Hb & Hs & Hr) Hl. split.
  - destruct (process_player_ok nFrames p) as (p' & E & _);
      [rewrite Ha; eauto|rewrite Hb; eauto|exact Hl|].
    exists p'. split; [exact E|].
    revert E. unfold process_player. cbv zeta.
    set (p0 := if (play_state p =? STARTING) && Zneqb (file_read_status p) SEEKING
               then with_play_state PLAYING p else p).
    assert (H0 : ringbuffer_a p0 = Some ra /\ ringbuffer_b p0 = Some rb).
    { subst p0. destruct (_ && _); split; assumption. }
    destruct H0 as [Ha0 Hb0]. clearbody p0.
    assert (Hfin : forall q q', in_sync q ->
              (if play_state q =? STOPPING then Ok (with_play_state STOPPED q)
               else Ok q) = Ok q' -> in_sync q').
    { intros q q' Hq. destruct (_ =? _); intros [= <-]; exact Hq. }
    destruct (_ || _).
    + rewrite Ha0, Hb0. cbn [live bind].
      pose proof (drain_ring_sync nFrames (pitch_shift p0) ra rb Hs Hr) as Hd.
      destruct (drain_ring nFrames (pitch_shift p0) ra rb) as [[[r a] ra'] rb'].
      destruct Hd as [Hs' Hr'].
      match goal with
      | |- context [wrap_or_stop ?x ?e] =>
          destruct (wrap_or_stop x e) as [p1|] eqn:Ew; [|discriminate];
          assert (Hp1 : in_sync p1)
      end.
      { revert Ew. unfold wrap_or_stop.
        repeat match goal with
               | |- context [if ?c then _ else _] => destruct c
               end; intros [= <-]; exists ra', rb'; repeat split; assumption. }
      cbn [bind]. now apply Hfin.
    + cbn [bind]. apply Hfin. exists ra, rb. repeat split; assumption.
  - intros env sr q. rewrite thread_init_closed_form.
    destruct (src_created env); eexists _, _; repeat split.
Qed.

Lemma process_keeps_rings_in_sync_example :
  in_sync (ex_player_loop 0 2000 1900 IDLE 99)
  /\ exists p', process_player 256 (ex_player_loop 0 2000 1900 IDLE 99) = Ok p'
                /\ in_sync p'.
Proof.
  assert (Hs : in_sync (ex_player_loop 0 2000 1900 IDLE 99)).
  { eexists _, _. repeat split. }
  split; [exact Hs|].
  apply (process_keeps_rings_in_sync 256 _ Hs). right. discriminate.
Defined.

(** ** The process callback: MIDI events and the table *)

Lemma channel_range (x : Z) : 0 <= Z.land x 15 < 16.
Proof.
  change 15 with (Z.ones 4). rewrite Z.land_ones by lia.
  apply Z.mod_pos_bound. lia.
Qed.

(** X24: a MIDI event reaches the slot of its channel, the low four bits of
    the status byte, and nothing else of the table: slot 16 is out of reach of
    MIDI.  When the slot is empty, or the command is none of note off (0x80),
    note on (0x90) and pitch bend (0xE0), the event changes nothing; a pitch
    bend event stores data byte 1 plus 128 times data byte 2 as the pitch
    bend and changes nothing else.  The event is handled without failure when
    the player of the slot carries the handle of the slot and has both ring
    buffers. *)
Theorem midi_reaches_one_slot (st : state) (ev : midi_event) :
  table_ok st ->
  (forall p, g_players st !! Z.to_nat (Z.land (b0 ev) 15) = Some (Some p) ->
     handle p = Z.land (b0 ev) 15
     /\ is_Some (ringbuffer_a p) /\ is_Some (ringbuffer_b p)) ->
  0 <= Z.land (b0 ev) 15 < 16 /\
  exists st',
    midi_process st ev = Ok st'
    /\ slot_frame (Z.land (b0 ev) 15) st st'
    /\ g_players st' !! 16%nat = g_players st !! 16%nat
    /\ (g_players st !! Z.to_nat (Z.land (b0 ev) 15) = Some None -> st' = st)
    /\ (Z.land (b0 ev) 240 <> 128 -> Z.land (b0 ev) 240 <> 144 ->
        Z.land (b0 ev) 240 <> 224 -> st' = st)
    /\ (Z.land (b0 ev) 240 = 224 ->
        forall p, g_players st !! Z.to_nat (Z.land (b0 ev) 15) = Some (Some p) ->
          st' = put_player st (Z.land (b0 ev) 15)
                  (with_pitch_bend (b1 ev + 128 * b2 ev) p)).
Proof.
  intros Hlen Hslot. pose proof (channel_range (b0 ev)) as Hc.
  split; [exact Hc|].
  set (chan := Z.land (b0 ev) 15) in *.
  assert (Hfar : forall s, slot_frame chan st s ->
            g_players s !! 16%nat = g_players st !! 16%nat).
  { intros s (_ & F & _). apply F. lia. }
  unfold midi_process. fold chan. cbv zeta. unfold players_read.
  destruct (g_players st !! Z.to_nat chan) as [[p|]|] eqn:E.
  2:{ exists st. cbn [bind]. split; [reflexivity|]. split; [apply frame_refl|].
      split; [reflexivity|]. split; [reflexivity|]. split; [reflexivity|].
      intros _ q Hq. discriminate Hq. }
  2:{ apply lookup_ge_None in E. rewrite Hlen in E. unfold MAX_PLAYERS in E. lia. }
  destruct (Hslot p eq_refl) as (Hh & [ra Ha] & [rb Hb]).
  assert (Hv : valid_handle st chan p).
  { split; [unfold MAX_PLAYERS; lia|exact E]. }
  cbn [bind].
  destruct (Z.eqb_spec (Z.land (b0 ev) 240) 128) as [C1|C1];
    destruct (Z.eqb_spec (Z.land (b0 ev) 240) 144) as [C2|C2];
    try (exfalso; congruence); cbn [orb andb].
  - (* note off *)
    destruct (last_note_played p =? b1 ev).
    + rewrite Hh.
      destruct (stop_playback_frame _ _ _ Hv) as (st1 & p1 & E1 & Hv1 & F1 & _).
      rewrite E1. cbn [bind]. rewrite (valid_deref _ _ _ Hv1). cbn [bind].
      assert (F : slot_frame chan st
                    (put_player st1 chan
                       (with_last_note_played 0 (with_pitch_shift 1%Q p1))))
        by (eapply frame_trans; [exact F1|apply frame_put]).
      eexists. split; [reflexivity|]. split; [exact F|]. split; [apply Hfar, F|].
      split; [discriminate|]. split; [contradiction|]. intros C3. congruence.
    + destruct (Z.eqb_spec (Z.land (b0 ev) 240) 224) as [C3|C3]; [congruence|].
      exists st. split; [reflexivity|]. split; [apply frame_refl|].
      split; [reflexivity|]. split; [discriminate|]. split; [contradiction|].
      contradiction.
  - (* note on, or a note on with velocity 0 for the last note *)
    destruct ((b2 ev =? 0) && (last_note_played p =? b1 ev)).
    + rewrite Hh.
      destruct (stop_playback_frame _ _ _ Hv) as (st1 & p1 & E1 & Hv1 & F1 & _).
      rewrite E1. cbn [bind]. rewrite (valid_deref _ _ _ Hv1). cbn [bind].
      assert (F : slot_frame chan st
                    (put_player st1 chan
                       (with_last_note_played 0 (with_pitch_shift 1%Q p1))))
        by (eapply frame_trans; [exact F1|apply frame_put]).
      eexists. split; [reflexivity|]. split; [exact F|]. split; [apply Hfar, F|].
      split; [discriminate|]. split; [contradiction|]. intros C3. congruence.
    + cbn [ringbuffer_a ringbuffer_b with_file_read_status with_play_pos_frames
           with_pitch_shift]. rewrite Ha, Hb. cbn [ringbuffer_reset bind].
      eexists. split; [reflexivity|]. split; [apply frame_put|].
      split; [apply Hfar, frame_put|].
      split; [discriminate|]. split; [contradiction|]. intros C3. congruence.
  - destruct (Z.eqb_spec (Z.land (b0 ev) 240) 224) as [C3|C3].
    + eexists. split; [reflexivity|]. split; [apply frame_put|].
      split; [apply Hfar, frame_put|].
      split; [discriminate|]. split; [contradiction|].
      intros _ q [= <-]. reflexivity.
    + exists st. split; [reflexivity|]. split; [apply frame_refl|].
      split; [reflexivity|]. split; [discriminate|]. split; [reflexivity|].
      contradiction.
Qed.

Lemma midi_reaches_one_slot_example :
  table_ok ex_loaded
  /\ exists st',
       midi_process ex_loaded (mkMidi 224 0 64) = Ok st'
       /\ st' = put_player ex_loaded 0 (with_pitch_bend 8192 ex_player)
       /\ midi_process ex_loaded (mkMidi 176 7 100) = Ok ex_loaded.
Proof.
  split; [reflexivity|].
  destruct (midi_reaches_one_slot ex_loaded (mkMidi 224 0 64) eq_refl)
    as (_ & st' & E & _ & _ & _ & _ & Hb).
  { intros p [= <-]. split; [reflexivity|]. split; eexists; reflexivity. }
  exists st'. split; [exact E|]. split; [apply (Hb eq_refl ex_player eq_refl)|].
  reflexivity.
Defined.

(** ** Supported codecs *)

Lemma prefix_nil (s : string) : String.prefix EmptyString s = true.
Proof. now destruct s. Qed.

Lemma prefix_app (c a b : string) :
  String.prefix c a = true -> String.prefix c (a ++ b) = true.
Proof.
  revert c. induction a as [|y a IH]; intros c.
  - destruct c; [intros _; apply prefix_nil|discriminate].
  - destruct c as [|x c]; [reflexivity|]. cbn.
    destruct (Ascii.ascii_dec x y); [apply IH|discriminate].
Qed.

Lemma prefix_refl (c : string) : String.prefix c c = true.
Proof.
  induction c as [|x c IH]; [reflexivity|]. cbn.
  now destruct (Ascii.ascii_dec x x).
Qed.

Lemma strstr_app_l (a b c : string) :
  strstr a c = true -> strstr (a ++ b) c = true.
Proof.
  induction a as [|x a IH]; cbn [strstr append]; intros H.
  - rewrite orb_false_r in H. destruct c; [|discriminate].
    destruct b; cbn [strstr]; now rewrite ?prefix_nil.
  - apply orb_true_iff in H as [H|H].
    + change (String x (a ++ b)) with (String x a ++ b)%string.
      now rewrite (prefix_app _ _ b H).
    + rewrite (IH H). apply orb_true_r.
Qed.

Lemma strstr_app_r (a b c : string) :
  strstr b c = true -> strstr (a ++ b) c = true.
Proof.
  intros H. induction a as [|x a IH]; [exact H|].
  cbn [strstr append]. rewrite IH. apply orb_true_r.
Qed.

Lemma strstr_refl (c : string) : strstr c c = true.
Proof. destruct c; cbn [strstr]; now rewrite prefix_refl. Qed.

Lemma is_codec_supported_In (formats : list string) (codec : string) :
  (is_codec_supported formats codec = 1 <-> In codec formats)
  /\ (is_codec_supported formats codec = 0 \/ is_codec_supported formats codec = 1).
Proof.
  induction formats as [|e l [IH1 IH2]]; cbn [is_codec_supported In].
  - split; [split; [discriminate|intros []]|now left].
  - destruct (String.eqb_spec codec e) as [->|Hne].
    + split; [split; auto|now right].
    + split; [|exact IH2]. rewrite IH1. split; [now right|].
      intros [H|H]; [congruence|exact H].
Qed.

Lemma strcat_ok (dest src : string) :
  Z.of_nat (String.length dest + String.length src) < 1024 ->
  strcat dest src = Ok (dest ++ src)%string.
Proof.
  intros H. unfold strcat.
  destruct (Z.ltb_spec (Z.of_nat (String.length dest + String.length src)) 1024);
    [reflexivity|lia].
Qed.

Lemma strcat_inv (dest src s : string) :
  strcat dest src = Ok s -> s = (dest ++ src)%string.
Proof. unfold strcat. destruct (_ <? _); now intros [= <-]. Qed.

Lemma codecs_loop_contains (formats : list string) :
  forall buf s, codecs_loop formats buf = Ok s ->
    (forall c, strstr buf c = true -> strstr s c = true) /\
    (forall c, In c formats -> strstr s c = true).
Proof.
  induction formats as [|e l IH]; intros buf s; cbn [codecs_loop].
  - intros [= <-]. split; [auto|intros c []].
  - destruct (strstr buf e) eqn:Ee.
    + intros H. destruct (IH _ _ H) as [Hb Hl]. split; [exact Hb|].
      intros c [<-|Hc]; [now apply Hb|now apply Hl].
    + destruct buf as [|x buf]; cbn [bind].
      * destruct (strcat EmptyString e) as [s1|] eqn:E1; [|discriminate].
        apply strcat_inv in E1. subst s1. cbn [bind append]. intros H.
        destruct (IH _ _ H) as [Hb Hl]. split.
        -- intros c Hc. cbn [strstr] in Hc. rewrite orb_false_r in Hc.
           destruct c; [|discriminate]. apply Hb.
           destruct e; cbn [strstr]; now rewrite ?prefix_nil.
        -- intros c [<-|Hc]; [apply Hb, strstr_refl|now apply Hl].
      * destruct (strcat (String x buf) ",") as [s1|] eqn:E1; [|discriminate].
        apply strcat_inv in E1. subst s1. cbn [bind].
        destruct (strcat _ e) as [s2|] eqn:E2; [|discriminate].
        apply strcat_inv in E2. subst s2. cbn [bind]. intros H.
        destruct (IH _ _ H) as [Hb Hl]. split.
        -- intros c Hc. apply Hb. now apply strstr_app_l, strstr_app_l.
        -- intros c [<-|Hc]; [apply Hb, strstr_app_r, strstr_refl|now apply Hl].
Qed.

Lemma length_append (a b : string) :
  String.length (a ++ b) = (String.length a + String.length b)%nat.
Proof. induction a as [|x a IH]; cbn; [reflexivity|now rewrite IH]. Qed.

Lemma codecs_loop_total (formats : list string) :
  forall buf,
    Z.of_nat (String.length buf) + codecs_length formats < 1024 ->
    exists s, codecs_loop formats buf = Ok s.
Proof.
  induction formats as [|e l IH]; intros buf; cbn [codecs_loop codecs_length fold_right].
  - eauto.
  - fold (codecs_length l). intros H.
    assert (Hn : 0 <= codecs_length l).
    { clear. induction l; cbn [codecs_length fold_right]; [lia|].
      fold (codecs_length l). lia. }
    destruct (strstr buf e); [apply IH; lia|].
    destruct buf as [|x buf]; cbn [bind].
    + rewrite strcat_ok by (cbn in *; lia). cbn [bind]. apply IH.
      cbn in *. lia.
    + rewrite strcat_ok by (cbn in *; lia). cbn [bind].
      rewrite strcat_ok by (rewrite length_append; cbn in *; lia). cbn [bind].
      apply IH. rewrite !length_append. cbn in *. lia.
Qed.

(** X25: [is_codec_supported] returns 1 exactly for the extensions of the
    format table and 0 otherwise.  [get_supported_codecs] returns whenever
    the extensions and a separator each fit in less than 1024 characters, and
    every extension that [is_codec_supported] accepts occurs in the text it
    returns; with an empty table the text is empty. *)
Theorem supported_codecs_listed (formats : list string) (codec : string) :
  (is_codec_supported formats codec = 1 <-> In codec formats)
  /\ (is_codec_supported formats codec = 0 \/ is_codec_supported formats codec = 1)
  /\ (forall s, get_supported_codecs formats = Ok s ->
        is_codec_supported formats codec = 1 -> strstr s codec = true)
  /\ (codecs_length formats < 1024 ->
        exists s, get_supported_codecs formats = Ok s)
  /\ get_supported_codecs [] = Ok EmptyString.
Proof.
  destruct (is_codec_supported_In formats codec) as [Hin Hr].
  split; [exact Hin|]. split; [exact Hr|]. split; [|split; [|reflexivity]].
  - intros s Hs Hc. apply (codecs_loop_contains _ _ _ Hs). now apply Hin.
  - intros Hlen. apply codecs_loop_total. cbn. lia.
Qed.

Lemma supported_codecs_listed_example :
  is_codec_supported ["wav"; "aiff"; "aif"; "flac"; "wav"]%string "flac" = 1
  /\ is_codec_supported ["wav"; "aiff"; "aif"; "flac"; "wav"]%string "mp3" = 0
  /\ get_supported_codecs ["wav"; "aiff"; "aif"; "flac"; "wav"]%string
     = Ok "wav,aiff,flac"%string
  /\ strstr "wav,aiff,flac" "aif" = true.
Proof.
  destruct (supported_codecs_listed
              ["wav"; "aiff"; "aif"; "flac"; "wav"]%string "aif")
    as (Hin & _ & Hs & _).
  split; [reflexivity|]. split; [reflexivity|]. split; [reflexivity|].
  apply Hs; [reflexivity|]. apply Hin. right. right. now left.
Defined.

(** ** Seeking *)


(** [set_position] on an open file: the state and the player it leaves, the
    frame sought being [pos]. *)
Lemma set_position_sought (st : state) (h : Z) (p : AUDIO_PLAYER) (t : Q)
    (ra rb : jack_ringbuffer_t) :
  valid_handle st h p -> handle p = h -> file_open p = 2 ->
  ringbuffer_a p = Some ra -> ringbuffer_b p = Some rb ->
  exists st' p',
    set_position st h t = Ok st' /\ valid_handle st' h p' /\ slot_frame h st st'
    /\ unsnap p' =
       unsnap (with_ringbuffer_a (Some (RB.reset ra))
                 (with_ringbuffer_b (Some (RB.reset rb))
                    (with_file_read_status SEEKING
                       (with_play_pos_frames
                          (u32 (let f := Qtrunc (t * inject_Z (g_samplerate st)) in
                                if Zneqb (loop p) 0 then
                                  let g := if f >? loop_end_src p
                                           then loop_end_src p else f in
                                  if g <? loop_start_src p
                                  then loop_start_src p else g
                                else if f mod 2 ^ 64 >=? frames p
                                     then frames p - 1 else f)) p)))).
Proof.
  intros Hv Hh Ho Ha Hb. unfold set_position.
  rewrite (valid_get_player _ _ _ Hv). cbn [bind].
  unfold Zneqb at 1. rewrite Ho. cbn [Z.eqb Pos.eqb negb]. cbv zeta.
  match goal with
  | |- context [with_play_pos_frames (u32 ?x) p] => set (pos := x)
  end.
  change (ringbuffer_b (with_file_read_status SEEKING
            (with_play_pos_frames (u32 pos) p))) with (ringbuffer_b p).
  change (ringbuffer_a (with_file_read_status SEEKING
            (with_play_pos_frames (u32 pos) p))) with (ringbuffer_a p).
  rewrite Ha, Hb. cbn [ringbuffer_reset bind].
  match goal with
  | |- context [put_player st h ?x] => set (p2 := x)
  end.
  destruct (send_notifications_notified (put_player st h p2) h p2 NOTIFY_POSITION)
    as (st' & E & N); [apply (valid_put _ _ _ Hv)|left; exact Hh|].
  destruct (notified_valid _ _ _ _ N (valid_put _ _ _ Hv _)) as (p' & Hv' & Hu).
  exists st', p'. split; [exact E|]. split; [exact Hv'|]. split; [|exact Hu].
  eapply frame_trans; [apply frame_put|apply notified_frame, N].
Qed.



(** ** Looping *)







(** ** Demultiplexing stays inside the block *)

Lemma buf_read_ok (buf : list Q) (i : Z) :
  0 <= i < Z.of_nat (length buf) -> exists x, buf_read buf i = Ok x.
Proof.
  intros Hi. unfold buf_read. destruct (Z.ltb_spec i 0); [lia|].
  destruct (buf !! Z.to_nat i) eqn:E; [eauto|].
  apply lookup_ge_None in E. lia.
Qed.

Lemma mix_tracks_ok (buf : list Q) (sample channels off : Z) (fuel : nat) :
  forall track f,
    0 <= sample -> 0 <= off -> 0 <= track ->
    sample + channels <= Z.of_nat (length buf) ->
    exists x, mix_tracks fuel buf sample channels off track f = Ok x.
Proof.
  induction fuel as [|k IH]; intros track f Hs Ho Ht Hlen; cbn [mix_tracks].
  - eauto.
  - destruct (Z.ltb_spec (track + off) channels); [|eauto].
    destruct (buf_read_ok buf (sample + track + off)) as (x & ->); [lia|].
    cbn [bind]. apply IH; lia.
Qed.

Lemma demux_frame_ok (p : AUDIO_PLAYER) (buf : list Q) (frame : Z) :
  1 <= sf_channels (sf_info p) ->
  track_a p < sf_channels (sf_info p) -> track_b p < sf_channels (sf_info p) ->
  0 <= frame -> (frame + 1) * sf_channels (sf_info p) <= Z.of_nat (length buf) ->
  exists ab, demux_frame p buf frame = Ok ab.
Proof.
  intros Hc Ha Hb Hf Hlen. unfold demux_frame. cbv zeta.
  set (c := sf_channels (sf_info p)) in *.
  assert (Hs : 0 <= frame * c /\ frame * c + c <= Z.of_nat (length buf)) by nia.
  destruct (Z.gtb_spec c 1).
  - assert (HA : exists fA,
      (if track_a p <? 0
       then mix_tracks (Z.to_nat c) buf (frame * c) c 0 0 0%Q
       else buf_read buf (frame * c + track_a p)) = Ok fA).
    { destruct (Z.ltb_spec (track_a p) 0);
        [apply mix_tracks_ok; lia|apply buf_read_ok; lia]. }
    assert (HB : exists fB,
      (if track_b p <? 0
       then mix_tracks (Z.to_nat c) buf (frame * c) c 1 0 0%Q
       else buf_read buf (frame * c + track_b p)) = Ok fB).
    { destruct (Z.ltb_spec (track_b p) 0);
        [apply mix_tracks_ok; lia|apply buf_read_ok; lia]. }
    destruct HA as (fA & ->), HB as (fB & ->). cbn [bind]. eauto.
  - destruct (buf_read_ok buf (frame * c)) as (x & ->); [lia|]. cbn [bind]. eauto.
Qed.

Lemma length_bytes_of (s : Q) (n : Z) :
  0 <= n <= 4 -> Z.of_nat (length (RB.bytes_of s n)) = n.
Proof.
  intros Hn. unfold RB.bytes_of. rewrite length_map, length_seq. lia.
Qed.

(** One frame written to ring buffers that are in step. *)
Lemma write_pair_sync (ra rb : jack_ringbuffer_t) (fA fB : Q) :
  RB.rb_size ra = RB.rb_size rb -> RB.read_space ra = RB.read_space rb ->
  let wb := RB.write rb fB 4 in
  let wa := RB.write ra fA (snd wb) in
  RB.rb_size (fst wa) = RB.rb_size (fst wb)
  /\ RB.read_space (fst wa) = RB.read_space (fst wb)
  /\ snd wa = snd wb /\ 0 <= snd wa <= 4
  /\ RB.read_space (fst wa) = RB.read_space ra + snd wa
  /\ (4 <= RB.write_space ra -> snd wa = 4).
Proof.
  intros Hs Hr. unfold RB.write, RB.write_space, RB.read_space in *. cbn.
  rewrite !length_app.
  set (nb := Z.max 0 (Z.min 4 (RB.rb_size rb - 1 - Z.of_nat (length (RB.rb_data rb))))).
  set (na := Z.max 0 (Z.min nb (RB.rb_size ra - 1 - Z.of_nat (length (RB.rb_data ra))))).
  assert (Hna : na = nb) by lia.
  pose proof (length_bytes_of fB nb ltac:(lia)).
  pose proof (length_bytes_of fA na ltac:(lia)).
  repeat split; try lia.
Qed.

Lemma demux_loop_safe (buf : list Q) (k : nat) :
  forall (frame : Z) (p : AUDIO_PLAYER) (ra rb : jack_ringbuffer_t),
    ringbuffer_a p = Some ra -> ringbuffer_b p = Some rb ->
    RB.rb_size ra = RB.rb_size rb -> RB.read_space ra = RB.read_space rb ->
    1 <= sf_channels (sf_info p) ->
    track_a p < sf_channels (sf_info p) -> track_b p < sf_channels (sf_info p) ->
    0 <= frame ->
    (frame + Z.of_nat k) * sf_channels (sf_info p) <= Z.of_nat (length buf) ->
    exists ra' rb',
      demux_loop k frame buf p =
      Ok (with_ringbuffer_a (Some ra') (with_ringbuffer_b (Some rb') p), false)
      /\ RB.rb_size ra' = RB.rb_size rb' /\ RB.read_space ra' = RB.read_space rb'
      /\ RB.read_space ra <= RB.read_space ra' <= RB.read_space ra + 4 * Z.of_nat k
      /\ (4 * Z.of_nat k <= RB.write_space ra ->
          RB.read_space ra' = RB.read_space ra + 4 * Z.of_nat k).
Proof.
  induction k as [|k IH]; intros frame p ra rb Ha Hb Hs Hr Hc Hta Htb Hf Hlen.
  - exists ra, rb. cbn [demux_loop]. split.
    + do 2 f_equal. destruct p. cbn in *. now subst.
    + repeat split; try assumption; lia.
  - cbn [demux_loop].
    destruct (demux_frame_ok p buf frame Hc Hta Htb Hf) as ([fA fB] & ->); [nia|].
    cbn [bind]. rewrite Hb, Ha. cbn [live bind fst snd].
    destruct (write_pair_sync ra rb fA fB Hs Hr) as (Hs1 & Hr1 & Hn & Hn4 & Hgrow & Hroom).
    set (wb := RB.write rb fB 4) in *. set (wa := RB.write ra fA (snd wb)) in *.
    destruct (Z.ltb_spec 4 (snd wa)); [lia|].
    set (p1 := with_ringbuffer_a (Some (fst wa)) (with_ringbuffer_b (Some (fst wb)) p)).
    destruct (IH (frame + 1) p1 (fst wa) (fst wb) eq_refl eq_refl Hs1 Hr1 Hc Hta Htb)
      as (ra' & rb' & E & Hs' & Hr' & Hbound & Hfull); [lia|cbn; lia|].
    exists ra', rb'. split; [exact E|]. split; [exact Hs'|]. split; [exact Hr'|].
    split; [lia|].
    intros Hw. assert (H4 : snd wa = 4) by (apply Hroom; lia).
    rewrite Hfull; [lia|].
    unfold RB.write_space in *.
    assert (RB.rb_size (fst wa) = RB.rb_size ra) by reflexivity. lia.
Qed.

(** X28: for a player whose two track selections are below the channel
    count of its file and whose ring buffers are in step, the demultiplexing
    of a block of [n] frames out of a buffer that holds them reads no sample
    outside the buffer, does not end through the underrun branch, changes
    nothing of the player but the two ring buffers, and leaves these in step;
    when the ring buffers have room for the block, every frame adds four
    bytes to each. *)
Theorem demux_block_safe (p : AUDIO_PLAYER) (buf : list Q) (n : Z)
    (ra rb : jack_ringbuffer_t) :
  ringbuffer_a p = Some ra -> ringbuffer_b p = Some rb ->
  RB.rb_size ra = RB.rb_size rb -> RB.read_space ra = RB.read_space rb ->
  1 <= sf_channels (sf_info p) ->
  track_a p < sf_channels (sf_info p) -> track_b p < sf_channels (sf_info p) ->
  0 <= n -> n * sf_channels (sf_info p) <= Z.of_nat (length buf) ->
  exists ra' rb',
    demux_block p buf n =
    Ok (with_ringbuffer_a (Some ra') (with_ringbuffer_b (Some rb') p), false)
    /\ in_sync (with_ringbuffer_a (Some ra') (with_ringbuffer_b (Some rb') p))
    /\ RB.read_space ra <= RB.read_space ra' <= RB.read_space ra + 4 * n
    /\ (4 * n <= RB.write_space ra ->
        RB.read_space ra' = RB.read_space ra + 4 * n
        /\ RB.read_space rb' = RB.read_space rb + 4 * n).
Proof.
  intros Ha Hb Hs Hr Hc Hta Htb Hn Hlen. unfold demux_block.
  destruct (demux_loop_safe buf (Z.to_nat n) 0 p ra rb Ha Hb Hs Hr Hc Hta Htb)
    as (ra' & rb' & E & Hs' & Hr' & Hbound & Hfull); [lia|lia|].
  rewrite Z2Nat.id in * by lia.
  exists ra', rb'. split; [exact E|]. split.
  - exists ra', rb'. repeat split; assumption.
  - split; [exact Hbound|]. intros Hw. specialize (Hfull Hw). lia.
Qed.

Lemma demux_block_safe_example :
  exists ra' rb',
    demux_block ex_tracks_player [1; 2; 3; 4; 5; 6; 7; 8]%Q 2 =
    Ok (with_ringbuffer_a (Some ra') (with_ringbuffer_b (Some rb') ex_tracks_player),
        false)
    /\ RB.read_space ra' = 8 /\ RB.read_space rb' = 8.
Proof.
  destruct (demux_block_safe ex_tracks_player [1; 2; 3; 4; 5; 6; 7; 8]%Q 2
              (RB.mk 1048576 []) (RB.mk 1048576 []))
    as (ra' & rb' & E & _ & _ & Hfull);
    try reflexivity; try (vm_compute; discriminate).
  exists ra', rb'. split; [exact E|]. apply Hfull. vm_compute. discriminate.
Defined.

(** ** Selecting tracks *)

Lemma local_track_a : local_param NOTIFY_TRACK_A.
Proof. repeat split. Qed.

Lemma local_track_b : local_param NOTIFY_TRACK_B.
Proof. repeat split. Qed.

(** What [set_track_a] and [set_track_b] do after the selection is stored:
    a seek to the current position and a notification pass. *)
Lemma reseek_and_notify (st : state) (h : Z) (p : AUDIO_PLAYER)
    (ra rb : jack_ringbuffer_t) (param : notify) :
  valid_handle st h p -> handle p = h -> file_open p = 2 ->
  ringbuffer_a p = Some ra -> ringbuffer_b p = Some rb -> local_param param ->
  exists st' p' pos,
    (do t <- get_position st h;
     do st2 <- set_position st h t;
     send_notifications st2 (Some h) param) = Ok st'
    /\ valid_handle st' h p'
    /\ unsnap p' =
       unsnap (with_ringbuffer_a (Some (RB.reset ra))
                 (with_ringbuffer_b (Some (RB.reset rb))
                    (with_file_read_status SEEKING
                       (with_play_pos_frames pos p)))).
Proof.
  intros Hv Hh Ho Ha Hb Hloc.
  destruct (get_position_ok _ _ _ Hv) as (t & Et). rewrite Et. cbn [bind].
  destruct (set_position_sought st h p t ra rb Hv Hh Ho Ha Hb)
    as (st2 & p2 & E2 & Hv2 & _ & Hu2).
  rewrite E2. cbn [bind].
  destruct (send_notifications_notified st2 h p2 param Hv2 (or_intror Hloc))
    as (st' & E & N).
  destruct (notified_valid _ _ _ _ N Hv2) as (p' & Hv' & Hu).
  exists st', p'. eexists. split; [exact E|]. split; [exact Hv'|].
  rewrite Hu. exact Hu2.
Qed.

(** X29: [set_track_a] and [set_track_b] on a player with an open file store
    a track below the channel count of the file (0 for a mono file) and leave
    the selection as it was for any other; the getter returns the selection,
    which stays below the channel count; the other selection is not touched.
    In either case a seek is requested and both ring buffers are reset. *)
Theorem set_track_selects (st : state) (h : Z) (p : AUDIO_PLAYER) (track : Z)
    (ra rb : jack_ringbuffer_t) :
  valid_handle st h p -> handle p = h -> file_open p = 2 ->
  ringbuffer_a p = Some ra -> ringbuffer_b p = Some rb ->
  1 <= sf_channels (sf_info p) ->
  track_a p < sf_channels (sf_info p) -> track_b p < sf_channels (sf_info p) ->
  (exists st' p',
     set_track_a st h track = Ok st' /\ valid_handle st' h p'
     /\ track_a p' = (if track <? sf_channels (sf_info p)
                      then if sf_channels (sf_info p) =? 1 then 0 else track
                      else track_a p)
     /\ get_track_a st' h = Ok (track_a p')
     /\ track_a p' < sf_channels (sf_info p') /\ track_b p' = track_b p
     /\ file_read_status p' = SEEKING
     /\ ringbuffer_a p' = Some (RB.reset ra)
     /\ ringbuffer_b p' = Some (RB.reset rb)) /\
  (exists st' p',
     set_track_b st h track = Ok st' /\ valid_handle st' h p'
     /\ track_b p' = (if track <? sf_channels (sf_info p)
                      then if sf_channels (sf_info p) =? 1 then 0 else track
                      else track_b p)
     /\ get_track_b st' h = Ok (track_b p')
     /\ track_b p' < sf_channels (sf_info p') /\ track_a p' = track_a p
     /\ file_read_status p' = SEEKING
     /\ ringbuffer_a p' = Some (RB.reset ra)
     /\ ringbuffer_b p' = Some (RB.reset rb)).
Proof.
  intros Hv Hh Ho Ha Hb Hc Hta Htb.
  assert (Hsel : forall cur, cur < sf_channels (sf_info p) ->
            (if track <? sf_channels (sf_info p)
             then if sf_channels (sf_info p) =? 1 then 0 else track
             else cur) < sf_channels (sf_info p)).
  { intros cur Hcur. destruct (Z.ltb_spec track (sf_channels (sf_info p))); [|exact Hcur].
    destruct (Z.eqb_spec (sf_channels (sf_info p)) 1); lia. }
  split.
  - unfold set_track_a, get_track_a. rewrite (valid_get_player _ _ _ Hv). cbn [bind].
    unfold Zneqb at 1. rewrite Ho. cbn [Z.eqb Pos.eqb negb andb]. cbv zeta.
    set (p1 := if track <? sf_channels (sf_info p)
               then if sf_channels (sf_info p) =? 1
                    then with_track_a 0 p else with_track_a track p
               else p).
    assert (H1 : handle p1 = h /\ file_open p1 = 2 /\ ringbuffer_a p1 = Some ra
                 /\ ringbuffer_b p1 = Some rb /\ sf_info p1 = sf_info p
                 /\ track_b p1 = track_b p
                 /\ track_a p1 = (if track <? sf_channels (sf_info p)
                                  then if sf_channels (sf_info p) =? 1 then 0 else track
                                  else track_a p)).
    { subst p1. destruct (track <? _); [destruct (_ =? 1)|]; repeat split; assumption. }
    destruct H1 as (Hh1 & Ho1 & Ha1 & Hb1 & Hi1 & Htb1 & Hta1).
    destruct (reseek_and_notify (put_player st h p1) h p1 ra rb NOTIFY_TRACK_A
                (valid_put _ _ _ Hv p1) Hh1 Ho1 Ha1 Hb1 local_track_a)
      as (st' & p' & pos & E & Hv' & Hu).
    rewrite E. exists st', p'. split; [reflexivity|]. split; [exact Hv'|].
    unsnap_field Hu track_a. unsnap_field Hu track_b. unsnap_field Hu sf_info.
    unsnap_field Hu file_open. unsnap_field Hu file_read_status.
    unsnap_field Hu ringbuffer_a. unsnap_field Hu ringbuffer_b.
    rewrite (valid_get_player _ _ _ Hv'). cbn [bind]. unfold Zneqb.
    rewrite Hfield2, Ho1, Hfield1, Hi1, Hfield, Hta1, Hfield0, Htb1.
    repeat split; try assumption. now apply Hsel.
  - unfold set_track_b, get_track_b. rewrite (valid_get_player _ _ _ Hv). cbn [bind].
    unfold Zneqb at 1. rewrite Ho. cbn [Z.eqb Pos.eqb negb andb]. cbv zeta.
    set (p1 := if track <? sf_channels (sf_info p)
               then if sf_channels (sf_info p) =? 1
                    then with_track_b 0 p else with_track_b track p
               else p).
    assert (H1 : handle p1 = h /\ file_open p1 = 2 /\ ringbuffer_a p1 = Some ra
                 /\ ringbuffer_b p1 = Some rb /\ sf_info p1 = sf_info p
                 /\ track_a p1 = track_a p
                 /\ track_b p1 = (if track <? sf_channels (sf_info p)
                                  then if sf_channels (sf_info p) =? 1 then 0 else track
                                  else track_b p)).
    { subst p1. destruct (track <? _); [destruct (_ =? 1)|]; repeat split; assumption. }
    destruct H1 as (Hh1 & Ho1 & Ha1 & Hb1 & Hi1 & Hta1 & Htb1).
    destruct (reseek_and_notify (put_player st h p1) h p1 ra rb NOTIFY_TRACK_B
                (valid_put _ _ _ Hv p1) Hh1 Ho1 Ha1 Hb1 local_track_b)
      as (st' & p' & pos & E & Hv' & Hu).
    rewrite E. exists st', p'. split; [reflexivity|]. split; [exact Hv'|].
    unsnap_field Hu track_a. unsnap_field Hu track_b. unsnap_field Hu sf_info.
    unsnap_field Hu file_open. unsnap_field Hu file_read_status.
    unsnap_field Hu ringbuffer_a. unsnap_field Hu ringbuffer_b.
    rewrite (valid_get_player _ _ _ Hv'). cbn [bind]. unfold Zneqb.
    rewrite Hfield2, Ho1, Hfield1, Hi1, Hfield, Hta1, Hfield0, Htb1.
    repeat split; try assumption. now apply Hsel.
Qed.

Lemma set_track_selects_example :
  valid_handle ex_tracks 0 ex_tracks_player
  /\ get_track_a ex_tracks 0 = Ok 2
  /\ (exists st' p', set_track_a ex_tracks 0 4 = Ok st' /\ valid_handle st' 0 p'
        /\ get_track_a st' 0 = Ok 2 /\ file_read_status p' = SEEKING)
  /\ (exists st', set_track_a ex_tracks 0 (-1) = Ok st'
        /\ get_track_a st' 0 = Ok (-1)).
Proof.
  assert (Hv : valid_handle ex_tracks 0 ex_tracks_player) by valid_tac.
  split; [exact Hv|]. split; [reflexivity|].
  destruct (set_track_selects ex_tracks 0 ex_tracks_player 4
              (RB.mk 1048576 []) (RB.mk 1048576 []) Hv)
    as [(st1 & p1 & E1 & Hv1 & Ht1 & Hg1 & _ & _ & Hs1 & _) _];
    try reflexivity; try (vm_compute; discriminate).
  destruct (set_track_selects ex_tracks 0 ex_tracks_player (-1)
              (RB.mk 1048576 []) (RB.mk 1048576 []) Hv)
    as [(st2 & p2 & E2 & Hv2 & Ht2 & Hg2 & _) _];
    try reflexivity; try (vm_compute; discriminate).
  split.
  - exists st1, p1. split; [exact E1|]. split; [exact Hv1|].
    split; [rewrite Hg1, Ht1; reflexivity|exact Hs1].
  - exists st2. split; [exact E2|]. rewrite Hg2, Ht2. reflexivity.
Defined.

(** ** The file thread: seeking and reading *)

(** X30: the head of the file thread's main loop, started with both ring
    buffers in a state other than IDLE.  A seek request (SEEKING) resets both
    ring buffers.  A read that returns frames leaves the status LOADING.  A
    read that returns none ends the loading (IDLE) when the player does not
    loop or when the loop has just been loaded (LOOPING at the head), so the
    loop is loaded once per request; after a seek of a looping player it asks
    for the loop (LOOPING).  Without conversion (ratio 1) the request of a
    looping player whose read position is not past the loop end is the
    smaller of the buffer size and the distance to the loop end, so that a
    read of at most the request does not pass the loop end; with conversion
    the request is the buffer size less the unused frames, whatever the loop
    end. *)
Theorem reader_loads_one_loop (env : file_env) (p : AUDIO_PLAYER)
    (l : thread_locals) (ra rb : jack_ringbuffer_t) :
  ringbuffer_a p = Some ra -> ringbuffer_b p = Some rb ->
  file_read_status p = SEEKING \/ file_read_status p = LOOPING
  \/ file_read_status p = LOADING ->
  exists p' l' request n,
    thread_fetch env p l = Ok (p', l', Some (request, n))
    /\ n = to_int (sf_readf_float env request)
    /\ (file_read_status p = SEEKING ->
        ringbuffer_a p' = Some (RB.reset ra) /\ ringbuffer_b p' = Some (RB.reset rb))
    /\ (n <> 0 -> file_read_status p' = LOADING)
    /\ (n = 0 -> loop p = 0 -> file_read_status p' = IDLE /\ end_of_input l' = 1)
    /\ (n = 0 -> loop p <> 0 -> file_read_status p = LOOPING ->
        file_read_status p' = IDLE)
    /\ (n = 0 -> loop p <> 0 -> file_read_status p = SEEKING ->
        file_read_status p' = LOOPING)
    /\ (Qeq_bool (src_ratio p) 1 = true -> loop p <> 0 ->
        0 <= file_read_pos p' - n <= loop_end p -> loop_end p < 2 ^ 63 ->
        0 <= input_buffer_size p < 2 ^ 32 ->
        request = Z.min (input_buffer_size p) (loop_end p - (file_read_pos p' - n))
        /\ (n <= request -> file_read_pos p' <= loop_end p))
    /\ (Qeq_bool (src_ratio p) 1 = false ->
        request = (input_buffer_size p - nUnusedFrames l') mod 2 ^ 64).
Proof.
  intros Ha Hb Hst. unfold thread_fetch.
  assert (Hseek : exists p1 l1,
    thread_seek env p l = Ok (p1, l1) /\ file_read_status p1 = LOADING
    /\ loop p1 = loop p /\ loop_end p1 = loop_end p /\ src_ratio p1 = src_ratio p
    /\ input_buffer_size p1 = input_buffer_size p
    /\ (file_read_status p = SEEKING ->
        ringbuffer_a p1 = Some (RB.reset ra) /\ ringbuffer_b p1 = Some (RB.reset rb)
        /\ loop_loaded p1 = 0)
    /\ (file_read_status p = LOOPING -> loop_loaded p1 = 1)).
  { unfold thread_seek.
    destruct Hst as [Hs|[Hs|Hs]]; rewrite Hs.
    - change (SEEKING =? SEEKING) with true. cbv iota.
      rewrite Ha, Hb. cbn [ringbuffer_reset bind]. cbv zeta.
      eexists _, _. split; [reflexivity|].
      destruct (_ >=? 0); cbn; repeat split; discriminate.
    - change (LOOPING =? SEEKING) with false. change (LOOPING =? LOOPING) with true.
      cbv iota zeta. eexists _, _. split; [reflexivity|].
      destruct (_ >=? 0); cbn; repeat split; discriminate.
    - change (LOADING =? SEEKING) with false. change (LOADING =? LOOPING) with false.
      cbv iota. exists p, l. split; [reflexivity|]. split; [exact Hs|].
      do 4 (split; [reflexivity|]).
      split; intros H; discriminate H. }
  destruct Hseek as (p1 & l1 & E1 & Hs1 & Hl1 & Hle1 & Hr1 & Hi1 & Hsk & Hlp).
  rewrite E1. cbn [bind fst snd]. unfold thread_read. rewrite Hs1.
  change (LOADING =? LOADING) with true. cbv iota zeta.
  set (request := thread_request p1 l1).
  set (n := to_int (sf_readf_float env request)).
  change (loop (with_file_read_pos (file_read_pos p1 + n) p1)) with (loop p1).
  change (loop_loaded (with_file_read_pos (file_read_pos p1 + n) p1))
    with (loop_loaded p1).
  assert (Hreq :
    (Qeq_bool (src_ratio p) 1 = true -> loop p <> 0 ->
     0 <= file_read_pos p1 <= loop_end p -> loop_end p < 2 ^ 63 ->
     0 <= input_buffer_size p < 2 ^ 32 ->
     request = Z.min (input_buffer_size p) (loop_end p - file_read_pos p1)) /\
    (Qeq_bool (src_ratio p) 1 = false ->
     request = (input_buffer_size p - nUnusedFrames l1) mod 2 ^ 64)).
  { subst request. unfold thread_request. cbv zeta. rewrite Hr1, Hl1, Hle1, Hi1.
    split.
    - intros -> Hl Hp He Hb0. unfold Zneqb.
      destruct (Z.eqb_spec (loop p) 0); [contradiction|]. cbn [negb andb].
      rewrite (Z.mod_small (file_read_pos p1 + input_buffer_size p)) by lia.
      rewrite (Z.mod_small (loop_end p)) by lia.
      destruct (Z.gtb_spec (file_read_pos p1 + input_buffer_size p) (loop_end p)).
      + rewrite Z.mod_small by lia. lia.
      + lia.
    - now intros ->. }
  destruct Hreq as [Hreq1 Hreq2].
  unfold Zneqb.
  destruct (Z.eqb_spec n 0) as [Hn|Hn]; cbn [negb].
  - destruct (Z.eqb_spec (loop p1) 0) as [Hz|Hz]; cbn [negb].
    + eexists _, _, request, n. split; [reflexivity|]. split; [reflexivity|].
      cbn. rewrite Hl1 in Hz.
      split; [intros H; now destruct (Hsk H) as (? & ? & _)|].
      split; [contradiction|]. split; [intros _ _; split; reflexivity|].
      split; [contradiction|]. split; [contradiction|]. split; [contradiction|].
      exact Hreq2.
    + rewrite Hl1 in Hz.
      destruct (Z.eqb_spec (loop_loaded p1) 0) as [Hll|Hll].
      * eexists _, _, request, n. split; [reflexivity|]. split; [reflexivity|].
        cbn.
        split; [intros H; now destruct (Hsk H) as (? & ? & _)|].
        split; [contradiction|]. split; [contradiction|].
        split; [intros _ _ H; rewrite (Hlp H) in Hll; discriminate Hll|].
        split; [reflexivity|].
        split; [|exact Hreq2].
        intros Hq _ Hp He Hb0. rewrite Hn, Z.add_0_r, Z.sub_0_r in *.
        split; [now apply Hreq1|]. lia.
      * eexists _, _, request, n. split; [reflexivity|]. split; [reflexivity|].
        cbn.
        split; [intros H; now destruct (Hsk H) as (? & ? & _)|].
        split; [contradiction|]. split; [contradiction|].
        split; [reflexivity|].
        split; [intros _ _ H; destruct (Hsk H) as (_ & _ & H0); contradiction|].
        split; [|exact Hreq2].
        intros Hq _ Hp He Hb0. rewrite Hn, Z.add_0_r, Z.sub_0_r in *.
        split; [now apply Hreq1|]. lia.
  - eexists _, _, request, n. split; [reflexivity|]. split; [reflexivity|].
    cbn.
    split; [intros H; now destruct (Hsk H) as (? & ? & _)|].
    split; [intros _; exact Hs1|].
    split; [contradiction|]. split; [contradiction|]. split; [contradiction|].
    split; [|exact Hreq2].
    intros Hq Hl Hp He Hb0.
    replace (file_read_pos p1 + n - n) with (file_read_pos p1) in * by lia.
    rewrite (Hreq1 Hq Hl Hp He Hb0). split; [reflexivity|]. lia.
Qed.

Lemma reader_loads_one_loop_example :
  file_read_status ex_player = SEEKING
  /\ exists p' l',
       thread_fetch ex_file ex_player (mkLocals 0 0)
       = Ok (p', l', Some (48000, 48000))
       /\ file_read_status p' = LOADING /\ file_read_pos p' = 48000.
Proof.
  split; [reflexivity|].
  destruct (reader_loads_one_loop ex_file ex_player (mkLocals 0 0)
              (RB.mk 1048576 []) (RB.mk 1048576 []) eq_refl eq_refl
              (or_introl eq_refl))
    as (p' & l' & request & n & E & Hn & _ & Hload & _).
  assert (Hr : request = 48000 /\ n = 48000 /\ file_read_pos p' = 48000).
  { vm_compute in E. injection E as <- _ <- <-. repeat split. }
  destruct Hr as (-> & -> & Hpos).
  exists p', l'. split; [exact E|]. split; [apply Hload; discriminate|exact Hpos].
Defined.
